(** * LocusZoom: the state validator, the data resolution pipeline, the
    extent engine, drag commit and the panel layout solver, embedded from
    [locuszoom.app.js].

    Conventions of the embedding.
    - A JavaScript number is an exact rational ([Q]) or [NaN]; infinities and
      floating-point rounding are left out, except in the layout solver,
      which is written over an interface of number operations and is run
      both on [Q] and on IEEE binary64 ([PrimFloat.float], the format
      JavaScript numbers have).
    - [undefined] is [None] of an [option]; a thrown exception is the [Throw]
      case of [result].
    - A promise is run to completion when it is created: a resolved promise
      is [Return], a rejected one is [Throw], and [then_] is the bind.
    - An object whose key order the code reads ([Object.keys], [for in]), or
      that is built key by key (a row of data, the requests by namespace),
      is an association list in insertion order; an object only read by key
      (the chain header, the registries of sources and transformations, the
      data layers of a panel) is a [gmap].  Keys that are array indices,
      which JavaScript enumerates first, and properties inherited from
      [Object.prototype] are outside the model.

    The development has three parts: the functions of the source, the
    reference definitions and example inputs the properties are stated
    with, and the properties. *)

From Stdlib Require Import ZArith QArith Qround Qminmax List Sorted Bool Ascii String Lia Lqa Floats.
From stdpp Require Import base option list gmap strings.
Import ListNotations.

Set Default Proof Using "Type".

(** ** Values and exceptions *)

(** A JavaScript number. *)
Inductive jsnum : Type :=
| NaN
| Num (q : Q).

(** What a [throw] carries: the message of the repository's own [throw]
    statements, or the engine's [TypeError]. *)
Inductive exn : Type :=
| Msg (s : string)
| TypeError.

Inductive result (A : Type) : Type :=
| Return (a : A)
| Throw (e : exn).
Arguments Return {A} a.
Arguments Throw {A} e.

Definition then_ {A B : Type} (p : result A) (f : A -> result B) : result B :=
  match p with
  | Return a => f a
  | Throw e => Throw e
  end.

Local Open Scope Q_scope.

Definition Qltb (x y : Q) : bool := negb (Qle_bool y x).

(** [isNaN(x)] for a number, [Math.max(x, y)], [x || y] on numbers. *)
Definition isNaN (x : jsnum) : bool :=
  match x with NaN => true | Num _ => false end.

Definition Math_max (x y : jsnum) : jsnum :=
  match x, y with
  | Num a, Num b => Num (if Qltb a b then b else a)
  | _, _ => NaN
  end.

Definition truthy (x : jsnum) : bool :=
  match x with NaN => false | Num q => negb (Qeq_bool q 0) end.

Definition js_or (x y : jsnum) : jsnum := if truthy x then x else y.

(** Arithmetic and comparison of numbers: [NaN] is contagious and compares
    false with everything.  (Division by zero, which gives an infinity, is
    not used by the functions modelled over [jsnum].) *)
Definition js_lift2 (f : Q -> Q -> Q) (x y : jsnum) : jsnum :=
  match x, y with
  | Num a, Num b => Num (f a b)
  | _, _ => NaN
  end.

Definition js_add : jsnum -> jsnum -> jsnum := js_lift2 Qplus.
Definition js_sub : jsnum -> jsnum -> jsnum := js_lift2 Qminus.
Definition js_mul : jsnum -> jsnum -> jsnum := js_lift2 Qmult.
Definition js_half (x : jsnum) : jsnum := js_lift2 Qdiv x (Num 2).

Definition js_lt (x y : jsnum) : bool :=
  match x, y with
  | Num a, Num b => Qltb a b
  | _, _ => false
  end.

(** [Math.round(x)]: the nearest integer, halves upwards; [Math.floor]. *)
Definition Math_round (x : jsnum) : jsnum :=
  match x with
  | NaN => NaN
  | Num q => Num (inject_Z (Qfloor (q + (1 # 2))))
  end.

Definition Math_floor (x : jsnum) : jsnum :=
  match x with
  | NaN => NaN
  | Num q => Num (inject_Z (Qfloor q))
  end.

(** [parseInt(x)] of a number that prints in plain decimal notation: its
    integer part (rounded towards zero).  A state field that holds text is
    represented by the number the text denotes, [NaN] if none. *)
Definition parseInt (x : jsnum) : jsnum :=
  match x with
  | NaN => NaN
  | Num q => Num (inject_Z (Z.quot (Qnum q) (Zpos (Qden q))))
  end.

(** ** [LocusZoom.validateState] *)

Module ValidateState.

(** The region part of a state object; [None] is [undefined].  Other
    fields of the state are not read or written by [validateState]. *)
Record State : Type := mkState {
  chr : option string;
  start : option jsnum;
  end_ : option jsnum
}.

(** The two layout values [validateState] reads, as the numbers [isNaN]
    and the comparisons see: [NaN] for [undefined], 0 for [null]. *)
Record Layout : Type := mkLayout {
  min_region_scale : jsnum;
  max_region_scale : jsnum
}.

(** The locals of the function once the region block has run. *)
Record Region : Type := mkRegion {
  r_start : jsnum;
  r_end : jsnum;
  attempted_midpoint : jsnum;
  attempted_scale : jsnum
}.

(** The block guarded by [chr], [start] and [end] all being defined. *)
Definition resolve_region (start0 end0 : jsnum) : Region :=
  let s := Math_max (parseInt start0) (Num 1) in
  let e := Math_max (parseInt end0) (Num 1) in
  if isNaN s && isNaN e then
    mkRegion (Num 1) (Num 1) (Num (1 # 2)) (Num 0)
  else if isNaN s || isNaN e then
    let mid := js_or s e in
    let s' := if isNaN s then e else s in
    let e' := if isNaN e then s' else e in
    mkRegion s' e' mid (Num 0)
  else
    let mid := Math_round (js_half (js_add s e)) in
    let scale := js_sub e s in
    let '(s1, e1, scale1) :=
      if js_lt scale (Num 0)
      then (* var temp = start; end = start; start = temp; *)
        let temp := s in
        let e' := s in
        let s' := temp in
        (s', e', js_sub e' s')
      else (s, e, scale) in
    if js_lt mid (Num 0)
    then mkRegion (Num 1) (Num 1) mid (Num 0)
    else mkRegion s1 e1 mid scale1.

(** One of the two constraints on the region scale: [bound] is the layout
    value and [hit] the comparison of the attempted scale with it. *)
Definition constrain (r : Region) (bound : jsnum) (hit : bool)
    (se : jsnum * jsnum) : jsnum * jsnum :=
  if negb (isNaN bound) && hit
  then
    let s := Math_max (js_sub (attempted_midpoint r) (Math_floor (js_half bound))) (Num 1) in
    (s, js_add s bound)
  else se.

Definition validateState (new_state : State) (layout : Layout) : State :=
  match chr new_state, start new_state, end_ new_state with
  | Some c, Some start0, Some end0 =>
      let r := resolve_region start0 end0 in
      let se := (r_start r, r_end r) in
      let se := constrain r (min_region_scale layout)
                  (js_lt (attempted_scale r) (min_region_scale layout)) se in
      let se := constrain r (max_region_scale layout)
                  (js_lt (max_region_scale layout) (attempted_scale r)) se in
      mkState (Some c) (Some (fst se)) (Some (snd se))
  | _, _, _ => new_state
  end.

End ValidateState.

(** ** Data values, rows and transformation functions *)

(** The values a data row or a chain header holds. *)
Inductive value : Type :=
| VUndefined
| VNull
| VNumber (n : jsnum)
| VString (s : string).

(** What the model takes from the JavaScript engine: the number a text
    denotes (the [ToNumber] of a string), and the text [scinotation] builds
    from a number with [toFixed(3)] or [toExponential(2)]. *)
Class Engine : Type := {
  StringToNumber : string -> jsnum;
  sci_text : jsnum -> string
}.

Definition ToNumber `{Engine} (v : value) : jsnum :=
  match v with
  | VUndefined => NaN
  | VNull => Num 0
  | VNumber n => n
  | VString s => StringToNumber s
  end.

Definition num_eq (x y : jsnum) : bool :=
  match x, y with
  | Num a, Num b => Qeq_bool a b
  | _, _ => false
  end.

(** [a == b] *)
Definition js_loose_eq `{Engine} (a b : value) : bool :=
  match a, b with
  | VUndefined, VUndefined | VUndefined, VNull
  | VNull, VUndefined | VNull, VNull => true
  | VUndefined, _ | VNull, _ | _, VUndefined | _, VNull => false
  | VString s, VString t => String.eqb s t
  | _, _ => num_eq (ToNumber a) (ToNumber b)
  end.

(** [a === b] *)
Definition js_strict_eq (a b : value) : bool :=
  match a, b with
  | VUndefined, VUndefined | VNull, VNull => true
  | VNumber x, VNumber y => num_eq x y
  | VString s, VString t => String.eqb s t
  | _, _ => false
  end.

(** [a < b]: two texts compare as texts, anything else as numbers. *)
Definition js_less `{Engine} (a b : value) : bool :=
  match a, b with
  | VString s, VString t => String.ltb s t
  | _, _ => js_lt (ToNumber a) (ToNumber b)
  end.

Definition value_truthy (v : value) : bool :=
  match v with
  | VUndefined | VNull => false
  | VNumber n => truthy n
  | VString s => negb (String.eqb s "")
  end.

(** An object of the response or of the chain body: its properties in
    insertion order, each key once. *)
Definition row : Type := list (string * value).

Fixpoint assoc_get {A : Type} (o : list (string * A)) (k : string) : option A :=
  match o with
  | [] => None
  | (k', v) :: o' => if String.eqb k' k then Some v else assoc_get o' k
  end.

(** [o[k] = v]: an existing property keeps its place, a new one goes last. *)
Fixpoint assoc_set {A : Type} (o : list (string * A)) (k : string) (v : A)
    : list (string * A) :=
  match o with
  | [] => [(k, v)]
  | (k', v') :: o' =>
      if String.eqb k' k then (k', v) :: o' else (k', v') :: assoc_set o' k v
  end.

Definition row_get (r : row) (k : string) : value :=
  default VUndefined (assoc_get r k).

Definition row_set (r : row) (k : string) (v : value) : row := assoc_set r k v.

(** A property name made from a value that may be [undefined]. *)
Definition prop_name (k : option string) : string := default "undefined"%string k.

(** Truth of a text that may be [undefined], and [a || b] on such texts. *)
Definition str_truthy (a : option string) : bool :=
  match a with Some s => negb (String.eqb s "") | None => false end.

Definition str_or (a b : option string) : option string :=
  if str_truthy a then a else b.

(** A transformation function: one argument, one result, and it may throw. *)
Definition transform : Type := value -> result value.

(** [scinotation] calls [x.toFixed] or [x.toExponential], methods only a
    number has: on a text, [null] or [undefined] the call is a
    [TypeError]. *)
Definition scinotation `{Engine} : transform := fun x =>
  match x with
  | VNumber n => Return (VString (sci_text n))
  | _ => Throw TypeError
  end.

(** The chain threaded through the sources.  The body is the empty object
    the Requester starts from, or an array of rows. *)
Inductive chain_body : Type :=
| BodyObject
| BodyRows (rows : list row).

Record Chain : Type := mkChain {
  header : gmap string value;
  body : chain_body
}.

(** [{header: {}, body: {}}] *)
Definition empty_chain : Chain := mkChain ∅ BodyObject.

(** ** [LocusZoom.Data.Source] *)

Module Source.

(** The instance fields of a source that [getRequest] reads and writes. *)
Record Cache (Resp : Type) : Type := mkCache {
  enableCache : bool;
  _cachedKey : option string;
  _cachedResponse : option Resp
}.
Arguments mkCache {Resp} _ _ _.
Arguments enableCache {Resp} _.
Arguments _cachedKey {Resp} _.
Arguments _cachedResponse {Resp} _.

(** The methods [getRequest] calls on [this].  [W] is the world the
    network lives in: [fetchRequest] is the one method that acts on it. *)
Record Methods (State Resp W : Type) : Type := mkMethods {
  getCacheKey : State -> Chain -> list string -> result (option string);
  fetchRequest : State -> Chain -> list string -> W -> result Resp * W
}.
Arguments mkMethods {State Resp W} _ _.
Arguments getCacheKey {State Resp W} _ _ _ _.
Arguments fetchRequest {State Resp W} _ _ _ _ _.

(** [cacheKey == this._cachedKey], both a text or [undefined]. *)
Definition key_eq (a b : option string) : bool :=
  match a, b with
  | Some x, Some y => String.eqb x y
  | None, None => true
  | _, _ => false
  end.

(** [getRequest]: the response (or the one cached, which is [undefined]
    before anything was stored), the source and the world afterwards. *)
Definition getRequest {State Resp W : Type} (m : Methods State Resp W)
    (self : Cache Resp) (state : State) (chain : Chain) (fields : list string) (w : W)
    : result (option Resp) * Cache Resp * W :=
  match getCacheKey m state chain fields with
  | Throw e => (Throw e, self, w)
  | Return cacheKey =>
      if enableCache self && bool_decide (is_Some cacheKey)
         && key_eq cacheKey (_cachedKey self)
      then (Return (_cachedResponse self), self, w)
      else
        let '(req, w') := fetchRequest m state chain fields w in
        match req with
        | Throw e => (Throw e, self, w')
        | Return x =>
            if enableCache self
            then (Return (Some x), mkCache (enableCache self) cacheKey (Some x), w')
            else (Return (Some x), self, w')
        end
  end.

(** The same methods in a world that also counts the calls of
    [fetchRequest]: the number of requests sent so far. *)
Definition counted {State Resp W : Type} (m : Methods State Resp W)
    : Methods State Resp (W * nat) :=
  mkMethods (getCacheKey m)
    (fun state chain fields '(w, n) =>
       let '(req, w') := fetchRequest m state chain fields w in (req, (w', S n))).

(** [getData]: the hook [preGetData] runs at once (what it returns is
    not used, but it may throw, and it may add to the arrays it is given:
    its result here is the arrays as it leaves them); the function
    returned does the request and parses the response. *)
Definition getData {State Resp W : Type} (m : Methods State Resp W)
    (preGetData : option (State -> list string -> list string -> list (option transform)
                          -> result (list string * list string * list (option transform))))
    (parseResponse : option Resp -> Chain -> list string -> list string
                     -> list (option transform) -> result Chain)
    (state : State) (fields outnames : list string) (trans : list (option transform))
    : result (Chain -> Cache Resp * W -> result Chain * (Cache Resp * W)) :=
  then_ (match preGetData with
         | Some pre => pre state fields outnames trans
         | None => Return (fields, outnames, trans)
         end) (fun '(fields, outnames, trans) =>
  Return (fun chain '(self, w) =>
    let '(req, self', w') := getRequest m self state chain fields w in
    (then_ req (fun resp => parseResponse resp chain fields outnames trans), (self', w')))).

(** *** The default parsers *)

(** [trans && trans[j]]: the transformation for column [j], if any. *)
Definition trans_at (trans : list (option transform)) (j : nat) : option transform :=
  mjoin (trans !! j).

Definition apply_trans (t : option transform) (val : value) : result value :=
  match t with
  | Some f => f val
  | None => Return val
  end.

Definition not_found (f : string) (outname : option string) : exn :=
  Msg ("field " ++ f ++ " not found in response for " ++ prop_name outname).

(** The first [forEach] of [parseArraysToObjects]: [i] is the index of the
    head of [fields]. *)
Fixpoint check_fields_in (x : list (string * list value)) (fields : list string)
    (outnames : list string) (i : nat) : result unit :=
  match fields with
  | [] => Return tt
  | f :: fields' =>
      match assoc_get x f with
      | None => Throw (not_found f (outnames !! i))
      | Some _ => check_fields_in x fields' outnames (S i)
      end
  end.

(** The loop over [j] that builds one record: [cell j] is the raw value
    of column [j], [j] the index of the head of [fields]. *)
Fixpoint build_record (cell : nat -> string -> value) (fields : list string)
    (outnames : list string) (trans : list (option transform)) (j : nat)
    (record : row) : result row :=
  match fields with
  | [] => Return record
  | f :: fields' =>
      then_ (apply_trans (trans_at trans j) (cell j f)) (fun val =>
      build_record cell fields' outnames trans (S j)
        (row_set record (prop_name (outnames !! j)) val))
  end.

(** The loop over [i < N]. *)
Fixpoint arrays_rows (x : list (string * list value)) (fields outnames : list string)
    (trans : list (option transform)) (i n : nat) : result (list row) :=
  match n with
  | O => Return []
  | S n' =>
      then_ (build_record
               (fun _ f => default VUndefined (default [] (assoc_get x f) !! i))
               fields outnames trans 0 []) (fun record =>
      then_ (arrays_rows x fields outnames trans (S i) n') (fun records =>
      Return (record :: records)))
  end.

(** [x[Object.keys(x)[1]].length]: the length of the second array; with
    fewer than two keys the key is [undefined], and reading [length] of a
    missing property is a [TypeError]. *)
Definition second_length (x : list (string * list value)) : result nat :=
  match x with
  | _ :: (_, arr) :: _ => Return (length arr)
  | _ =>
      match assoc_get x "undefined" with
      | Some arr => Return (length arr)
      | None => Throw TypeError
      end
  end.

Definition parseArraysToObjects (x : list (string * list value))
    (fields outnames : list string) (trans : list (option transform))
    : result (list row) :=
  then_ (check_fields_in x fields outnames 0) (fun _ =>
  then_ (second_length x) (fun N =>
  arrays_rows x fields outnames trans 0 N)).

(** [fieldFound[j] = 1] when the value read is not [undefined]. *)
Definition mark_found (fieldFound : list bool) (j : nat) (val : value) : list bool :=
  match val with
  | VUndefined => fieldFound
  | _ => <[j := true]> fieldFound
  end.

(** One row of [parseObjectsToObjects]: the loop over [j]. *)
Fixpoint objects_record (xi : row) (fields : list string) (outnames : list string)
    (trans : list (option transform)) (j : nat) (record : row)
    (fieldFound : list bool) : result (row * list bool) :=
  match fields with
  | [] => Return (record, fieldFound)
  | f :: fields' =>
      let val := row_get xi f in
      let fieldFound := mark_found fieldFound j val in
      then_ (apply_trans (trans_at trans j) val) (fun val =>
      objects_record xi fields' outnames trans (S j)
        (row_set record (prop_name (outnames !! j)) val) fieldFound)
  end.

(** The loop over the rows. *)
Fixpoint objects_rows (x : list row) (fields outnames : list string)
    (trans : list (option transform)) (fieldFound : list bool)
    : result (list row * list bool) :=
  match x with
  | [] => Return ([], fieldFound)
  | xi :: x' =>
      then_ (objects_record xi fields outnames trans 0 [] fieldFound) (fun '(record, ff) =>
      then_ (objects_rows x' fields outnames trans ff) (fun '(records, ff') =>
      Return (record :: records, ff')))
  end.

(** The closing [forEach] over [fieldFound]. *)
Fixpoint check_found (fieldFound : list bool) (fields outnames : list string)
    (i : nat) : result unit :=
  match fieldFound with
  | [] => Return tt
  | v :: rest =>
      if v then check_found rest fields outnames (S i)
      else Throw (not_found (prop_name (fields !! i)) (outnames !! i))
  end.

Definition parseObjectsToObjects (x : list row) (fields outnames : list string)
    (trans : list (option transform)) : result (list row) :=
  let fieldFound := replicate (length fields) false in
  then_ (objects_rows x fields outnames trans fieldFound) (fun '(records, ff) =>
  then_ (check_found ff fields outnames 0) (fun _ =>
  Return records)).

(** The parsed response, [json.data || json]: an array of objects or an
    object of arrays. *)
Inductive payload : Type :=
| ArrayOfObjects (x : list row)
| ObjectOfArrays (x : list (string * list value)).

Definition parseData (x : payload) (fields outnames : list string)
    (trans : list (option transform)) : result (list row) :=
  match x with
  | ArrayOfObjects x => parseObjectsToObjects x fields outnames trans
  | ObjectOfArrays x => parseArraysToObjects x fields outnames trans
  end.

Definition parseResponse (resp : payload) (chain : Chain) (fields outnames : list string)
    (trans : list (option transform)) : result Chain :=
  then_ (parseData resp fields outnames trans) (fun records =>
  Return (mkChain (header chain) (BodyRows records))).

End Source.

(** ** [LocusZoom.Data.LDSource] *)

Module LDSource.

(** *** Regular expressions of [findMergeFields]: a literal between two
    word boundaries, with or without the [i] flag. *)

Definition is_word_char (c : ascii) : bool :=
  let n := nat_of_ascii c in
  ((48 <=? n) && (n <=? 57)) || ((65 <=? n) && (n <=? 90))
  || ((97 <=? n) && (n <=? 122)) || (n =? 95).

Definition lower (c : ascii) : ascii :=
  let n := nat_of_ascii c in
  if (65 <=? n) && (n <=? 90) then ascii_of_nat (n + 32) else c.

Definition char_eq (ci : bool) (a b : ascii) : bool :=
  if ci then Ascii.eqb (lower a) (lower b) else Ascii.eqb a b.

(** [literal_at ci w s]: [s] starts with [w]; the result is the last
    character matched and what follows it. *)
Fixpoint literal_at (ci : bool) (w s : string) (last : option ascii)
    : option (option ascii * string) :=
  match w with
  | EmptyString => Some (last, s)
  | String a w' =>
      match s with
      | EmptyString => None
      | String b s' => if char_eq ci a b then literal_at ci w' s' (Some b) else None
      end
  end.

Definition is_word (c : option ascii) : bool :=
  match c with Some c => is_word_char c | None => false end.

Definition head_char (s : string) : option ascii :=
  match s with EmptyString => None | String c _ => Some c end.

(** [\b] between two neighbours. *)
Definition boundary (before after : option ascii) : bool :=
  xorb (is_word before) (is_word after).

(** [name.match(/\bw\b/)], [prev] being the character before [name]. *)
Fixpoint word_search (ci : bool) (w : string) (prev : option ascii) (name : string) : bool :=
  (match literal_at ci w name None with
   | Some (last, rest) =>
       boundary prev (head_char name) && boundary last (head_char rest)
   | None => false
   end)
  || match name with
     | EmptyString => false
     | String c name' => word_search ci w (Some c) name'
     end.

Record regex : Type := mkRegex { literal : string; ignore_case : bool }.

Definition regex_match (re : regex) (name : string) : bool :=
  word_search (ignore_case re) (literal re) None name.

(** [exactMatch(arr)(regexes...)]: the one name the first regex with
    exactly one match selects. *)
Fixpoint exactMatch (arr : list string) (regexes : list regex) : option string :=
  match regexes with
  | [] => None
  | re :: rest =>
      match filter (fun x => regex_match re x = true) arr with
      | [m] => Some m
      | _ => exactMatch arr rest
      end
  end.

Record Params : Type := mkParams {
  id_field : option string;
  position_field : option string;
  pvalue_field : option string
}.

Record MergeFields : Type := mkMergeFields {
  id : option string;
  position : option string;
  pvalue : option string;
  _names_ : option (list string)
}.

Definition findMergeFields (params : Params) (chain : Chain) : MergeFields :=
  match body chain with
  | BodyRows (first :: _) =>
      let names := first.*1 in
      let nameMatch := exactMatch names in
      mkMergeFields
        (str_or (str_or (id_field params) (nameMatch [mkRegex "variant" false]))
                (nameMatch [mkRegex "id" false]))
        (str_or (position_field params)
                (nameMatch [mkRegex "position" true; mkRegex "pos" true]))
        (str_or (str_or (pvalue_field params) (nameMatch [mkRegex "log_pvalue" true]))
                (nameMatch [mkRegex "pvalue|neglog10" true]))
        (Some names)
  | _ => mkMergeFields (id_field params) (position_field params) (pvalue_field params) None
  end.

Record RequestedFields : Type := mkRequested {
  isrefvarin : option string;
  isrefvarout : option string;
  ldin : option string;
  ldout : option string
}.

(** The loop of [findRequestedFields], [i] the index of the head. *)
Fixpoint requested_loop (fields : list string) (outnames : list string) (i : nat)
    (obj : RequestedFields) : RequestedFields :=
  match fields with
  | [] => obj
  | f :: fields' =>
      requested_loop fields' outnames (S i)
        (if String.eqb f "isrefvar"
         then mkRequested (Some f) (outnames !! i) (ldin obj) (ldout obj)
         else mkRequested (isrefvarin obj) (isrefvarout obj) (Some f) (outnames !! i))
  end.

Definition findRequestedFields (fields outnames : list string) : RequestedFields :=
  requested_loop fields outnames 0 (mkRequested None None None None).

(** The parsed response, [json.data]: two parallel arrays. *)
Record LDData : Type := mkLDData {
  position2 : list value;
  rsquare : list value
}.

Section Join.
Context `{Engine}.

(** [leftJoin(left, right, lfield, "rsquare")].  [left] is the part of the
    chain body from index [i] on, [pos2] and [rsq] the parts of
    [right.position2] and [right.rsquare] from index [j] on; the result
    is the rows from [i] on as the loop leaves them. *)
Fixpoint leftJoin (kpos lfield : string) (left : list row) (pos2 rsq : list value)
    {struct left} : list row :=
  match left with
  | [] => []
  | r :: left' =>
      (fix scan (pos2 rsq : list value) {struct pos2} : list row :=
         match pos2 with
         | [] => r :: left'
         | p :: pos2' =>
             if js_loose_eq (row_get r kpos) p then
               row_set r lfield (default VUndefined (head rsq))
                 :: leftJoin kpos lfield left' pos2' (tail rsq)
             else if js_less (row_get r kpos) p then
               r :: leftJoin kpos lfield left' pos2 rsq
             else scan pos2' (tail rsq)
         end) pos2 rsq
  end.

End Join.

Definition tagRefVariant (data : list row) (refvar : value) (idfield outname : string)
    : list row :=
  map (fun r =>
         if value_truthy (row_get r idfield) && js_strict_eq (row_get r idfield) refvar
         then row_set r outname (VNumber (Num 1))
         else row_set r outname (VNumber (Num 0)))
      data.

(** The text an array of names, or [null], gives when it is appended to a
    message. *)
Definition names_text (names : option (list string)) : string :=
  match names with
  | None => "null"
  | Some l => String.concat "," l
  end.

Definition parseResponse `{Engine} (params : Params) (resp : LDData) (chain : Chain)
    (fields outnames : list string) : result Chain :=
  let keys := findMergeFields params chain in
  let reqFields := findRequestedFields fields outnames in
  if negb (str_truthy (position keys)) then
    Throw (Msg ("Unable to find position field for merge: " ++ names_text (_names_ keys)))
  else
    match body chain with
    | BodyObject => Return chain
    | BodyRows rows =>
        let rows := leftJoin (prop_name (position keys)) (prop_name (ldout reqFields))
                      rows (position2 resp) (rsquare resp) in
        let ldrefvar := default VUndefined (header chain !! "ldrefvar"%string) in
        let rows :=
          if str_truthy (isrefvarin reqFields) && value_truthy ldrefvar
          then tagRefVariant rows ldrefvar (prop_name (id keys))
                 (prop_name (isrefvarout reqFields))
          else rows in
        Return (mkChain (header chain) (BodyRows rows))
    end.

(** *** The request: [preGetData] and [getURL] *)

(** [preGetData(state, fields)]: nothing is returned. *)
Definition preGetData (fields : list string) : result unit :=
  if (1 <? length fields)%nat
     && (negb (length fields =? 2)%nat || negb (bool_decide ("isrefvar"%string ∈ fields)))
  then Throw (Msg ("LD does not know how to get all fields: " ++ String.concat ", " fields))
  else Return tt.

(** The fields of the state [getURL] reads; one that is not set is
    [undefined]. *)
Record State : Type := mkState {
  ldrefsource : value;
  ldrefvar : value;
  chr : value;
  start : value;
  end_ : value
}.

(** [a || b] on values *)
Definition value_or (a b : value) : value := if value_truthy a then a else b.

Definition str_value (s : option string) : value :=
  match s with Some s => VString s | None => VUndefined end.

Section GetURL.
Context `{Engine}.

(** The loop of [findExtremeValue], from index [i] on. *)
Fixpoint extreme_loop (x : list row) (pval : string) (sign : jsnum) (i : nat)
    (extremeVal : value) (extremeIdx : nat) : nat :=
  match x with
  | [] => extremeIdx
  | xi :: x' =>
      let candidate := js_mul (ToNumber (row_get xi pval)) sign in
      if js_less extremeVal (VNumber candidate)
      then extreme_loop x' pval sign (S i) (VNumber candidate) i
      else extreme_loop x' pval sign (S i) extremeVal extremeIdx
  end.

(** [findExtremeValue(x, pval, sign)] on the body of the chain: reading
    the first row of a body without rows is a [TypeError]. *)
Definition findExtremeValue (x : chain_body) (pval : option string) (sign : option jsnum)
    : result nat :=
  let pval := prop_name (str_or pval (Some "pvalue"%string)) in
  let sign := js_or (default NaN sign) (Num 1) in
  match x with
  | BodyRows (x0 :: rest) => Return (extreme_loop rest pval sign 1 (row_get x0 pval) 0)
  | _ => Throw TypeError
  end.

(** [getURL(state, chain, fields)]: the address of the request and the
    chain, whose header the call writes the reference variant to.
    [ToString] is the text of a value where it is appended to a text, and
    [url] is [this.url].  (The body of a chain is never missing, so the
    check for it is left out.) *)
Definition getURL (ToString : value -> string) (url : string) (params : Params)
    (state : State) (chain : Chain) (fields : list string) : result (string * Chain) :=
  let refSource :=
    value_or (ldrefsource state)
      (value_or (default VUndefined (header chain !! "ldrefsource"%string))
                (VNumber (Num 1))) in
  let reqFields := findRequestedFields fields [] in
  let refVar := str_value (ldin reqFields) in
  let refVar :=
    if js_loose_eq refVar (VString "state")
    then value_or (ldrefvar state)
           (value_or (default VUndefined (header chain !! "ldrefvar"%string))
                     (VString "best"))
    else refVar in
  then_ (if js_loose_eq refVar (VString "best") then
           let keys := findMergeFields params chain in
           if negb (str_truthy (pvalue keys)) || negb (str_truthy (id keys)) then
             Throw (Msg ("Unable to find columns for both pvalue and id for merge: "
                         ++ names_text (_names_ keys)))
           else
             then_ (findExtremeValue (body chain) (pvalue keys) None) (fun idx =>
             match body chain with
             | BodyRows rows =>
                 match rows !! idx with
                 | Some r => Return (row_get r (prop_name (id keys)))
                 | None => Throw TypeError
                 end
             | BodyObject => Throw TypeError
             end)
         else Return refVar) (fun refVar =>
  Return ((url ++ "results/?filter=reference eq " ++ ToString refSource
              ++ " and chromosome2 eq '" ++ ToString (chr state) ++ "'"
              ++ " and position2 ge " ++ ToString (start state)
              ++ " and position2 le " ++ ToString (end_ state)
              ++ " and variant1 eq '" ++ ToString refVar ++ "'"
              ++ "&fields=chr,pos,rsquare")%string,
          mkChain (<["ldrefvar"%string := refVar]> (header chain)) (body chain))).

End GetURL.

End LDSource.

(** ** [LocusZoom.TransformationFunctions] *)

Module TransformationFunctions.

(** The registry [transformations]: functions by name. *)
Definition registry : Type := gmap string transform.

(** [getTrans(name)] *)
Definition getTrans (transformations : registry) (name : option string)
    : result (option transform) :=
  match name with
  | None => Return None
  | Some n =>
      if String.eqb n "" then Return None
      else match transformations !! n with
           | Some fn => Return (Some fn)
           | None => Throw (Msg ("transformation " ++ n ++ " not found"))
           end
  end.

Definition parseTrans := getTrans.

(** The names the global expression of [parseTransString] (a pipe, then
    one or more characters other than a pipe) finds in [x]: after each
    pipe, the run of characters up to the next pipe, when it is not empty.
    [cur] is the run being read, [None] before the first pipe. *)
Fixpoint pipe_names (x : string) (cur : option string) : list string :=
  let close := match cur with
               | Some n => if String.eqb n "" then [] else [n]
               | None => []
               end in
  match x with
  | EmptyString => close
  | String c x' =>
      if Ascii.eqb c "|" then close ++ pipe_names x' (Some EmptyString)
      else pipe_names x' (option_map (fun n => n ++ String c EmptyString)%string cur)
  end.

(** The function built for two or more names: each is looked up when the
    function runs. *)
Fixpoint compose (transformations : registry) (funs : list string) : transform :=
  fun val =>
    match funs with
    | [] => Return val
    | f :: funs' =>
        then_ (parseTrans transformations (Some f)) (fun t =>
        match t with
        | Some fn => then_ (fn val) (compose transformations funs')
        | None => Throw TypeError
        end)
    end.

Definition parseTransString (transformations : registry) (x : string)
    : result (option transform) :=
  match pipe_names x None with
  | [] => Return None
  | [f] => parseTrans transformations (Some f)
  | funs => Return (Some (compose transformations funs))
  end.

(** [obj.get(name)] *)
Definition get (transformations : registry) (name : option string)
    : result (option transform) :=
  match name with
  | Some (String c _ as n) =>
      if Ascii.eqb c "|" then parseTransString transformations n
      else parseTrans transformations name
  | _ => parseTrans transformations name
  end.

(** [obj.set(name, fn)]; [fn] is [None] when it is not given, or is
    [null]. *)
Definition set (transformations : registry) (name : string) (fn : option transform)
    : result registry :=
  if String.eqb (String.substring 0 1 name) "|" then
    Throw (Msg "transformation name should not start with a pipe")
  else
    match fn with
    | Some fn => Return (<[name := fn]> transformations)
    | None => Return (delete name transformations)
    end.

(** [obj.add(name, fn)] *)
Definition add (transformations : registry) (name : string) (fn : option transform)
    : result registry :=
  match transformations !! name with
  | Some _ => Throw (Msg ("transformation already exists with name: " ++ name))
  | None => set transformations name fn
  end.

End TransformationFunctions.

(** ** [LocusZoom.DataSources] *)

Module DataSources.

Section Sources.
Context {State W : Type}.

(** What [source.getData(state, fields, outnames, trans)] gives: a
    function from the chain to a promise, run in the world [W] (the
    network and the caches of the sources). *)
Definition resolver : Type := Chain -> W -> result Chain * W.

(** A source as the Requester uses it. *)
Record Source : Type := mkSource {
  getData : State -> list string -> list string -> list (option transform)
            -> result resolver
}.

(** [get(ns)] on the collection [this.sources], sources by namespace. *)
Definition get (sources : gmap string Source) (ns : string) : option Source :=
  sources !! ns.

End Sources.

Arguments resolver : clear implicits.
Arguments Source : clear implicits.

(** The collection of sources. *)
Abbreviation t State W := (gmap string (Source State W)).

End DataSources.

(** ** [LocusZoom.Data.Requester] *)

Module Requester.

(** *** The field regular expression of [split_requests]: an optional
    namespace (one or more characters other than a colon) and a colon; a
    field (characters other than colon and pipe); any number of suffixes,
    each a pipe and one or more characters; then the end of the text. *)

(** The longest prefix of characters satisfying [p], and the rest. *)
Fixpoint span (p : ascii -> bool) (s : string) : string * string :=
  match s with
  | EmptyString => (EmptyString, EmptyString)
  | String c s' =>
      if p c then let '(a, b) := span p s' in (String c a, b)
      else (EmptyString, s)
  end.

Definition is_colon (c : ascii) : bool := Ascii.eqb c ":".
Definition is_pipe (c : ascii) : bool := Ascii.eqb c "|".

(** What [.] does not match: a line terminator. *)
Definition is_line_terminator (c : ascii) : bool :=
  (nat_of_ascii c =? 10) || (nat_of_ascii c =? 13).

Fixpoint all_chars (p : ascii -> bool) (s : string) : bool :=
  match s with
  | EmptyString => true
  | String c s' => p c && all_chars p s'
  end.

(** The suffixes against the whole of [t]: nothing, or a pipe and at
    least one more character, none a line terminator. *)
Definition trans_suffix (t : string) : bool :=
  match t with
  | EmptyString => true
  | String c t' =>
      is_pipe c && negb (String.eqb t' "")
      && all_chars (fun c => negb (is_line_terminator c)) t'
  end.

(** The field and the suffixes against [s]: groups 2 and 3. *)
Definition field_and_trans (s : string) : option (string * option string) :=
  let '(field, t) := span (fun c => negb (is_colon c || is_pipe c)) s in
  if trans_suffix t
  then Some (field, if String.eqb t "" then None else Some t)
  else None.

(** [re.exec(raw)]: groups 1, 2 and 3, or [None] for [null].  The
    namespace group is tried first; when the rest fails after it, the
    expression is tried without it. *)
Definition re_exec (raw : string) : option (option string * string * option string) :=
  let without_ns :=
    match field_and_trans raw with
    | Some (field, t) => Some (None, field, t)
    | None => None
    end in
  let '(ns, rest) := span (fun c => negb (is_colon c)) raw in
  match rest with
  | String _ rest' =>
      if String.eqb ns "" then without_ns
      else match field_and_trans rest' with
           | Some (field, t) => Some (Some ns, field, t)
           | None => without_ns
           end
  | EmptyString => without_ns
  end.

(** One entry of [requests]. *)
Record Request : Type := mkRequest {
  outnames : list string;
  fields : list string;
  trans : list (option transform)
}.

Definition requests_t : Type := list (string * Request).

(** The body of the [forEach] of [split_requests]. *)
Definition split_one (transformations : TransformationFunctions.registry)
    (requests : requests_t) (raw : string) : result requests_t :=
  match re_exec raw with
  | None => Throw TypeError
  | Some (parts1, field, parts3) =>
      let ns := default "base"%string parts1 in
      then_ (TransformationFunctions.get transformations parts3) (fun t =>
      let requests :=
        match assoc_get requests ns with
        | None => assoc_set requests ns (mkRequest [] [] [])
        | Some _ => requests
        end in
      let r := default (mkRequest [] [] []) (assoc_get requests ns) in
      Return (assoc_set requests ns
                (mkRequest (outnames r ++ [raw]) (fields r ++ [field]) (trans r ++ [t]))))
  end.

Fixpoint split_loop (transformations : TransformationFunctions.registry)
    (requests : requests_t) (fields : list string) : result requests_t :=
  match fields with
  | [] => Return requests
  | raw :: fields' =>
      then_ (split_one transformations requests raw) (fun requests =>
      split_loop transformations requests fields')
  end.

Definition split_requests (transformations : TransformationFunctions.registry)
    (fields : list string) : result requests_t :=
  split_loop transformations [] fields.

Section GetData.
Context {State W : Type}.

(** The [map] over [Object.keys(requests)]. *)
Fixpoint promises_of (sources : DataSources.t State W) (state : State)
    (requests : requests_t) : result (list (DataSources.resolver W)) :=
  match requests with
  | [] => Return []
  | (key, r) :: rest =>
      match DataSources.get sources key with
      | None => Throw (Msg ("Datasource for namespace " ++ key ++ " not found"))
      | Some src =>
          then_ (DataSources.getData src state (fields r) (outnames r) (trans r)) (fun p =>
          then_ (promises_of sources state rest) (fun ps =>
          Return (p :: ps)))
      end
  end.

(** [ret = ret.then(promises[i])] for each [i]: [ret] is the promise so
    far, settled in the world [w]. *)
Fixpoint chain_promises (promises : list (DataSources.resolver W)) (ret : result Chain) (w : W)
    : result Chain * W :=
  match promises with
  | [] => (ret, w)
  | p :: rest =>
      match ret with
      | Return chain => let '(ret', w') := p chain w in chain_promises rest ret' w'
      | Throw e => chain_promises rest (Throw e) w
      end
  end.

Definition getData (transformations : TransformationFunctions.registry)
    (sources : DataSources.t State W) (state : State) (fields : list string) (w : W)
    : result Chain * W :=
  match split_requests transformations fields with
  | Throw e => (Throw e, w)
  | Return requests =>
      match promises_of sources state requests with
      | Throw e => (Throw e, w)
      | Return promises => chain_promises promises (Return empty_chain) w
      end
  end.

End GetData.

End Requester.

(** ** [LocusZoom.DataLayer]: the axis extent *)

Module DataLayer.

(** The directives of [layout.x_axis] and [layout.y_axis] the extent and
    the drag commit read or write; [None] is a property that is not set.
    [floor], [ceiling], the buffers and the entries of [min_extent] are
    numbers when they are set. *)
Record AxisLayout : Type := mkAxisLayout {
  field : option string;
  axis : option jsnum;
  floor : option jsnum;
  ceiling : option jsnum;
  lower_buffer : option jsnum;
  upper_buffer : option jsnum;
  min_extent : option (list jsnum);
  ticks : option (list jsnum)
}.

Record DataLayer : Type := mkDataLayer {
  x_axis : AxisLayout;
  y_axis : AxisLayout;
  data : list row;
  state : ValidateState.State
}.

(** [!isNaN(v)] for a directive: it is set, and to a number. *)
Definition numeric (v : option jsnum) : bool :=
  match v with Some (Num _) => true | _ => false end.

(** [+v] *)
Definition to_num (v : option jsnum) : jsnum := default NaN v.

(** [d3.extent] (of the d3 library, version 3): the least and the
    greatest of the values that are numbers, [undefined] twice when there
    is none.  In an extent [NaN] stands for [undefined] as well. *)
Fixpoint d3_extent_rest (a c : Q) (l : list jsnum) : Q * Q :=
  match l with
  | [] => (a, c)
  | NaN :: l' => d3_extent_rest a c l'
  | Num b :: l' =>
      d3_extent_rest (if Qltb b a then b else a) (if Qltb c b then b else c) l'
  end.

Fixpoint d3_extent (l : list jsnum) : list jsnum :=
  match l with
  | [] => [NaN; NaN]
  | NaN :: l' => d3_extent l'
  | Num b :: l' => let '(a, c) := d3_extent_rest b b l' in [Num a; Num c]
  end.

(** [extent[i]] *)
Definition at_ (extent : list jsnum) (i : nat) : jsnum := default NaN (extent !! i).

(** The extent the data, the buffers and [min_extent] give, before
    [floor] and [ceiling] are applied. *)
Definition data_extent `{Engine} (a : AxisLayout) (f : string) (data : list row)
    : list jsnum :=
  let extent := d3_extent (map (fun d => ToNumber (row_get d f)) data) in
  let original_extent_span := js_sub (at_ extent 1) (at_ extent 0) in
  let extent :=
    if numeric (lower_buffer a)
    then extent ++ [js_sub (at_ extent 0)
                      (js_mul original_extent_span (to_num (lower_buffer a)))]
    else extent in
  let extent :=
    if numeric (upper_buffer a)
    then extent ++ [js_add (at_ extent 1)
                      (js_mul original_extent_span (to_num (upper_buffer a)))]
    else extent in
  let extent :=
    match min_extent a with
    | Some me =>
        if negb (isNaN (at_ me 0)) && negb (isNaN (at_ me 1))
        then extent ++ [at_ me 0; at_ me 1]
        else extent
    | None => extent
    end in
  d3_extent extent.

Definition getAxisExtent `{Engine} (this : DataLayer) (dimension : string)
    : result (list jsnum) :=
  if negb (String.eqb dimension "x" || String.eqb dimension "y") then
    Throw (Msg "Invalid dimension identifier passed to LocusZoom.DataLayer.getAxisExtent()")
  else
    let a := if String.eqb dimension "x" then x_axis this else y_axis this in
    if numeric (floor a) && numeric (ceiling a) then
      Return [to_num (floor a); to_num (ceiling a)]
    else if str_truthy (field a) && negb (bool_decide (data this = [])) then
      let extent := data_extent a (prop_name (field a)) (data this) in
      let extent := if numeric (floor a) then <[0%nat := to_num (floor a)]> extent
                    else extent in
      let extent := if numeric (ceiling a) then <[1%nat := to_num (ceiling a)]> extent
                    else extent in
      Return extent
    else if String.eqb dimension "x"
            && numeric (ValidateState.start (state this))
            && numeric (ValidateState.end_ (state this))
    then Return [to_num (ValidateState.start (state this));
                 to_num (ValidateState.end_ (state this))]
    else Return [].

End DataLayer.

(** ** [LocusZoom.Panel]: the drag gesture *)

Module Panel.

(** [this.interactions.dragging] while a drag is in progress. *)
Record Dragging : Type := mkDragging {
  method : option string;
  panel_id : string;
  start_x : jsnum;
  start_y : jsnum;
  dragged_x : jsnum;
  dragged_y : jsnum;
  on_x : bool;
  on_y1 : bool;
  on_y2 : bool
}.

(** The part of a panel [toggleDragging] reads or writes.  [dragging] is
    [None] when [interactions.dragging] is [false]; an extent is [None]
    when it is [null]; [applied] lists the calls of
    [this.parent.applyState], the latest first. *)
Record Panel : Type := mkPanel {
  id : string;
  data_layer_ids_by_z_index : list string;
  data_layers : gmap string DataLayer.DataLayer;
  dragging : option Dragging;
  zooming : bool;
  loading_data : bool;
  x_extent : option (list jsnum);
  y1_extent : option (list jsnum);
  y2_extent : option (list jsnum);
  applied : list (option jsnum * option jsnum);
  cursor : option string
}.

Definition canInteract (this : Panel) : bool :=
  negb (bool_decide (is_Some (dragging this)) || zooming this || loading_data this).

Inductive axis_name : Type := AxisX | AxisY.

Definition axis_layout (a : axis_name) (l : DataLayer.DataLayer) : DataLayer.AxisLayout :=
  match a with AxisX => DataLayer.x_axis l | AxisY => DataLayer.y_axis l end.

Definition set_axis_layout (a : axis_name) (l : DataLayer.DataLayer)
    (al : DataLayer.AxisLayout) : DataLayer.DataLayer :=
  match a with
  | AxisX => DataLayer.mkDataLayer al (DataLayer.y_axis l) (DataLayer.data l) (DataLayer.state l)
  | AxisY => DataLayer.mkDataLayer (DataLayer.x_axis l) al (DataLayer.data l) (DataLayer.state l)
  end.

(** The assignments and [delete]s on one axis layout. *)
Definition conform (al : DataLayer.AxisLayout) (extent : list jsnum) : DataLayer.AxisLayout :=
  DataLayer.mkAxisLayout (DataLayer.field al) (DataLayer.axis al)
    (extent !! 0%nat) (extent !! 1%nat) None None None None.

(** [layout[axis + "_axis"].axis == axis_number] *)
Definition bound_to (al : DataLayer.AxisLayout) (axis_number : jsnum) : bool :=
  match DataLayer.axis al with
  | Some n => num_eq n axis_number
  | None => false
  end.

(** The body of the [forEach] of [overrideAxisLayout]. *)
Definition override_one (a : axis_name) (axis_number : jsnum) (extent : option (list jsnum))
    (layers : gmap string DataLayer.DataLayer) (lid : string)
    : result (gmap string DataLayer.DataLayer) :=
  match layers !! lid with
  | None => Throw TypeError
  | Some l =>
      if bound_to (axis_layout a l) axis_number then
        match extent with
        | None => Throw TypeError
        | Some extent =>
            Return (<[lid := set_axis_layout a l (conform (axis_layout a l) extent)]> layers)
        end
      else Return layers
  end.

Fixpoint overrideAxisLayout (a : axis_name) (axis_number : jsnum)
    (extent : option (list jsnum)) (ids : list string)
    (layers : gmap string DataLayer.DataLayer) : result (gmap string DataLayer.DataLayer) :=
  match ids with
  | [] => Return layers
  | lid :: ids' =>
      then_ (override_one a axis_number extent layers lid)
            (overrideAxisLayout a axis_number extent ids')
  end.

(** [x != 0] *)
Definition nonzero (x : jsnum) : bool :=
  match x with NaN => true | Num q => negb (Qeq_bool q 0) end.

Definition with_layers (this : Panel) (layers : gmap string DataLayer.DataLayer) : Panel :=
  mkPanel (id this) (data_layer_ids_by_z_index this) layers (dragging this)
    (zooming this) (loading_data this) (x_extent this) (y1_extent this) (y2_extent this)
    (applied this) (cursor this).

(** The end of [toggleDragging] when a drag stops: [dragging = false]
    and the cursor style removed. *)
Definition released (this : Panel) : Panel :=
  mkPanel (id this) (data_layer_ids_by_z_index this) (data_layers this) None
    (zooming this) (loading_data this) (x_extent this) (y1_extent this) (y2_extent this)
    (applied this) None.

Definition applyState (this : Panel) (start_ end_ : option jsnum) : Panel :=
  mkPanel (id this) (data_layer_ids_by_z_index this) (data_layers this) (dragging this)
    (zooming this) (loading_data this) (x_extent this) (y1_extent this) (y2_extent this)
    ((start_, end_) :: applied this) (cursor this).

(** The [switch] on the method of the drag that stops. *)
Definition commit (this : Panel) (d : Dragging) : result Panel :=
  match method d with
  | Some m =>
      if String.eqb m "background" || String.eqb m "x_tick" then
        if nonzero (dragged_x d) then
          then_ (overrideAxisLayout AxisX (Num 1) (x_extent this)
                   (data_layer_ids_by_z_index this) (data_layers this)) (fun layers =>
          match x_extent this with
          | None => Throw TypeError
          | Some e => Return (applyState (with_layers this layers) (e !! 0%nat) (e !! 1%nat))
          end)
        else Return this
      else if String.eqb m "y1_tick" || String.eqb m "y2_tick" then
        if nonzero (dragged_y d) then
          let y_axis_number := if String.eqb m "y1_tick" then Num 1 else Num 2 in
          let extent := if String.eqb m "y1_tick" then y1_extent this else y2_extent this in
          then_ (overrideAxisLayout AxisY y_axis_number extent
                   (data_layer_ids_by_z_index this) (data_layers this)) (fun layers =>
          Return (with_layers this layers))
        else Return this
      else Return this
  | None => Return this
  end.

(** [toggleDragging(method)]; [coords] is what [d3.mouse] reports. *)
Definition toggleDragging (this : Panel) (method_ : option string) (coords : jsnum * jsnum)
    : result Panel :=
  let method_ := if str_truthy method_ then method_ else None in
  match dragging this with
  | Some d => then_ (commit this d) (fun this => Return (released this))
  | None =>
      if canInteract this then
        let method_is m :=
          match method_ with Some s => String.eqb s m | None => false end in
        Return (mkPanel (id this) (data_layer_ids_by_z_index this) (data_layers this)
                  (Some (mkDragging method_ (id this) (fst coords) (snd coords)
                           (Num 0) (Num 0)
                           (method_is "background" || method_is "x_tick")%string
                           (method_is "y1_tick"%string) (method_is "y2_tick"%string)))
                  (zooming this) (loading_data this) (x_extent this) (y1_extent this)
                  (y2_extent this) (applied this) (Some "all-scroll"%string))
      else Return this
  end.

End Panel.

(** ** [LocusZoom.Plot]: proportional heights *)

Module Plot.

(** The operations the layout pass uses on numbers. *)
Class Number (N : Type) : Type := {
  zero : N;
  one : N;
  add : N -> N -> N;
  mul : N -> N -> N;
  div : N -> N -> N;
  of_nat : nat -> N;
  (** [!x]: [x] is 0 or [NaN] *)
  falsy : N -> bool
}.


(** IEEE 754 binary64, the numbers of JavaScript. *)
#[global] Instance float_Number : Number float := {
  zero := PrimFloat.zero;
  one := PrimFloat.one;
  add := PrimFloat.add;
  mul := PrimFloat.mul;
  div := PrimFloat.div;
  of_nat := fun n => PrimFloat.of_uint63 (Uint63.of_Z (Z.of_nat n));
  falsy := fun x => PrimFloat.eqb x PrimFloat.zero || PrimFloat.is_nan x
}.

Section Layout.
Context {N : Type} `{Number N}.

(** The layout values of a panel the pass reads or writes; [None] is
    [null]. *)
Record PanelLayout : Type := mkPanelLayout {
  height : N;
  proportional_height : option N;
  proportional_width : option N
}.

(** [this.panels], in the order [for in] visits it, and the height of
    the plot layout. *)
Record Plot : Type := mkPlot {
  layout_height : N;
  panels : list (string * PanelLayout)
}.

Inductive dimension : Type := Height | Width.









End Layout.

Arguments PanelLayout N : clear implicits.
Arguments Plot N : clear implicits.

End Plot.

(** ** [LocusZoom.Layouts]: merging two layouts *)

Module Layouts.

(** A value in a layout: what a layout written as a literal holds, and
    functions, which [merge] refuses.  An object is its properties in
    insertion order, each key once; a property whose value is
    [undefined] is a property that is not there. *)
#[warnings="-register-all"] Inductive layout : Type :=
| LNull
| LBool (b : bool)
| LNumber (n : jsnum)
| LString (s : string)
| LArray (items : list layout)
| LObject (props : list (string * layout))
| LFunction.

(** [JSON.stringify(v)] read back by [JSON.parse]; [None] is the
    [undefined] that [stringify] gives for a function.  A number that is
    not finite is written as [null]; in an array a function is written
    as [null], in an object its property is left out. *)
Fixpoint copy (v : layout) : option layout :=
  match v with
  | LFunction => None
  | LNumber NaN => Some LNull
  | LArray items => Some (LArray (map (fun i => default LNull (copy i)) items))
  | LObject props =>
      Some (LObject (omap (fun kv => match copy (snd kv) with
                                     | Some c => Some (fst kv, c)
                                     | None => None
                                     end) props))
  | _ => Some v
  end.

(** The types [merge] tells apart. *)
Inductive type : Type :=
| TUndefined
| TFunction
| TArray
| TObject
| TScalar.

(** [custom_layout[property] == null ? "undefined" : typeof
    custom_layout[property]], with arrays apart. *)
Definition custom_type (v : option layout) : type :=
  match v with
  | None | Some LNull => TUndefined
  | Some LFunction => TFunction
  | Some (LArray _) => TArray
  | Some (LObject _) => TObject
  | Some _ => TScalar
  end.

(** [typeof default_layout[property]], with arrays apart: [null] is an
    object. *)
Definition default_type (v : layout) : type :=
  match v with
  | LFunction => TFunction
  | LArray _ => TArray
  | LObject _ | LNull => TObject
  | _ => TScalar
  end.

Definition is_function (t : type) : bool :=
  match t with TFunction => true | _ => false end.

(** [merge(custom_layout, default_layout)] for a custom layout that is
    an object and a default that is an object or, in a recursive call,
    [null], which has no property to visit.  The result is the custom
    layout as the call leaves it. *)
Fixpoint merge_into (custom_layout : list (string * layout)) (default_layout : layout)
    {struct default_layout} : result (list (string * layout)) :=
  match default_layout with
  | LObject props =>
      (fix each (custom_layout : list (string * layout)) (props : list (string * layout))
           {struct props} : result (list (string * layout)) :=
         match props with
         | [] => Return custom_layout
         | (property, dv) :: props' =>
             let cv := assoc_get custom_layout property in
             if is_function (custom_type cv) || is_function (default_type dv) then
               Throw (Msg "LocusZoom.Layouts.merge encountered an unsupported property type")
             else
               match custom_type cv, cv, default_type dv with
               | TUndefined, _, _ =>
                   each (assoc_set custom_layout property (default LNull (copy dv))) props'
               | TObject, Some (LObject cprops), TObject =>
                   then_ (merge_into cprops dv) (fun merged =>
                   each (assoc_set custom_layout property (LObject merged)) props')
               | _, _, _ => each custom_layout props'
               end
         end) custom_layout props
  | _ => Return custom_layout
  end.

Definition merge (custom_layout default_layout : list (string * layout))
    : result (list (string * layout)) :=
  merge_into custom_layout (LObject default_layout).

End Layouts.

(** ** [LocusZoom.ScaleFunctions] and the scalable parameters of a data
    layer *)

Module ScaleFunctions.

(** [arr.indexOf(x)] with the equality [eqb]; [None] is -1. *)
Fixpoint indexOf {A : Type} (eqb : A -> A -> bool) (arr : list A) (x : A) : option nat :=
  match arr with
  | [] => None
  | y :: arr' => if eqb y x then Some 0%nat else S <$> indexOf eqb arr' x
  end.

(** The [parameters] object of a scale function: the properties the
    three functions of the library read.  A value that is not set is
    [undefined]; an array that is not set is [None]. *)
Record Parameters : Type := mkParameters {
  field_value : value;
  then_value : value;
  else_value : value;
  breaks : option (list jsnum);
  values : option (list value);
  null_value : value;
  categories : option (list value)
}.

(** [{}] *)
Definition no_parameters : Parameters :=
  mkParameters VUndefined VUndefined VUndefined None None VUndefined None.

Definition scale_function : Type := Parameters -> value -> result value.

Definition is_undefined (v : value) : bool :=
  match v with VUndefined => true | _ => false end.

(** [v == null] *)
Definition nullish (v : value) : bool :=
  match v with VUndefined | VNull => true | _ => false end.

(** [x >= y] on numbers *)
Definition js_ge (x y : jsnum) : bool :=
  match x, y with
  | Num a, Num b => Qle_bool b a
  | _, _ => false
  end.

Section Functions.
Context `{Engine}.

(** The scale function [if]. *)
Definition if_ : scale_function := fun parameters value =>
  if is_undefined value || negb (js_loose_eq (field_value parameters) value) then
    if negb (is_undefined (else_value parameters))
    then Return (else_value parameters)
    else Return VNull
  else Return (then_value parameters).

(** [parameters.null_value ? parameters.null_value : null] *)
Definition null_result (parameters : Parameters) : value :=
  if value_truthy (null_value parameters) then null_value parameters else VNull.

(** The scale function [numerical_bin]; [reduce] without an initial
    value throws on an empty array. *)
Definition numerical_bin : scale_function := fun parameters value =>
  if is_undefined value || nullish value || isNaN (ToNumber value) then
    Return (null_result parameters)
  else
    match breaks parameters with
    | None | Some [] => Throw TypeError
    | Some (first :: rest) =>
        let threshold :=
          fold_left (fun prev curr =>
                       if js_lt (ToNumber value) prev
                          || (js_ge (ToNumber value) prev && js_lt (ToNumber value) curr)
                       then prev else curr)
                    rest first in
        match values parameters with
        | None => Throw TypeError
        | Some values =>
            match indexOf num_eq (first :: rest) threshold with
            | Some i => Return (default VUndefined (values !! i))
            | None => Return VUndefined
            end
        end
    end.

(** The scale function [categorical_bin]. *)
Definition categorical_bin : scale_function := fun parameters value =>
  if is_undefined value then Return (null_result parameters)
  else
    match categories parameters with
    | None => Throw TypeError
    | Some categories =>
        match indexOf js_strict_eq categories value with
        | None => Return (null_result parameters)
        | Some i =>
            match values parameters with
            | None => Throw TypeError
            | Some values => Return (default VUndefined (values !! i))
            end
        end
    end.

(** The registry as the library fills it. *)
Definition functions : gmap string scale_function :=
  <["categorical_bin"%string := categorical_bin]>
    (<["numerical_bin"%string := numerical_bin]> (<["if"%string := if_]> ∅)).

End Functions.

(** [get(name, parameters, value)] as [resolveScalableParameter] calls
    it, with [parameters] given: the branch that returns the function
    itself, taken when neither [parameters] nor [value] is given, is not
    part of the model. *)
Definition get (functions : gmap string scale_function) (name : option string)
    (parameters : Parameters) : value -> result value := fun value =>
  if negb (str_truthy name) then Return VNull
  else
    match functions !! prop_name name with
    | Some fn => fn parameters value
    | None => Throw (Msg ("scale function [" ++ prop_name name ++ "] not found"))
    end.

(** [set(name, fn)] and [add(name, fn)] *)
Definition set (functions : gmap string scale_function) (name : string)
    (fn : option scale_function) : gmap string scale_function :=
  match fn with
  | Some fn => <[name := fn]> functions
  | None => delete name functions
  end.

Definition add (functions : gmap string scale_function) (name : string)
    (fn : option scale_function) : result (gmap string scale_function) :=
  match functions !! name with
  | Some _ => Throw (Msg ("scale function already exists with name: " ++ name))
  | None => Return (set functions name fn)
  end.

End ScaleFunctions.

Module ScalableParameter.

(** The layout of a scalable parameter: a number, a text, an object
    that names a scale function and a field, an array of such layouts,
    [null], or anything else (a boolean, [undefined]). *)
#[warnings="-register-all"] Inductive scalable : Type :=
| SNumber (n : jsnum)
| SString (s : string)
| SObject (scale_function field : option string)
          (parameters : option ScaleFunctions.Parameters)
| SArray (items : list scalable)
| SNull
| SOther.

(** [DataLayer.prototype.resolveScalableParameter(layout, data)] *)
Fixpoint resolveScalableParameter
    (functions : gmap string ScaleFunctions.scale_function)
    (layout : scalable) (data : row) {struct layout} : result value :=
  match layout with
  | SArray items =>
      (fix while (ret : value) (items : list scalable) {struct items} : result value :=
         match items with
         | [] => Return ret
         | item :: items' =>
             if ScaleFunctions.nullish ret
             then then_ (resolveScalableParameter functions item data)
                        (fun ret => while ret items')
             else Return ret
         end) VNull items
  | SNumber n => Return (VNumber n)
  | SString s => Return (VString s)
  | SObject scale_function field parameters =>
      if str_truthy scale_function && str_truthy field
      then ScaleFunctions.get functions scale_function
             (default ScaleFunctions.no_parameters parameters)
             (row_get data (prop_name field))
      else Return VNull
  | SNull => Throw TypeError
  | SOther => Return VNull
  end.

End ScalableParameter.

(** ** [LocusZoom.Data.AssociationSource] *)

Module AssociationSource.

(** [preGetData(state, fields, outnames, trans)]: the three arrays as
    the call leaves them.  [id_field] is [this.params.id_field]. *)
Definition preGetData (id_field : option string) (fields outnames : list string)
    (trans : list (option transform))
    : list string * list string * list (option transform) :=
  let id_field := prop_name (str_or id_field (Some "id"%string)) in
  fold_left
    (fun '(fields, outnames, trans) x =>
       if bool_decide (x ∈ fields) then (fields, outnames, trans)
       else (x :: fields, x :: outnames, None :: trans))
    [id_field; "position"%string] (fields, outnames, trans).

End AssociationSource.

(** ** The identifiers of the elements of a data layer *)

Module ElementId.

(** [s.replace(re, by)] for a global expression [re] that matches the
    single characters [p] satisfies. *)
Fixpoint replace_chars (p : ascii -> bool) (by_ : string) (s : string) : string :=
  match s with
  | EmptyString => EmptyString
  | String c s' =>
      if p c then (by_ ++ replace_chars p by_ s')%string
      else String c (replace_chars p by_ s')
  end.

(** What the expression of [getElementId] matches: a colon, a dot, a
    bracket or a comma. *)
Definition is_separator (c : ascii) : bool :=
  Ascii.eqb c ":" || Ascii.eqb c "." || Ascii.eqb c "[" || Ascii.eqb c "]"
  || Ascii.eqb c ",".

(** The element passed to [getElementId]: a text, an object, [null],
    or anything else. *)
Inductive element : Type :=
| EString (s : string)
| EObject (o : row)
| ENull
| EOther.

(** The identifiers and the layout value [getElementId] reads. *)
Record DataLayer : Type := mkDataLayer {
  parent_plot_id : string;
  parent_id : string;
  id : string;
  id_field : option string
}.

Definition getBaseId (this : DataLayer) : string :=
  (parent_plot_id this ++ "." ++ parent_id this ++ "." ++ id this)%string.

(** [getElementId(element)]: [replace] is a method of texts only. *)
Definition getElementId (this : DataLayer) (element : element) : result string :=
  then_ (match element with
         | EString s => Return s
         | EObject o =>
             let id_field := prop_name (str_or (id_field this) (Some "id"%string)) in
             match row_get o id_field with
             | VUndefined => Throw (Msg "Unable to generate element ID")
             | VString s =>
                 Return (replace_chars (fun c => negb (LDSource.is_word_char c)) "" s)
             | _ => Throw TypeError
             end
         | ENull => Throw TypeError
         | EOther => Return "element"%string
         end) (fun element_id =>
  Return (replace_chars is_separator "_" (getBaseId this ++ "-" ++ element_id)%string)).

End ElementId.

(** ** The vertical order of the panels of a plot *)

Module PanelOrder.

(** An array of panel ids; [None] is an index that holds nothing. *)
Abbreviation array := (list (option string)).

(** [arr[i]]: [undefined] outside the array. *)
Definition array_get (arr : array) (i : Z) : option string :=
  if (i <? 0)%Z then None else mjoin (arr !! Z.to_nat i).

(** [arr[i] = v]: past the end the array grows, and the indexes in
    between hold nothing; a negative [i] names a property that is not an
    element of the array. *)
Definition array_set (arr : array) (i : Z) (v : string) : array :=
  if (i <? 0)%Z then arr
  else
    let n := Z.to_nat i in
    if (n <? length arr)%nat then <[n := Some v]> arr
    else arr ++ replicate (n - length arr) None ++ [Some v].

(** [arr.indexOf(v)]; [None] is -1. *)
Fixpoint indexOf (arr : array) (v : string) : option nat :=
  match arr with
  | [] => None
  | x :: arr' =>
      if bool_decide (x = Some v) then Some 0%nat else S <$> indexOf arr' v
  end.

(** The part of a plot the order of its panels lives in: for each panel
    its [layout.y_index] ([None] is [null]), and the array
    [panel_ids_by_y_index]. *)
Record Plot : Type := mkPlot {
  panels : gmap string (option Z);
  panel_ids_by_y_index : array
}.

(** The [forEach] of [applyPanelYIndexesToPanelLayouts], from the index
    [idx] on. *)
Fixpoint apply_from (ids : array) (idx : nat) (panels : gmap string (option Z))
    : result (gmap string (option Z)) :=
  match ids with
  | [] => Return panels
  | None :: ids' => apply_from ids' (S idx) panels
  | Some pid :: ids' =>
      match panels !! pid with
      | None => Throw TypeError
      | Some _ => apply_from ids' (S idx) (<[pid := Some (Z.of_nat idx)]> panels)
      end
  end.

Definition applyPanelYIndexesToPanelLayouts (this : Plot) : result Plot :=
  then_ (apply_from (panel_ids_by_y_index this) 0 (panels this)) (fun panels =>
  Return (mkPlot panels (panel_ids_by_y_index this))).

(** [arr[y_index] = v]: [null] names a property that is not an element
    of the array. *)
Definition set_at (arr : array) (y_index : option Z) (v : string) : array :=
  match y_index with
  | Some y => array_set arr y v
  | None => arr
  end.

(** [Panel.prototype.moveUp], for the panel with the id [id] and the
    [layout.y_index] [y_index], in the plot [parent]; in arithmetic [null]
    is 0.  (The layout pass the move ends with, [positionPanels], does not
    read or write the order.) *)
Definition moveUp (parent : Plot) (id : string) (y_index : option Z) : result Plot :=
  let y := default 0%Z y_index in
  if str_truthy (array_get (panel_ids_by_y_index parent) (y - 1)) then
    let above := prop_name (array_get (panel_ids_by_y_index parent) (y - 1)) in
    let arr := set_at (panel_ids_by_y_index parent) y_index above in
    let arr := array_set arr (y - 1) id in
    applyPanelYIndexesToPanelLayouts (mkPlot (panels parent) arr)
  else Return parent.

(** [Panel.prototype.moveDown] *)
Definition moveDown (parent : Plot) (id : string) (y_index : option Z) : result Plot :=
  let y := default 0%Z y_index in
  if str_truthy (array_get (panel_ids_by_y_index parent) (y + 1)) then
    let below := prop_name (array_get (panel_ids_by_y_index parent) (y + 1)) in
    let arr := set_at (panel_ids_by_y_index parent) y_index below in
    let arr := array_set arr (y + 1) id in
    applyPanelYIndexesToPanelLayouts (mkPlot (panels parent) arr)
  else Return parent.


(** [Plot.prototype.removePanel(id)], as far as the order goes:
    [splice(-1, 1)] removes the last element. *)
Definition removePanel (this : Plot) (id : string) : result Plot :=
  match panels this !! id with
  | None => Throw (Msg ("Unable to remove panel, ID not found: " ++ id))
  | Some _ =>
      let ids := panel_ids_by_y_index this in
      Return (mkPlot (delete id (panels this))
                     (match indexOf ids id with
                      | Some i => delete i ids
                      | None => removelast ids
                      end))
  end.

End PanelOrder.

(** ** [LocusZoom.Data.GeneConstraintSource] *)

Module GeneConstraintSource.

(** [s.indexOf(c)] for a text [c] of one character; [None] is -1. *)
Fixpoint indexOf (s : string) (c : ascii) : option nat :=
  match s with
  | EmptyString => None
  | String d s' => if Ascii.eqb d c then Some 0%nat else S <$> indexOf s' c
  end.

(** The id under which a gene is asked for and looked up:
    [if (gene_id.indexOf(".")) gene_id = gene_id.substr(0,
    gene_id.indexOf("."))].  An index of 0 is falsy; -1 is truthy, and
    [substr] with a negative length gives the empty text. *)
Definition trimmed (gene_id : string) : string :=
  match indexOf gene_id "." with
  | Some O => gene_id
  | Some n => String.substring 0 n gene_id
  | None => ""%string
  end.

(** [gene.gene_id], then the trimming: [indexOf] is a method of texts
    only. *)
Definition gene_id_of (gene : row) : result string :=
  match row_get gene "gene_id" with
  | VString gene_id => Return (trimmed gene_id)
  | _ => Throw TypeError
  end.

(** The ids [fetchRequest] sends. *)
Fixpoint geneids (genes : list row) : result (list string) :=
  match genes with
  | [] => Return []
  | gene :: genes' =>
      then_ (gene_id_of gene) (fun gene_id =>
      then_ (geneids genes') (fun ids => Return (gene_id :: ids)))
  end.

Definition constraint_fields : list string :=
  ["bp"; "exp_lof"; "exp_mis"; "exp_syn"; "lof_z"; "mis_z"; "mu_lof"; "mu_mis"; "mu_syn";
   "n_exons"; "n_lof"; "n_mis"; "n_syn"; "pLI"; "syn_z"]%string.

Section Parse.
(** What the parse takes from the engine: whether the text of a number
    has a decimal point, and the number its text with two decimals
    denotes, [parseFloat(val.toFixed(2))]. *)
Context (has_point : jsnum -> bool) (toFixed2 : jsnum -> jsnum).

Definition rounded (val : value) : value :=
  match val with
  | VNumber n => if has_point n then VNumber (toFixed2 n) else val
  | _ => val
  end.

(** The body of the inner [forEach], for one gene and one field;
    [entry] is [data[gene_id]]. *)
Definition fill (entry : option row) (gene : row) (field : string) : row :=
  match row_get gene field with
  | VUndefined =>
      match entry with
      | Some e => row_set gene field (rounded (row_get e field))
      | None => row_set gene field VNull
      end
  | _ => gene
  end.

(** The loop over the genes of the body. *)
Fixpoint fill_genes (data : list (string * row)) (genes : list row) : result (list row) :=
  match genes with
  | [] => Return []
  | gene :: genes' =>
      then_ (gene_id_of gene) (fun gene_id =>
      let gene := fold_left (fill (assoc_get data gene_id)) constraint_fields gene in
      then_ (fill_genes data genes') (fun genes' => Return (gene :: genes')))
  end.

(** [parseResponse(resp, chain, fields, outnames)]; [data] is the
    parsed response.  [forEach] is a method of arrays only. *)
Definition parseResponse (data : list (string * row)) (chain : Chain) : result Chain :=
  match body chain with
  | BodyRows genes =>
      then_ (fill_genes data genes) (fun genes =>
      Return (mkChain (header chain) (BodyRows genes)))
  | BodyObject => Throw TypeError
  end.

End Parse.

End GeneConstraintSource.

(** ** Positions and region queries *)

Module Position.

Local Open Scope string_scope.

(** [toUpperCase] on a text of ASCII characters. *)
Definition upper (c : ascii) : ascii :=
  let n := nat_of_ascii c in
  if (97 <=? n)%nat && (n <=? 122)%nat then ascii_of_nat (n - 32) else c.

Fixpoint toUpperCase (s : string) : string :=
  match s with
  | EmptyString => EmptyString
  | String c s' => String (upper c) (toUpperCase s')
  end.

Definition is_comma (c : ascii) : bool := Ascii.eqb c ",".
Definition is_KMG (c : ascii) : bool := Ascii.eqb c "K" || Ascii.eqb c "M" || Ascii.eqb c "G".
Definition is_B (c : ascii) : bool := Ascii.eqb c "B".

(** The suffix expression of [positionStringToInt] (one of [K], [M],
    [G], then any number of [B], then the end of the text) on [val]: the
    text before the match and the letter matched, [None] when there is no
    match.  The match is the leftmost one. *)
Fixpoint suffix_exec (val : string) : option (string * ascii) :=
  match val with
  | EmptyString => None
  | String c val' =>
      if is_KMG c && Requester.all_chars is_B val' then Some (EmptyString, c)
      else match suffix_exec val' with
           | Some (before, letter) => Some (String c before, letter)
           | None => None
           end
  end.

(** [LocusZoom.positionStringToInt(p)].  The product is the exact one, as
    everywhere over [jsnum]; it is the one of the doubles when the number
    read is an integer and the product stays below 2^53. *)
Definition positionStringToInt `{Engine} (p : string) : jsnum :=
  let val := toUpperCase p in
  let val := ElementId.replace_chars is_comma "" val in
  match suffix_exec val with
  | Some (before, letter) =>
      let mult := if Ascii.eqb letter "M" then 1000000%Q
                  else if Ascii.eqb letter "G" then 1000000000%Q
                  else 1000%Q in
      js_mul (StringToNumber before) (Num mult)
  | None => js_mul (StringToNumber val) (Num 1)
  end.

(** The character classes of the query expressions: a digit, a comma
    or a dot; and one of the letters [k], [m], [g], [b], in either case. *)
Definition is_number_char (c : ascii) : bool :=
  let n := nat_of_ascii c in
  ((48 <=? n)%nat && (n <=? 57)%nat) || Ascii.eqb c "," || Ascii.eqb c ".".

Definition is_unit_char (c : ascii) : bool :=
  is_KMG (upper c) || is_B (upper c).

(** One position of a query at the head of [s]: one or more number
    characters, then any number of unit characters; the text matched and
    what follows it.  Neither class holds a character of the other, nor the
    character that must follow, so the greedy match is the only one. *)
Definition position_token (s : string) : option (string * string) :=
  let '(digits, rest) := Requester.span is_number_char s in
  if String.eqb digits "" then None
  else let '(units, rest) := Requester.span is_unit_char rest in
       Some (digits ++ units, rest).

(** What [parsePositionQuery] returns: a region, or one position. *)
Inductive query : Type :=
| Region (chr : string) (start end_ : jsnum)
| Point (chr : string) (position : jsnum).

(** The two expressions share their head: word characters, then a
    colon, then a position. *)
Definition query_head (x : string) : option (string * string * string) :=
  let '(chr, rest) := Requester.span LDSource.is_word_char x in
  if String.eqb chr "" then None
  else match rest with
       | String ":" rest =>
           match position_token rest with
           | Some (pos, rest) => Some (chr, pos, rest)
           | None => None
           end
       | _ => None
       end.

(** [LocusZoom.parsePositionQuery(x)]; [None] is [null]. *)
Definition parsePositionQuery `{Engine} (x : string) : option query :=
  match query_head x with
  | Some (chr, first, rest) =>
      match rest with
      | EmptyString => Some (Point chr (positionStringToInt first))
      | String sign rest =>
          if Ascii.eqb sign "-" || Ascii.eqb sign "+" then
            match position_token rest with
            | Some (second, EmptyString) =>
                if Ascii.eqb sign "+" then
                  let center := positionStringToInt first in
                  let offset := positionStringToInt second in
                  Some (Region chr (js_sub center offset) (js_add center offset))
                else
                  Some (Region chr (positionStringToInt first) (positionStringToInt second))
            | _ => None
            end
          else None
      end
  | None => None
  end.

End Position.

(** * Reference definitions and example inputs

    What the properties below are stated with: the notions the
    specification uses that the code does not name, and the closed inputs
    the examples are evaluated on. *)

(** An engine for closed examples: it reads no text as a number. *)
Definition plain_engine : Engine :=
  {| StringToNumber := fun _ => NaN; sci_text := fun _ => ""%string |}.

(** ** The state validator *)


(** ** Sources and their cache *)

(** A source whose key is the chromosome asked for, and a network that
    answers each request with the number of requests it has seen. *)
Definition chr_methods : Source.Methods string nat nat :=
  Source.mkMethods (fun state _ _ => Return (Some state))
                   (fun _ _ _ n => (Return n, S n)).

(** A source without [getURL]: its key is [undefined]. *)
Definition keyless_methods : Source.Methods string nat nat :=
  Source.mkMethods (fun _ _ _ => Return None) (fun _ _ _ n => (Return n, S n)).

(** A source whose network answers every request with the
    array-of-objects response [[{id: 1}]], and the default [parseResponse]
    on what a request resolves to: reading [data] of [undefined] (the
    response of an empty slot) is a [TypeError]. *)
Definition id_only_methods : Source.Methods string Source.payload unit :=
  Source.mkMethods (fun state _ _ => Return (Some state))
    (fun _ _ _ w =>
       (Return (Source.ArrayOfObjects [[("id"%string, VNumber (Num 1))]]), w)).

Definition default_parse (resp : option Source.payload) (chain : Chain)
    (fields outnames : list string) (trans : list (option transform)) : result Chain :=
  match resp with
  | Some resp => Source.parseResponse resp chain fields outnames trans
  | None => Throw TypeError
  end.


(** ** Parsing *)

(** [typeof val != "undefined"] *)
Definition defined (v : value) : bool :=
  match v with VUndefined => false | _ => true end.

(** The marks one row leaves in [fieldFound], and all the rows. *)
Fixpoint row_marks (xi : row) (fields : list string) (j : nat) (fieldFound : list bool)
    : list bool :=
  match fields with
  | [] => fieldFound
  | f :: fields' =>
      row_marks xi fields' (S j) (Source.mark_found fieldFound j (row_get xi f))
  end.

Definition rows_marks (x : list row) (fields : list string) (fieldFound : list bool)
    : list bool :=
  fold_left (fun ff xi => row_marks xi fields 0 ff) x fieldFound.


(** ** The merge join *)








(** ** Transformation functions *)

(** The text [|n1|n2|...] that names the transformations [names], and
    the function that applies the functions [fs] one after the other. *)
Definition pipe_join (names : list string) : string :=
  String.concat "" (map (fun n => "|" ++ n)%string names).

Fixpoint apply_all (fs : list transform) (v : value) : result value :=
  match fs with
  | [] => Return v
  | f :: fs' => then_ (f v) (apply_all fs')
  end.

(** A name a transformation can be registered and asked for by: not
    empty and without a pipe. *)
Definition plain_name (n : string) : Prop :=
  n <> ""%string /\ Requester.all_chars (fun c => negb (Requester.is_pipe c)) n = true.

(** A registry of two functions: [scinotation], and [identity], which
    returns its argument. *)
Definition example_registry : TransformationFunctions.registry :=
  <["scinotation"%string := @scinotation plain_engine]>
    (<["identity"%string := (fun v => Return v)]> ∅).

(** ** The Requester *)






(** The world with a log: one entry, the namespace and the chain
    received, each time the function a source returned is run. *)
Definition logged {W : Type} (ns : string) (p : DataSources.resolver W)
    : DataSources.resolver (W * list (string * Chain)) :=
  fun chain '(w, log) => let '(r, w') := p chain w in (r, (w', log ++ [(ns, chain)])).

Definition log_source {State W : Type} (ns : string) (src : DataSources.Source State W)
    : DataSources.Source State (W * list (string * Chain)) :=
  DataSources.mkSource
    (fun state fields outnames trans =>
       then_ (DataSources.getData src state fields outnames trans)
             (fun p => Return (logged ns p))).

Definition log_sources {State W : Type} (sources : DataSources.t State W)
    : DataSources.t State (W * list (string * Chain)) :=
  map_imap (fun ns src => Some (log_source ns src)) sources.


(** The scenario of the two namespaces: a source [assoc] that puts a row
    in the chain, and a source [ld] that needs rows in the chain it
    receives. *)
Definition assoc_source : DataSources.Source unit unit :=
  DataSources.mkSource (fun _ _ _ _ =>
    Return (fun chain w =>
      (Return (mkChain (header chain)
                 (BodyRows [[("assoc:pvalue"%string, VNumber (Num (1 # 100)))]])), w))).

Definition ld_source : DataSources.Source unit unit :=
  DataSources.mkSource (fun _ _ _ _ =>
    Return (fun chain w =>
      match body chain with
      | BodyRows (_ :: _) => (Return chain, w)
      | _ => (Throw (Msg "Unable to find columns for both pvalue and id for merge: null"), w)
      end)).

Definition two_sources : DataSources.t unit unit :=
  <["assoc"%string := assoc_source]> (<["ld"%string := ld_source]> ∅).

(** ** Axis extents and drags *)

(** The axis layout [getAxisExtent] reads for a dimension. *)
Definition axis_of (this : DataLayer.DataLayer) (dimension : string)
    : DataLayer.AxisLayout :=
  if String.eqb dimension "x" then DataLayer.x_axis this else DataLayer.y_axis this.

(** A layer whose [y] values are 5 and 10, with [floor: 0] and no
    ceiling. *)
Definition floor_layer : DataLayer.DataLayer :=
  DataLayer.mkDataLayer
    (DataLayer.mkAxisLayout (Some "x"%string) (Some (Num 1)) None None None None None None)
    (DataLayer.mkAxisLayout (Some "y"%string) (Some (Num 1)) (Some (Num 0)) None
       None None None None)
    [[("x"%string, VNumber (Num 1)); ("y"%string, VNumber (Num 5))];
     [("x"%string, VNumber (Num 2)); ("y"%string, VNumber (Num 10))]]
    (ValidateState.mkState None None None).

(** A layer with positions 3 and 12 on an x axis that has buffers and a
    [min_extent], and neither [floor] nor [ceiling]. *)
Definition dragged_free_layer : DataLayer.DataLayer :=
  DataLayer.mkDataLayer
    (DataLayer.mkAxisLayout (Some "position"%string) (Some (Num 1)) None None
       (Some (Num (1 # 20))) (Some (Num (1 # 20))) (Some [Num 0; Num 10]) None)
    (DataLayer.mkAxisLayout None None None None None None None None)
    [[("position"%string, VNumber (Num 3))]; [("position"%string, VNumber (Num 12))]]
    (ValidateState.mkState None None None).

(** The axis a drag acts on: the axis layout of the data layers, the
    axis number, the extent of the panel on that axis and the net
    displacement along it. *)
Definition drag_target (this : Panel.Panel) (d : Panel.Dragging)
    : option (Panel.axis_name * jsnum * option (list jsnum) * jsnum) :=
  match Panel.method d with
  | Some m =>
      if String.eqb m "background" || String.eqb m "x_tick"
      then Some (Panel.AxisX, Num 1, Panel.x_extent this, Panel.dragged_x d)
      else if String.eqb m "y1_tick"
      then Some (Panel.AxisY, Num 1, Panel.y1_extent this, Panel.dragged_y d)
      else if String.eqb m "y2_tick"
      then Some (Panel.AxisY, Num 2, Panel.y2_extent this, Panel.dragged_y d)
      else None
  | None => None
  end.

(** A data layer after the commit of the extent [e] on axis [a]. *)
Definition conformed (a : Panel.axis_name) (n : jsnum) (e : list jsnum)
    (l : DataLayer.DataLayer) : DataLayer.DataLayer :=
  if Panel.bound_to (Panel.axis_layout a l) n
  then Panel.set_axis_layout a l (Panel.conform (Panel.axis_layout a l) e)
  else l.

(** A panel in the middle of a background drag, moved by 12 pixels, with
    one data layer bound to the first x axis. *)
Definition dragged_layer : DataLayer.DataLayer :=
  DataLayer.mkDataLayer
    (DataLayer.mkAxisLayout (Some "position"%string) (Some (Num 1)) None None
       (Some (Num (1 # 20))) (Some (Num (1 # 20))) (Some [Num 0; Num 10]) (Some [Num 5]))
    (DataLayer.mkAxisLayout (Some "pvalue"%string) (Some (Num 1)) (Some (Num 0)) None
       None (Some (Num (1 # 10))) None None)
    [] (ValidateState.mkState None None None).

Definition dragged_panel : Panel.Panel :=
  Panel.mkPanel "panel" ["layer"%string] {["layer"%string := dragged_layer]}
    (Some (Panel.mkDragging (Some "background"%string) "panel" (Num 100) (Num 50)
             (Num 12) (Num 0) true false false))
    false false (Some [Num 1000; Num 2000]) None None [] (Some "all-scroll"%string).

(** ** Proportional heights *)




(** ** Layouts *)


(** A layout in which no property of an object, at any depth of
    objects, is a function. *)
Fixpoint function_free (v : Layouts.layout) : bool :=
  match v with
  | Layouts.LFunction => false
  | Layouts.LObject props => forallb (fun kv => function_free (snd kv)) props
  | _ => true
  end.

(** Each object of the layout, at any depth of objects, has each key
    once. *)
Fixpoint distinct_keys (v : Layouts.layout) : bool :=
  match v with
  | Layouts.LObject props =>
      bool_decide (NoDup props.*1) && forallb (fun kv => distinct_keys (snd kv)) props
  | _ => true
  end.

(** A value [merge] keeps when the custom layout holds it: a boolean, a
    number, a text or an array. *)
Definition kept_value (v : Layouts.layout) : Prop :=
  match v with
  | Layouts.LBool _ | Layouts.LNumber _ | Layouts.LString _ | Layouts.LArray _ => True
  | _ => False
  end.

(** A default layout, a custom layout that overrides an array and a
    nested value of it, and the two merged. *)
Definition example_default : list (string * Layouts.layout) :=
  [("scalar_1"%string, Layouts.LNumber (Num 123));
   ("scalar_2"%string, Layouts.LString "foo");
   ("array_of_scalars"%string,
    Layouts.LArray [Layouts.LNumber (Num 4); Layouts.LNumber (Num 5); Layouts.LNumber (Num 6)]);
   ("nested_object"%string,
    Layouts.LObject
      [("property_1"%string,
        Layouts.LObject [("alpha"%string, Layouts.LNumber (Num 0));
                         ("bravo"%string, Layouts.LString "foo")]);
       ("property_2"%string, Layouts.LBool false)])].

Definition example_custom : list (string * Layouts.layout) :=
  [("array_of_scalars"%string,
    Layouts.LArray [Layouts.LNumber (Num 4); Layouts.LNumber (Num 6)]);
   ("nested_object"%string, Layouts.LObject [("property_2"%string, Layouts.LBool true)])].

Definition example_merged : list (string * Layouts.layout) :=
  [("array_of_scalars"%string,
    Layouts.LArray [Layouts.LNumber (Num 4); Layouts.LNumber (Num 6)]);
   ("nested_object"%string,
    Layouts.LObject
      [("property_2"%string, Layouts.LBool true);
       ("property_1"%string,
        Layouts.LObject [("alpha"%string, Layouts.LNumber (Num 0));
                         ("bravo"%string, Layouts.LString "foo")])]);
   ("scalar_1"%string, Layouts.LNumber (Num 123));
   ("scalar_2"%string, Layouts.LString "foo")].

(** ** The reference variant of the LD source *)

(** The number a row holds in the column [f], 0 when it holds none. *)
Definition column_value `{Engine} (f : string) (r : row) : Q :=
  match ToNumber (row_get r f) with
  | Num q => q
  | NaN => 0%Q
  end.

(** The row at index [k] is the first row of [rows] with the greatest
    value in the column [f]. *)
Definition first_greatest `{Engine} (f : string) (rows : list row) (k : nat) (r : row)
    : Prop :=
  rows !! k = Some r
  /\ forall j rj, rows !! j = Some rj ->
       (column_value f rj <= column_value f r)%Q
       /\ ((j < k)%nat -> (column_value f rj < column_value f r)%Q).

(** Three association rows with their [log_pvalue], and a state that
    names no reference variant. *)
Definition example_assoc_rows : list row :=
  [[("variant"%string, VString "1:100_A/C"); ("log_pvalue"%string, VNumber (Num 2))];
   [("variant"%string, VString "1:200_G/T"); ("log_pvalue"%string, VNumber (Num 7))];
   [("variant"%string, VString "1:300_C/T"); ("log_pvalue"%string, VNumber (Num 7))]].

Definition example_ld_state : LDSource.State :=
  LDSource.mkState VUndefined VUndefined (VString "1") (VNumber (Num 100)) (VNumber (Num 300)).

(** ** The two shapes of a response *)

(** The row at index [i] of a table given by its columns, and its
    first [n] rows from the index [i] on: the array of objects that holds
    what the object of arrays [cols] holds. *)
Definition table_row (cols : list (string * list value)) (i : nat) : row :=
  (fun kv => (fst kv, default VUndefined (snd kv !! i))) <$> cols.

Definition table_rows (cols : list (string * list value)) (i n : nat) : list row :=
  table_row cols <$> seq i n.

(** A table of two columns and two rows. *)
Definition example_columns : list (string * list value) :=
  [("id"%string, [VString "a"; VString "b"]);
   ("pvalue"%string, [VNumber (Num (1 # 100)); VNumber (Num (1 # 2))])].

(** ** Gene constraints *)


(** No character of the text is a dot. *)
Definition dotless (s : string) : Prop :=
  Requester.all_chars (fun c => negb (Ascii.eqb c ".")) s = true.



(** ** The order of the panels *)

(** The plot holds the panels [ids], from top to bottom: the array of
    ids is [ids], without a gap or a repetition, the panels of the plot
    are these, and the [y_index] of each is its place in the array. *)
Definition ordered (p : PanelOrder.Plot) (ids : list string) : Prop :=
  PanelOrder.panel_ids_by_y_index p = (Some <$> ids)
  /\ NoDup ids
  /\ Forall (fun id => id <> ""%string) ids
  /\ (forall id, is_Some (PanelOrder.panels p !! id) <-> id ∈ ids)
  /\ (forall i id, ids !! i = Some id ->
        PanelOrder.panels p !! id = Some (Some (Z.of_nat i))).


(** A plot of three panels. *)
Definition three_panels : PanelOrder.Plot :=
  PanelOrder.mkPlot
    (<["association"%string := Some 0%Z]>
       (<["genes"%string := Some 1%Z]> (<["intervals"%string := Some 2%Z]> ∅)))
    [Some "association"%string; Some "genes"%string; Some "intervals"%string].

(** ** Scale functions *)

(** The bin of [x] among the ascending breaks [bs]: the index of the
    last break that is at most [x], and 0 when [x] is below them all. *)
Definition bin_index (bs : list Q) (x : Q) : nat :=
  pred (length (filter (fun b => Qle_bool b x = true) bs)).

(** The function [numerical_bin] folds over the breaks, for the number
    [x]. *)
Definition bin_step (x : Q) (prev curr : jsnum) : jsnum :=
  if js_lt (Num x) prev || (ScaleFunctions.js_ge (Num x) prev && js_lt (Num x) curr)
  then prev else curr.

(** The layout [i] resolves, to [null] or [undefined]. *)
Definition resolves_null (functions : gmap string ScaleFunctions.scale_function)
    (data : row) (i : ScalableParameter.scalable) : Prop :=
  exists r, ScalableParameter.resolveScalableParameter functions i data = Return r
            /\ ScaleFunctions.nullish r = true.

(** ** Positions and region queries *)

(** A chromosome name: one or more word characters. *)
Definition word (s : string) : Prop :=
  s <> EmptyString /\ Requester.all_chars LDSource.is_word_char s = true.

(** A position as a query writes it: one or more digits, commas and
    dots, then any number of the unit letters. *)
Definition position_text (p : string) : Prop :=
  exists digits units,
    p = (digits ++ units)%string /\ digits <> EmptyString
    /\ Requester.all_chars Position.is_number_char digits = true
    /\ Requester.all_chars Position.is_unit_char units = true.

(** The factor a unit letter stands for. *)
Definition unit_factor (letter : ascii) : Z :=
  if Ascii.eqb (Position.upper letter) "M" then 1000000
  else if Ascii.eqb (Position.upper letter) "G" then 1000000000
  else 1000.

(** What follows a run of characters of a class: nothing, or a
    character outside it. *)
Definition stops (p : ascii -> bool) (r : string) : Prop :=
  match r with
  | EmptyString => True
  | String c _ => p c = false
  end.

(** An engine that reads the texts of decimal digits as numbers, the
    empty text as 0, and nothing else. *)
Fixpoint digits_value (acc : Z) (s : string) : option Z :=
  match s with
  | EmptyString => Some acc
  | String c s' =>
      let n := nat_of_ascii c in
      if (48 <=? n)%nat && (n <=? 57)%nat
      then digits_value (10 * acc + Z.of_nat (n - 48)) s'
      else None
  end.

Definition digit_engine : Engine :=
  {| StringToNumber := fun s =>
       match digits_value 0 s with
       | Some n => Num (inject_Z n)
       | None => NaN
       end;
     sci_text := fun _ => EmptyString |}.

(** * Properties *)

(** ** Comparisons of rationals *)

Section QFacts.
Local Open Scope Q_scope.

Lemma Qltb_lt (x y : Q) : Qltb x y = true <-> x < y.
Proof.
  unfold Qltb. rewrite negb_true_iff. split.
  - intros Hb. apply Qnot_le_lt. intros Hle. apply Qle_bool_iff in Hle. congruence.
  - intros Hlt. destruct (Qle_bool y x) eqn:E; [|reflexivity].
    apply Qle_bool_iff in E. exfalso. apply (Qlt_not_le _ _ Hlt E).
Qed.

Lemma Qltb_ge (x y : Q) : Qltb x y = false <-> y <= x.
Proof. unfold Qltb. rewrite negb_false_iff. apply Qle_bool_iff. Qed.

Lemma Qltb_inject_Z (x y : Z) : Qltb (inject_Z x) (inject_Z y) = (x <? y)%Z.
Proof.
  destruct (Z.ltb_spec x y) as [Hlt|Hle].
  - apply Qltb_lt. rewrite <- Zlt_Qlt. exact Hlt.
  - apply Qltb_ge. rewrite <- Zle_Qle. exact Hle.
Qed.

Lemma inject_Z_minus (x y : Z) : inject_Z (x - y) = inject_Z x - inject_Z y.
Proof. unfold Z.sub, Qminus. now rewrite inject_Z_plus, inject_Z_opp. Qed.

End QFacts.

(** ** validateState *)

Section ValidateStateFacts.
Import ValidateState.
Local Open Scope Q_scope.

(** C3, evaluated on a flipped region.  The state [{chr: "1", start: 200,
    end: 100}] has both bounds numeric and at least 1, with [start > end].
    The code assigns the start to the end and then the saved start back to
    the start, so both bounds end at 200: the original end, 100, is lost and
    the bounds are not exchanged. *)
Theorem validateState_flipped_region_not_swapped :
  let st := validateState (mkState (Some "1"%string) (Some (Num 200)) (Some (Num 100)))
                          (mkLayout NaN NaN) in
  start st = Some (Num 200) /\ end_ st = Some (Num 200).
Proof. vm_compute. split; reflexivity. Qed.

Lemma Math_max_inject_Z (x y : Z) :
  Math_max (Num (inject_Z x)) (Num (inject_Z y)) = Num (inject_Z (Z.max x y)).
Proof.
  unfold Math_max. rewrite Qltb_inject_Z.
  destruct (Z.ltb_spec x y); f_equal; f_equal; lia.
Qed.

Lemma Math_round_half_sum (x y : Z) :
  Math_round (js_half (js_add (Num (inject_Z x)) (Num (inject_Z y))))
  = Num (inject_Z ((x + y + 1) / 2)).
Proof.
  unfold js_half, js_add, js_lift2, Math_round. do 2 f_equal.
  transitivity (Qfloor (inject_Z (x + y + 1) / inject_Z 2)).
  - apply Qfloor_comp. rewrite !inject_Z_plus. field.
  - symmetry. apply Zdiv_Qdiv.
Qed.



Lemma constrain_NaN (r : Region) (hit : bool) (se : jsnum * jsnum) :
  constrain r NaN hit se = se.
Proof. reflexivity. Qed.






(** With no scale limit in the layout, a state whose [chr], [start] and
    [end] are defined comes back with integer bounds, [1 <= start <= end],
    whatever the two values were. *)
Lemma validateState_region_ordered (c : string) (start0 end0 : jsnum) :
  exists a b : Z,
    validateState (mkState (Some c) (Some start0) (Some end0)) (mkLayout NaN NaN)
    = mkState (Some c) (Some (Num (inject_Z a))) (Some (Num (inject_Z b)))
    /\ (1 <= a <= b)%Z.
Proof.
  unfold validateState; cbn [chr start end_ min_region_scale max_region_scale].
  rewrite !constrain_NaN. cbn [fst snd].
  unfold resolve_region.
  assert (Hparse : forall x, parseInt x = NaN \/ exists z, parseInt x = Num (inject_Z z)).
  { intros [|q]; [now left|right; eexists; reflexivity]. }
  change (Num 1) with (Num (inject_Z 1)).
  destruct (Hparse start0) as [-> | [s ->]], (Hparse end0) as [-> | [e ->]];
    rewrite ?Math_max_inject_Z; cbn [Math_max isNaN andb orb r_start r_end].
  - exists 1%Z, 1%Z. split; [reflexivity|lia].
  - exists (Z.max e 1), (Z.max e 1). split; [reflexivity|lia].
  - exists (Z.max s 1), (Z.max s 1). split; [reflexivity|lia].
  - rewrite Math_round_half_sum.
    assert (js_lt (Num (inject_Z ((Z.max s 1 + Z.max e 1 + 1) / 2))) (Num 0) = false) as ->.
    { cbn. apply Qltb_ge. change 0 with (inject_Z 0). rewrite <- Zle_Qle.
      apply Z.div_pos; lia. }
    cbn [js_lt js_sub js_lift2]. rewrite <- inject_Z_minus.
    change 0 with (inject_Z 0). rewrite Qltb_inject_Z.
    destruct (Z.ltb_spec (Z.max e 1 - Z.max s 1) 0) as [Hlt|Hge]; cbn [r_start r_end].
    + exists (Z.max s 1), (Z.max s 1). split; [reflexivity|lia].
    + exists (Z.max s 1), (Z.max e 1). split; [reflexivity|lia].
Qed.

End ValidateStateFacts.


(** ** The single-slot cache of a source *)

Section SourceCacheFacts.
Import Source.
Context {State Resp : Type}.

Lemma key_eq_Some (k : string) (stored : option string) :
  key_eq (Some k) stored = true <-> stored = Some k.
Proof.
  destruct stored as [k'|]; cbn.
  - rewrite String.eqb_eq. split; congruence.
  - split; discriminate.
Qed.

(** A call that finds the computed key in the slot. *)
Lemma getRequest_hit {W : Type} (m : Methods State Resp W)
    (self : Cache Resp) state chain fields (w : W) (k : string) :
  enableCache self = true ->
  getCacheKey m state chain fields = Return (Some k) ->
  _cachedKey self = Some k ->
  getRequest m self state chain fields w = (Return (_cachedResponse self), self, w).
Proof.
  intros He Hk Hs. unfold getRequest. rewrite Hk, He.
  apply key_eq_Some in Hs. rewrite Hs.
  rewrite bool_decide_eq_true_2 by eauto. reflexivity.
Qed.

(** A call whose computed key is not the one in the slot. *)
Lemma getRequest_miss {W : Type} (m : Methods State Resp W)
    (self : Cache Resp) state chain fields (w : W) (k : option string) :
  k = None \/ _cachedKey self <> k ->
  getCacheKey m state chain fields = Return k ->
  getRequest m self state chain fields w =
    match fetchRequest m state chain fields w with
    | (Return x, w') =>
        (Return (Some x),
         if enableCache self then mkCache (enableCache self) k (Some x) else self, w')
    | (Throw e, w') => (Throw e, self, w')
    end.
Proof.
  intros Hne Hk. unfold getRequest. rewrite Hk.
  assert (enableCache self && bool_decide (is_Some k) && key_eq k (_cachedKey self) = false)
    as ->.
  { destruct k as [k|].
    - destruct Hne as [Hne|Hne]; [discriminate|].
      destruct (key_eq (Some k) (_cachedKey self)) eqn:E.
      + apply key_eq_Some in E. congruence.
      + now rewrite andb_false_r.
    - rewrite bool_decide_eq_false_2 by (intros [? ?]; discriminate).
      now rewrite andb_false_r. }
  destruct (fetchRequest m state chain fields w) as [[x|e] w'];
    [destruct (enableCache self)|]; reflexivity.
Qed.

(** C1.  A source with the cache enabled, and two consecutive requests
    that compute the same defined key [k], the first of which resolves.
    The second request returns the response of the first, and leaves the
    source, the world and the count of fetches as the first left them: it
    sends nothing.  When the key in the slot was not [k], the first
    request did the fetch, exactly one, and stored [(k, response)].  A
    later request that computes another key [k'] fetches again and
    replaces the slot with the new pair. *)
Theorem getRequest_single_slot_cache {W : Type} (m : Methods State Resp W)
    (self self1 : Cache Resp) (state1 state2 : State) (chain1 chain2 : Chain)
    (fields1 fields2 : list string) (w : W) (n : nat) (k : string)
    (r1 : option Resp) (wn1 : W * nat) :
  enableCache self = true ->
  getCacheKey m state1 chain1 fields1 = Return (Some k) ->
  getCacheKey m state2 chain2 fields2 = Return (Some k) ->
  getRequest (counted m) self state1 chain1 fields1 (w, n) = (Return r1, self1, wn1) ->
  getRequest (counted m) self1 state2 chain2 fields2 wn1 = (Return r1, self1, wn1)
  /\ (_cachedKey self <> Some k ->
      exists x, fetchRequest m state1 chain1 fields1 w = (Return x, wn1.1)
                /\ r1 = Some x /\ wn1.2 = S n
                /\ self1 = mkCache true (Some k) (Some x))
  /\ (forall state3 chain3 fields3 k' x' w3,
        getCacheKey m state3 chain3 fields3 = Return (Some k') ->
        k' <> k ->
        fetchRequest m state3 chain3 fields3 wn1.1 = (Return x', w3) ->
        getRequest (counted m) self1 state3 chain3 fields3 wn1
        = (Return (Some x'), mkCache true (Some k') (Some x'), (w3, S wn1.2))).
Proof.
  intros He Hk1 Hk2 Hcall.
  assert (Hself1 : enableCache self1 = true /\ _cachedKey self1 = Some k
                   /\ _cachedResponse self1 = r1
                   /\ (_cachedKey self <> Some k ->
                       exists x, fetchRequest m state1 chain1 fields1 w = (Return x, wn1.1)
                                 /\ r1 = Some x /\ wn1.2 = S n
                                 /\ self1 = mkCache true (Some k) (Some x))).
  { destruct (decide (_cachedKey self = Some k)) as [Hs|Hs].
    - rewrite (getRequest_hit (counted m) self _ _ _ _ k He Hk1 Hs) in Hcall.
      injection Hcall as <- <- <-. tauto.
    - rewrite (getRequest_miss (counted m) self _ _ _ _ (Some k)) in Hcall
        by (auto || exact Hk1).
      cbn in Hcall. rewrite He in Hcall.
      destruct (fetchRequest m state1 chain1 fields1 w) as [[x|e] w'] eqn:Hf;
        [|discriminate].
      injection Hcall as <- <- <-. cbn. repeat split; eauto. }
  destruct Hself1 as (He1 & Hs1 & Hr1 & Hfirst).
  split; [|split].
  - rewrite (getRequest_hit (counted m) self1 _ _ _ _ k He1 Hk2 Hs1). now rewrite Hr1.
  - exact Hfirst.
  - intros state3 chain3 fields3 k' x' w3 Hk3 Hne Hf3.
    rewrite (getRequest_miss (counted m) self1 _ _ _ _ (Some k'))
      by (exact Hk3 || (right; congruence)).
    destruct wn1 as [w1 n1]. cbn in Hf3 |- *. rewrite Hf3, He1. reflexivity.
Qed.

(** C10.  When [getCacheKey] gives [undefined] the request is fetched,
    whatever the slot holds and whether or not the cache is enabled: the
    result is the result of the fetch, and the count of fetches goes up
    by one. *)
Theorem getRequest_undefined_key_always_fetches {W : Type} (m : Methods State Resp W)
    (self : Cache Resp) (state : State) (chain : Chain) (fields : list string)
    (w : W) (n : nat) :
  getCacheKey m state chain fields = Return None ->
  let '(req, self', wn') := getRequest (counted m) self state chain fields (w, n) in
  let '(fetched, w') := fetchRequest m state chain fields w in
  req = match fetched with Return x => Return (Some x) | Throw e => Throw e end
  /\ wn' = (w', S n).
Proof.
  intros Hk.
  rewrite (getRequest_miss (counted m) self _ _ _ _ None) by (auto || exact Hk).
  cbn. destruct (fetchRequest m state chain fields w) as [[x|e] w']; split; reflexivity.
Qed.

(** [getData] without a [preGetData] hook returns at once; the function
    it returns does the request and hands the response to the parser, so a
    parser that throws makes the source throw: it produces no chain, and
    the response stays in the slot. *)
Lemma getData_parse_error {W : Type} (m : Methods State Resp W)
    (parse : option Resp -> Chain -> list string -> list string
             -> list (option transform) -> result Chain)
    (self self' : Cache Resp) (state : State) (chain : Chain)
    (fields outnames : list string) (trans : list (option transform))
    (w w' : W) (resp : option Resp) (e : exn) :
  getRequest m self state chain fields w = (Return resp, self', w') ->
  parse resp chain fields outnames trans = Throw e ->
  exists p,
    getData m None parse state fields outnames trans = Return p
    /\ p chain (self, w) = (Throw e, (self', w')).
Proof.
  intros Hreq Hparse. eexists. split; [reflexivity|].
  cbn. rewrite Hreq. cbn. now rewrite Hparse.
Qed.

End SourceCacheFacts.

Lemma getRequest_single_slot_cache_witness :
  let self : Source.Cache nat := Source.mkCache true None None in
  let self1 := Source.mkCache true (Some "10"%string) (Some 7%nat) in
  Source.getRequest (Source.counted chr_methods) self1 "10"%string empty_chain []
    (8%nat, 1%nat)
  = (Return (Some 7%nat), self1, (8%nat, 1%nat))
  /\ (Source._cachedKey self <> Some "10"%string ->
      exists x, Source.fetchRequest chr_methods "10"%string empty_chain [] 7%nat
                = (Return x, 8%nat)
                /\ Some 7%nat = Some x /\ 1%nat = 1%nat
                /\ self1 = Source.mkCache true (Some "10"%string) (Some x))
  /\ (forall state3 chain3 fields3 k' x' w3,
        Source.getCacheKey chr_methods state3 chain3 fields3 = Return (Some k') ->
        k' <> "10"%string ->
        Source.fetchRequest chr_methods state3 chain3 fields3 8%nat = (Return x', w3) ->
        Source.getRequest (Source.counted chr_methods) self1 state3 chain3 fields3
          (8%nat, 1%nat)
        = (Return (Some x'), Source.mkCache true (Some k') (Some x'), (w3, 2%nat))).
Proof.
  exact (getRequest_single_slot_cache chr_methods
           (Source.mkCache true None None) _ "10"%string "10"%string
           empty_chain empty_chain [] [] 7%nat 0%nat "10"%string (Some 7%nat) (8%nat, 1%nat)
           eq_refl eq_refl eq_refl eq_refl).
Defined.

Lemma getRequest_undefined_key_always_fetches_witness :
  let '(req, self', wn') :=
    Source.getRequest (Source.counted keyless_methods)
      (Source.mkCache true None (Some 3%nat)) "10"%string empty_chain [] (7%nat, 0%nat) in
  let '(fetched, w') := Source.fetchRequest keyless_methods "10"%string empty_chain [] 7%nat in
  req = match fetched with Return x => Return (Some x) | Throw e => Throw e end
  /\ wn' = (w', 1%nat).
Proof.
  exact (getRequest_undefined_key_always_fetches keyless_methods
           (Source.mkCache true None (Some 3%nat)) "10"%string empty_chain [] 7%nat 0%nat
           eq_refl).
Defined.

Lemma getData_parse_error_witness :
  exists p,
    Source.getData id_only_methods None default_parse "10"%string
      ["pvalue"%string] ["assoc:pvalue|scinotation"%string] [Some (@scinotation plain_engine)]
    = Return p
    /\ p empty_chain (Source.mkCache true None None, tt)
       = (Throw TypeError,
          (Source.mkCache true (Some "10"%string)
             (Some (Source.ArrayOfObjects [[("id"%string, VNumber (Num 1))]])), tt)).
Proof.
  exact (getData_parse_error id_only_methods default_parse
           (Source.mkCache true None None) _ "10"%string empty_chain
           ["pvalue"%string] ["assoc:pvalue|scinotation"%string] [Some (@scinotation plain_engine)]
           tt tt _ TypeError eq_refl eq_refl).
Defined.

(** ** Missing fields in a response *)

Section ParseFacts.
Context `{Engine}.
Import Source.

(** C6, evaluated on a response that lacks a requested field.  The field
    [pvalue], requested as [assoc:pvalue|scinotation], is in no row of the
    array-of-objects response [[{id: 1}]].  [parseObjectsToObjects] hands
    the [undefined] it reads to the transformation before it looks at
    [fieldFound], and [scinotation] throws a [TypeError] on [undefined]:
    that error, which names neither the field nor the output name, is what
    the parse throws.  On the object-of-arrays response with the same keys,
    [parseArraysToObjects] checks the fields first and throws the message
    that names both. *)
Theorem parseObjectsToObjects_missing_field_TypeError :
  parseResponse (ArrayOfObjects [[("id"%string, VNumber (Num 1))]]) empty_chain
    ["pvalue"%string] ["assoc:pvalue|scinotation"%string] [Some scinotation]
  = Throw TypeError
  /\ parseResponse (ObjectOfArrays [("id"%string, [VNumber (Num 1)])]) empty_chain
       ["pvalue"%string] ["assoc:pvalue|scinotation"%string] [Some scinotation]
     = Throw (Msg "field pvalue not found in response for assoc:pvalue|scinotation").
Proof. split; reflexivity. Qed.



(** *** The array-of-objects parser when no transformation throws *)



Lemma mark_found_length (ff : list bool) (j : nat) (v : value) :
  length (mark_found ff j v) = length ff.
Proof. destruct v; cbn; rewrite ?length_insert; reflexivity. Qed.

Lemma defined_spec (v : value) : defined v = true <-> v <> VUndefined.
Proof. destruct v; cbn; split; congruence. Qed.

Lemma mark_found_lookup (ff : list bool) (j k : nat) (v : value) :
  mark_found ff j v !! k =
    if decide (k = j /\ defined v = true /\ (k < length ff)%nat) then Some true
    else ff !! k.
Proof.
  destruct (decide (k = j /\ defined v = true /\ (k < length ff)%nat))
    as [(-> & Hv & Hk)|Hn].
  - destruct v; cbn in *; try discriminate; now rewrite list_lookup_insert_eq.
  - destruct v; cbn; try reflexivity;
      (destruct (decide (k = j)) as [->|Hne];
       [ rewrite list_insert_ge; [reflexivity|];
         destruct (decide (j < length ff)%nat); [exfalso; apply Hn; repeat split; auto|lia]
       | now rewrite list_lookup_insert_ne by congruence ]).
Qed.

Lemma row_marks_length (xi : row) (fields : list string) (j : nat) (ff : list bool) :
  length (row_marks xi fields j ff) = length ff.
Proof.
  revert j ff. induction fields as [|f fields IH]; intros j ff; cbn; [reflexivity|].
  now rewrite IH, mark_found_length.
Qed.

(** An entry of [fieldFound] after a row: set when the row defines the
    field of that column, and otherwise as before. *)
Lemma row_marks_lookup (xi : row) (fields : list string) (j : nat) (ff : list bool)
    (k : nat) :
  row_marks xi fields j ff !! k =
    match fields !! (k - j)%nat with
    | Some f =>
        if decide ((j <= k)%nat /\ defined (row_get xi f) = true /\ (k < length ff)%nat)
        then Some true else ff !! k
    | None => ff !! k
    end.
Proof.
  revert j ff. induction fields as [|f fields IH]; intros j ff; cbn [row_marks].
  - now rewrite lookup_nil.
  - rewrite IH, mark_found_length, mark_found_lookup.
    destruct (decide (j < k)%nat) as [Hlt|Hge].
    + replace (k - j)%nat with (S (k - S j)) by lia. cbn [lookup list_lookup].
      rewrite (decide_False (P := k = j /\ _)) by lia.
      destruct (fields !! (k - S j)%nat) as [g|]; [|reflexivity].
      destruct (decide ((S j <= k)%nat /\ defined (row_get xi g) = true
                        /\ (k < length ff)%nat)) as [(? & ? & ?)|Hn].
      * now rewrite decide_True by (repeat split; auto; lia).
      * now rewrite decide_False by (intros (? & ? & ?); apply Hn; repeat split; auto; lia).
    + assert (fields !! (k - S j)%nat = fields !! 0%nat) as Hz by (f_equal; lia).
      destruct (decide (k = j)) as [->|Hne].
      * rewrite Nat.sub_diag. cbn [lookup list_lookup].
        assert (match fields !! (j - S j)%nat with
                | Some f0 =>
                    if decide ((S j <= j)%nat /\ defined (row_get xi f0) = true
                               /\ (j < length ff)%nat)
                    then Some true
                    else (if decide (j = j /\ defined (row_get xi f) = true
                                     /\ (j < length ff)%nat)
                          then Some true else ff !! j)
                | None => (if decide (j = j /\ defined (row_get xi f) = true
                                      /\ (j < length ff)%nat)
                           then Some true else ff !! j)
                end
                = (if decide (j = j /\ defined (row_get xi f) = true /\ (j < length ff)%nat)
                   then Some true else ff !! j)) as ->.
        { destruct (fields !! (j - S j)%nat); [|reflexivity].
          now rewrite (decide_False (P := (S j <= j)%nat /\ _)) by lia. }
        destruct (decide (j = j /\ defined (row_get xi f) = true /\ (j < length ff)%nat))
          as [(_ & ? & ?)|Hn].
        -- now rewrite decide_True by (repeat split; auto).
        -- now rewrite decide_False by (intros (_ & ? & ?); apply Hn; auto).
      * replace (k - j)%nat with 0%nat by lia. cbn [lookup list_lookup].
        rewrite (decide_False (P := k = j /\ _)) by tauto.
        rewrite (decide_False (P := (j <= k)%nat /\ _)) by lia.
        destruct (fields !! (k - S j)%nat); [|reflexivity].
        now rewrite decide_False by lia.
Qed.

Lemma rows_marks_length (x : list row) (fields : list string) (ff : list bool) :
  length (rows_marks x fields ff) = length ff.
Proof.
  unfold rows_marks. revert ff. induction x as [|xi x IH]; intros ff; cbn; [reflexivity|].
  now rewrite IH, row_marks_length.
Qed.

Lemma rows_marks_lookup_true (x : list row) (fields : list string) (ff : list bool)
    (k : nat) (f : string) :
  fields !! k = Some f -> (k < length ff)%nat ->
  (rows_marks x fields ff !! k = Some true
   <-> ff !! k = Some true \/ exists xi, xi ∈ x /\ row_get xi f <> VUndefined).
Proof.
  intros Hf. unfold rows_marks. revert ff.
  induction x as [|xi x IH]; intros ff Hk; cbn [fold_left].
  - split; [auto|]. intros [?|(xi & Hin & _)]; [assumption|].
    now apply not_elem_of_nil in Hin.
  - rewrite IH by (now rewrite row_marks_length).
    rewrite row_marks_lookup, Nat.sub_0_r, Hf.
    destruct (decide ((0 <= k)%nat /\ defined (row_get xi f) = true /\ (k < length ff)%nat))
      as [(_ & Hdef & _)|Hn].
    + split; [|auto]. intros _. right. exists xi.
      split; [apply list_elem_of_here|now apply defined_spec].
    + split.
      * intros [?|(xj & Hin & Hdef)]; [auto|].
        right. exists xj. split; [now apply list_elem_of_further|exact Hdef].
      * intros [?|(xj & Hin & Hdef)]; [auto|].
        apply elem_of_cons in Hin as [->|Hin]; [|right; eauto].
        exfalso. apply Hn. repeat split; [lia|now apply defined_spec|exact Hk].
Qed.



End ParseFacts.



(** ** The merge join of [LDSource.parseResponse] *)

Section LeftJoinFacts.
Context `{Engine}.
Import LDSource.











End LeftJoinFacts.


(** ** The Requester: grouping by namespace and chaining in order *)

Section AssocFacts.
Context {A : Type}.

Lemma assoc_get_set_eq (o : list (string * A)) (k : string) (v : A) :
  assoc_get (assoc_set o k v) k = Some v.
Proof.
  induction o as [|[k' v'] o IH]; cbn.
  - now rewrite String.eqb_refl.
  - destruct (String.eqb k' k) eqn:E; cbn; rewrite E; [reflexivity|exact IH].
Qed.

Lemma assoc_get_set_ne (o : list (string * A)) (k k' : string) (v : A) :
  k <> k' -> assoc_get (assoc_set o k v) k' = assoc_get o k'.
Proof.
  intros Hne. induction o as [|[k0 v0] o IH]; cbn.
  - destruct (String.eqb k k') eqn:E; [apply String.eqb_eq in E; contradiction|reflexivity].
  - destruct (String.eqb k0 k) eqn:E; cbn.
    + apply String.eqb_eq in E. subst k0.
      destruct (String.eqb k k') eqn:E'; [apply String.eqb_eq in E'; contradiction|reflexivity].
    + destruct (String.eqb k0 k'); [reflexivity|exact IH].
Qed.

Lemma assoc_get_None (o : list (string * A)) (k : string) :
  assoc_get o k = None <-> k ∉ o.*1.
Proof.
  induction o as [|[k' v'] o IH]; cbn.
  - split; [intros _; apply not_elem_of_nil|reflexivity].
  - rewrite not_elem_of_cons. destruct (String.eqb k' k) eqn:E.
    + apply String.eqb_eq in E. split; [discriminate|intros [? _]; congruence].
    + apply String.eqb_neq in E. rewrite IH. split; [intros ?; split; congruence|tauto].
Qed.



End AssocFacts.



Lemma filter_ne_id (x : string) (l : list string) :
  x ∉ l -> filter (fun y => y <> x) l = l.
Proof.
  induction l as [|y l IH]; [reflexivity|].
  rewrite not_elem_of_cons. intros [Hne Hl].
  rewrite filter_cons_True by congruence. now rewrite IH.
Qed.




Section RequesterFacts.
Import Requester.
Context (transformations : TransformationFunctions.registry).





End RequesterFacts.

(** *** A log of the chains the sources receive *)

Section RequesterLog.
Import Requester.
Context {State W : Type}.





End RequesterLog.


(** In the declared order the [ld] source receives the row [assoc]
    produced; with the two specs exchanged it runs first, on the empty
    chain, and fails, and [assoc] is never run. *)
Lemma two_namespaces_in_order :
  Requester.getData ∅ (log_sources two_sources) tt
    ["assoc:pvalue"%string; "ld:isrefvar"%string] (tt, [])
  = (Return (mkChain ∅ (BodyRows [[("assoc:pvalue"%string, VNumber (Num (1 # 100)))]])),
     (tt, [("assoc"%string, empty_chain);
           ("ld"%string,
            mkChain ∅ (BodyRows [[("assoc:pvalue"%string, VNumber (Num (1 # 100)))]]))])).
Proof. vm_compute. reflexivity. Qed.

Lemma two_namespaces_reversed :
  Requester.getData ∅ (log_sources two_sources) tt
    ["ld:isrefvar"%string; "assoc:pvalue"%string] (tt, [])
  = (Throw (Msg "Unable to find columns for both pvalue and id for merge: null"),
     (tt, [("ld"%string, empty_chain)])).
Proof. vm_compute. reflexivity. Qed.

(** ** The axis extent of a data layer *)

Section AxisExtentFacts.
Context `{Engine}.
Import DataLayer.

Lemma d3_extent_pair (l : list jsnum) :
  d3_extent l = [at_ (d3_extent l) 0; at_ (d3_extent l) 1].
Proof.
  induction l as [|[|b] l IH]; [reflexivity|exact IH|].
  cbn [d3_extent]. now destruct (d3_extent_rest b b l).
Qed.

Lemma data_extent_pair (a : AxisLayout) (f : string) (rows : list row) :
  data_extent a f rows = [at_ (data_extent a f rows) 0; at_ (data_extent a f rows) 1].
Proof. unfold data_extent. apply d3_extent_pair. Qed.

(** C7, as amended.  A dimension [x] or [y] whose axis has a field and a
    layer with data, and exactly one of [floor] and [ceiling] numeric.
    The configured bound replaces the end of the data-derived extent on its
    side, whichever of the two is the greater: the extent returned is
    [[floor, max]] or [[min, ceiling]], where [[min, max]] is the extent
    the data, the buffers and [min_extent] give.  The other end is the
    data-derived value. *)
Theorem getAxisExtent_single_bound (this : DataLayer) (dimension : string) (b : Q) :
  dimension = "x"%string \/ dimension = "y"%string ->
  str_truthy (field (axis_of this dimension)) = true ->
  data this <> [] ->
  let a := axis_of this dimension in
  let derived := data_extent a (prop_name (field a)) (data this) in
  (floor a = Some (Num b) -> numeric (ceiling a) = false ->
   getAxisExtent this dimension = Return [Num b; at_ derived 1])
  /\ (ceiling a = Some (Num b) -> numeric (floor a) = false ->
      getAxisExtent this dimension = Return [at_ derived 0; Num b]).
Proof.
  intros Hdim Hfield Hdata a derived.
  assert (Hd : negb (String.eqb dimension "x" || String.eqb dimension "y") = false).
  { destruct Hdim as [-> | ->]; reflexivity. }
  assert (Hnonempty : negb (bool_decide (data this = [])) = true).
  { now rewrite bool_decide_eq_false_2. }
  assert (Hpair : exists lo hi, derived = [lo; hi]).
  { eexists _, _. apply data_extent_pair. }
  destruct Hpair as (lo & hi & Hpair).
  split; intros Hb Hother; unfold getAxisExtent; rewrite Hd; fold (axis_of this dimension);
    fold a; rewrite Hb, Hother; cbn [numeric andb];
    rewrite ?andb_false_r; fold a in Hfield; rewrite Hfield, Hnonempty; cbn [andb];
    fold derived; rewrite Hpair; reflexivity.
Qed.

End AxisExtentFacts.

(** C7 as stated fails: the data-derived extent of [floor_layer] on [y]
    is [[5, 10]], which lies inside the floor 0, and the extent returned
    is [[0, 10]]: its lower end is below the data-derived one. *)
Lemma getAxisExtent_floor_counterexample :
  DataLayer.data_extent (H := plain_engine) (DataLayer.y_axis floor_layer) "y"
    (DataLayer.data floor_layer) = [Num 5; Num 10]
  /\ DataLayer.getAxisExtent (H := plain_engine) floor_layer "y" = Return [Num 0; Num 10]
  /\ (0 <= 5)%Q /\ (0 < 5)%Q.
Proof. repeat split; try reflexivity; discriminate. Qed.

Lemma getAxisExtent_single_bound_witness :
  let a := DataLayer.y_axis floor_layer in
  let derived := DataLayer.data_extent (H := plain_engine) a "y" (DataLayer.data floor_layer) in
  (DataLayer.floor a = Some (Num 0) -> DataLayer.numeric (DataLayer.ceiling a) = false ->
   DataLayer.getAxisExtent (H := plain_engine) floor_layer "y"
   = Return [Num 0; DataLayer.at_ derived 1])
  /\ (DataLayer.ceiling a = Some (Num 0) -> DataLayer.numeric (DataLayer.floor a) = false ->
      DataLayer.getAxisExtent (H := plain_engine) floor_layer "y"
      = Return [DataLayer.at_ derived 0; Num 0]).
Proof.
  apply (getAxisExtent_single_bound (H := plain_engine) floor_layer "y" 0);
    [right; reflexivity | reflexivity | discriminate].
Defined.

(** ** The end of a drag *)

Section DraggingFacts.
Import Panel.

Lemma conformed_idem (a : axis_name) (n : jsnum) (e : list jsnum) (l : DataLayer.DataLayer) :
  conformed a n e (conformed a n e l) = conformed a n e l.
Proof.
  unfold conformed. destruct (bound_to (axis_layout a l) n) eqn:Hb; [|now rewrite Hb].
  destruct a, l as [xa ya dat st]; cbn in *; unfold bound_to in *; cbn; rewrite Hb;
    reflexivity.
Qed.

Lemma overrideAxisLayout_layers (a : axis_name) (n : jsnum) (e : list jsnum)
    (ids : list string) (layers : gmap string DataLayer.DataLayer) :
  (forall lid, lid ∈ ids -> is_Some (layers !! lid)) ->
  exists layers',
    overrideAxisLayout a n (Some e) ids layers = Return layers'
    /\ forall lid, layers' !! lid =
         if decide (lid ∈ ids) then conformed a n e <$> layers !! lid else layers !! lid.
Proof.
  revert layers. induction ids as [|lid0 ids IH]; intros layers Hall.
  - exists layers. split; [reflexivity|]. intros lid.
    now rewrite decide_False by apply not_elem_of_nil.
  - destruct (Hall lid0 (list_elem_of_here _ _)) as [l0 Hl0].
    cbn [overrideAxisLayout]. unfold override_one at 1. rewrite Hl0.
    set (layers1 := if bound_to (axis_layout a l0) n
                    then <[lid0 := set_axis_layout a l0 (conform (axis_layout a l0) e)]> layers
                    else layers).
    assert (Hl1 : forall lid, layers1 !! lid =
              if decide (lid = lid0) then Some (conformed a n e l0) else layers !! lid).
    { intros lid. subst layers1. unfold conformed.
      destruct (bound_to (axis_layout a l0) n); destruct (decide (lid = lid0)) as [->|Hne].
      - now rewrite lookup_insert_eq.
      - now rewrite lookup_insert_ne by congruence.
      - exact Hl0.
      - reflexivity. }
    destruct (IH layers1) as (layers' & Hrun & Hlook).
    { intros lid Hin. rewrite Hl1. destruct (decide (lid = lid0)); [eauto|].
      apply Hall. now apply list_elem_of_further. }
    exists layers'. split.
    + subst layers1. destruct (bound_to (axis_layout a l0) n); exact Hrun.
    + intros lid. rewrite Hlook, Hl1.
      destruct (decide (lid = lid0)) as [->|Hne].
      * rewrite (decide_True (P := lid0 ∈ lid0 :: ids)) by apply list_elem_of_here.
        rewrite Hl0. cbn. destruct (decide (lid0 ∈ ids)); [|reflexivity].
        cbn. now rewrite conformed_idem.
      * destruct (decide (lid ∈ ids)) as [Hin|Hnin].
        -- now rewrite decide_True by (now apply list_elem_of_further).
        -- now rewrite decide_False by (rewrite elem_of_cons; tauto).
Qed.

(** C8.  A panel with a drag in progress on the axis [a], every id of
    [data_layer_ids_by_z_index] naming a data layer and the extent of the
    panel on that axis being [e].  [toggleDragging] returns, with the drag
    ended.  When the net displacement on the axis is not zero, every child
    data layer bound to the axis has, on its layout for that axis, [floor]
    and [ceiling] set to [e[0]] and [e[1]] and [lower_buffer],
    [upper_buffer], [min_extent] and [ticks] deleted, its [field] and
    [axis] and its layout for the other axis being kept; a layer not bound
    to the axis is kept as it is.  When the net displacement is zero the
    data layers are the ones the panel had. *)
Theorem toggleDragging_commits_extent (this : Panel) (d : Dragging)
    (method_ : option string) (coords : jsnum * jsnum)
    (a : axis_name) (n : jsnum) (e : list jsnum) (moved : jsnum) :
  dragging this = Some d ->
  drag_target this d = Some (a, n, Some e, moved) ->
  (forall lid, lid ∈ data_layer_ids_by_z_index this -> is_Some (data_layers this !! lid)) ->
  exists this',
    toggleDragging this method_ coords = Return this'
    /\ dragging this' = None
    /\ (nonzero moved = true ->
        forall lid l, lid ∈ data_layer_ids_by_z_index this ->
          data_layers this !! lid = Some l ->
          exists l', data_layers this' !! lid = Some l'
            /\ (bound_to (axis_layout a l) n = true ->
                let al := axis_layout a l in
                let al' := axis_layout a l' in
                DataLayer.floor al' = e !! 0%nat
                /\ DataLayer.ceiling al' = e !! 1%nat
                /\ DataLayer.lower_buffer al' = None
                /\ DataLayer.upper_buffer al' = None
                /\ DataLayer.min_extent al' = None
                /\ DataLayer.ticks al' = None
                /\ DataLayer.field al' = DataLayer.field al
                /\ DataLayer.axis al' = DataLayer.axis al
                /\ l' = set_axis_layout a l al')
            /\ (bound_to (axis_layout a l) n = false -> l' = l))
    /\ (nonzero moved = false -> data_layers this' = data_layers this).
Proof.
  intros Hdrag Htarget Hall.
  destruct (overrideAxisLayout_layers a n e (data_layer_ids_by_z_index this)
              (data_layers this) Hall) as (layers' & Hrun & Hlook).
  assert (Hcommit : exists this1,
            commit this d = Return this1
            /\ data_layers this1 =
               (if nonzero moved then layers' else data_layers this)).
  { unfold drag_target in Htarget. unfold commit.
    destruct (method d) as [m|]; [|discriminate].
    destruct (String.eqb m "background" || String.eqb m "x_tick").
    - injection Htarget as <- <- Hx <-. rewrite Hx.
      destruct (nonzero (dragged_x d)); [|eauto].
      rewrite Hrun. cbn. eauto.
    - destruct (String.eqb m "y1_tick") eqn:Hy1.
      + injection Htarget as <- <- Hy <-. cbn [orb]. rewrite Hy.
        destruct (nonzero (dragged_y d)); [|eauto].
        rewrite Hrun. cbn. eauto.
      + destruct (String.eqb m "y2_tick") eqn:Hy2; [|discriminate].
        injection Htarget as <- <- Hy <-. cbn [orb]. rewrite Hy.
        destruct (nonzero (dragged_y d)); [|eauto].
        rewrite Hrun. cbn. eauto. }
  destruct Hcommit as (this1 & Hc & Hlayers).
  exists (released this1). unfold toggleDragging. rewrite Hdrag, Hc. cbn [then_].
  split; [reflexivity|]. split; [reflexivity|].
  cbn [released data_layers]. rewrite Hlayers. split.
  - intros Hmoved lid l Hin Hl. rewrite Hmoved, Hlook, decide_True by exact Hin.
    rewrite Hl. cbn. eexists. split; [reflexivity|]. unfold conformed. split.
    + intros Hb. rewrite Hb. destruct a, l as [xa ya dat st]; cbn; repeat split.
    + intros Hb. now rewrite Hb.
  - intros Hmoved. now rewrite Hmoved.
Qed.

End DraggingFacts.

Lemma toggleDragging_commits_extent_witness :
  exists this',
    Panel.toggleDragging dragged_panel None (Num 112, Num 50) = Return this'
    /\ Panel.dragging this' = None
    /\ (Panel.nonzero (Num 12) = true ->
        forall lid l, lid ∈ ["layer"%string] ->
          ({["layer"%string := dragged_layer]} : gmap string DataLayer.DataLayer) !! lid
            = Some l ->
          exists l', Panel.data_layers this' !! lid = Some l'
            /\ (Panel.bound_to (Panel.axis_layout Panel.AxisX l) (Num 1) = true ->
                let al := Panel.axis_layout Panel.AxisX l in
                let al' := Panel.axis_layout Panel.AxisX l' in
                DataLayer.floor al' = [Num 1000; Num 2000] !! 0%nat
                /\ DataLayer.ceiling al' = [Num 1000; Num 2000] !! 1%nat
                /\ DataLayer.lower_buffer al' = None
                /\ DataLayer.upper_buffer al' = None
                /\ DataLayer.min_extent al' = None
                /\ DataLayer.ticks al' = None
                /\ DataLayer.field al' = DataLayer.field al
                /\ DataLayer.axis al' = DataLayer.axis al
                /\ l' = Panel.set_axis_layout Panel.AxisX l al')
            /\ (Panel.bound_to (Panel.axis_layout Panel.AxisX l) (Num 1) = false -> l' = l))
    /\ (Panel.nonzero (Num 12) = false ->
        Panel.data_layers this' = {["layer"%string := dragged_layer]}).
Proof.
  apply (toggleDragging_commits_extent dragged_panel
           (Panel.mkDragging (Some "background"%string) "panel" (Num 100) (Num 50)
              (Num 12) (Num 0) true false false)
           None (Num 112, Num 50) Panel.AxisX (Num 1) [Num 1000; Num 2000] (Num 12));
    [reflexivity | reflexivity |].
  intros lid Hin. apply list_elem_of_singleton in Hin as ->.
  exists dragged_layer. apply lookup_singleton_eq.
Defined.

(** ** The proportional heights of the panels *)

Section ProportionalHeightFacts.
Import Plot.
Local Open Scope Q_scope.





End ProportionalHeightFacts.



(** ** validateState: the limits of the region scale *)

Section ValidateStateLimits.
Import ValidateState.
Local Open Scope Q_scope.












End ValidateStateLimits.




(** ** The axis extent covers the data *)

Section AxisExtentCovers.
Context `{Engine}.
Import DataLayer.
Local Open Scope Q_scope.

Lemma d3_extent_rest_bounds (l : list jsnum) (a c : Q) :
  a <= c ->
  let '(a', c') := d3_extent_rest a c l in
  a' <= a /\ c <= c' /\ forall v, Num v ∈ l -> a' <= v <= c'.
Proof.
  revert a c. induction l as [|[|b] l IH]; intros a c Hac; cbn [d3_extent_rest].
  - split; [lra|]. split; [lra|]. intros v Hv. now apply elem_of_nil in Hv.
  - specialize (IH a c Hac). destruct (d3_extent_rest a c l) as [a' c'].
    destruct IH as (Ha & Hc & Hin). split; [exact Ha|]. split; [exact Hc|].
    intros v Hv. apply elem_of_cons in Hv as [Hv|Hv]; [discriminate|auto].
  - set (a1 := if Qltb b a then b else a). set (c1 := if Qltb c b then b else c).
    assert (Ha1 : a1 <= a /\ a1 <= b).
    { subst a1. destruct (Qltb b a) eqn:E.
      - apply Qltb_lt in E. lra.
      - apply Qltb_ge in E. lra. }
    assert (Hc1 : c <= c1 /\ b <= c1).
    { subst c1. destruct (Qltb c b) eqn:E.
      - apply Qltb_lt in E. lra.
      - apply Qltb_ge in E. lra. }
    specialize (IH a1 c1 ltac:(lra)). destruct (d3_extent_rest a1 c1 l) as [a' c'].
    destruct IH as (Ha & Hc & Hin). split; [lra|]. split; [lra|].
    intros v Hv. apply elem_of_cons in Hv as [Hv|Hv]; [|auto].
    injection Hv as ->. lra.
Qed.

(** [d3.extent] of values one of which is a number: two numbers that
    bound every number among the values. *)
Lemma d3_extent_bounds (l : list jsnum) (v0 : Q) :
  Num v0 ∈ l ->
  exists lo hi, d3_extent l = [Num lo; Num hi]
    /\ forall v, Num v ∈ l -> lo <= v <= hi.
Proof.
  induction l as [|[|b] l IH]; intros Hv0.
  - now apply elem_of_nil in Hv0.
  - apply elem_of_cons in Hv0 as [Hv0|Hv0]; [discriminate|].
    destruct (IH Hv0) as (lo & hi & Heq & Hb). exists lo, hi. split; [exact Heq|].
    intros v Hv. apply elem_of_cons in Hv as [Hv|Hv]; [discriminate|auto].
  - cbn [d3_extent]. pose proof (d3_extent_rest_bounds l b b ltac:(lra)) as Hr.
    destruct (d3_extent_rest b b l) as [a' c']. destruct Hr as (Ha & Hc & Hin).
    exists a', c'. split; [reflexivity|].
    intros v Hv. apply elem_of_cons in Hv as [Hv|Hv]; [|auto].
    injection Hv as ->. lra.
Qed.

(** The extent derived from the data, before [floor] and [ceiling]:
    two numbers that bound every numeric value of the field in the data
    and, when [min_extent] holds two numbers, both of them. *)
Lemma data_extent_covers (a : AxisLayout) (f : string) (rows : list row)
    (d0 : row) (v0 : Q) :
  d0 ∈ rows -> ToNumber (row_get d0 f) = Num v0 ->
  exists lo hi, data_extent a f rows = [Num lo; Num hi]
    /\ (forall d v, d ∈ rows -> ToNumber (row_get d f) = Num v -> lo <= v <= hi)
    /\ (forall me p q, min_extent a = Some me -> at_ me 0 = Num p -> at_ me 1 = Num q ->
          lo <= p <= hi /\ lo <= q <= hi).
Proof.
  intros Hd0 Hv0. unfold data_extent.
  set (vals := map (fun d => ToNumber (row_get d f)) rows).
  assert (Hin0 : Num v0 ∈ vals).
  { subst vals. apply list_elem_of_fmap. exists d0. split; [now symmetry|exact Hd0]. }
  destruct (d3_extent_bounds vals v0 Hin0) as (lo0 & hi0 & -> & Hb0).
  set (e1 := if numeric (lower_buffer a) then _ else _).
  set (e2 := if numeric (upper_buffer a) then _ else _).
  set (e3 := match min_extent a with Some _ => _ | None => _ end).
  assert (H1 : Num lo0 ∈ e1 /\ Num hi0 ∈ e1).
  { subst e1. destruct (numeric (lower_buffer a)); split;
      rewrite ?elem_of_app, !elem_of_cons; tauto. }
  assert (H2 : Num lo0 ∈ e2 /\ Num hi0 ∈ e2).
  { subst e2. destruct (numeric (upper_buffer a)); [|exact H1].
    split; apply elem_of_app; left; apply H1. }
  assert (H3 : Num lo0 ∈ e3 /\ Num hi0 ∈ e3
               /\ forall me p q, min_extent a = Some me -> at_ me 0 = Num p ->
                    at_ me 1 = Num q -> Num p ∈ e3 /\ Num q ∈ e3).
  { subst e3. destruct (min_extent a) as [me|].
    - destruct (negb (isNaN (at_ me 0)) && negb (isNaN (at_ me 1))) eqn:E.
      + split; [apply elem_of_app; left; apply H2|].
        split; [apply elem_of_app; left; apply H2|].
        intros me' p q [= <-] Hp Hq. rewrite Hp, Hq.
        split; apply elem_of_app; right; rewrite !elem_of_cons; tauto.
      + split; [apply H2|]. split; [apply H2|].
        intros me' p q [= <-] Hp Hq. rewrite Hp, Hq in E. discriminate.
    - split; [apply H2|]. split; [apply H2|]. discriminate. }
  destruct H3 as (Hlo & Hhi & Hme).
  destruct (d3_extent_bounds e3 lo0 Hlo) as (lo & hi & -> & Hb).
  exists lo, hi. split; [reflexivity|]. split.
  - intros d v Hd Hv.
    assert (Num v ∈ vals).
    { subst vals. apply list_elem_of_fmap. exists d. split; [now symmetry|exact Hd]. }
    pose proof (Hb0 v ltac:(assumption)). pose proof (Hb lo0 Hlo). pose proof (Hb hi0 Hhi). lra.
  - intros me p q Hm Hp Hq. destruct (Hme me p q Hm Hp Hq) as [Hpin Hqin].
    split; apply Hb; assumption.
Qed.

(** On an axis with a field and neither [floor] nor [ceiling], the
    extent returned bounds every numeric value the field takes in the
    data, whatever the buffers are, and both ends of a numeric
    [min_extent]. *)
Lemma getAxisExtent_covers_data (this : DataLayer) (dimension : string)
    (d0 : row) (v0 : Q) :
  dimension = "x"%string \/ dimension = "y"%string ->
  let a := axis_of this dimension in
  let f := prop_name (field a) in
  str_truthy (field a) = true ->
  numeric (floor a) = false -> numeric (ceiling a) = false ->
  d0 ∈ data this -> ToNumber (row_get d0 f) = Num v0 ->
  exists lo hi, getAxisExtent this dimension = Return [Num lo; Num hi]
    /\ (forall d v, d ∈ data this -> ToNumber (row_get d f) = Num v -> lo <= v <= hi)
    /\ (forall me p q, min_extent a = Some me -> at_ me 0 = Num p -> at_ me 1 = Num q ->
          lo <= p <= hi /\ lo <= q <= hi).
Proof.
  intros Hdim a f Hfield Hfloor Hceil Hd0 Hv0.
  destruct (data_extent_covers a f (data this) d0 v0 Hd0 Hv0) as (lo & hi & Heq & Hcov).
  exists lo, hi. split; [|exact Hcov].
  unfold getAxisExtent.
  assert (negb (String.eqb dimension "x" || String.eqb dimension "y") = false) as ->.
  { destruct Hdim as [-> | ->]; reflexivity. }
  fold (axis_of this dimension). fold a. rewrite Hfloor, Hceil, Hfield. cbn [andb].
  rewrite bool_decide_eq_false_2.
  - cbn [negb]. fold f. now rewrite Heq.
  - intros Hnil. rewrite Hnil in Hd0. now apply elem_of_nil in Hd0.
Qed.

End AxisExtentCovers.

Lemma getAxisExtent_covers_data_witness :
  exists lo hi,
    DataLayer.getAxisExtent (H := plain_engine) dragged_free_layer "x"
    = Return [Num lo; Num hi]
    /\ (forall d v, d ∈ DataLayer.data dragged_free_layer ->
          ToNumber (H := plain_engine) (row_get d "position") = Num v -> (lo <= v <= hi)%Q)
    /\ (forall me p q, Some [Num 0; Num 10] = Some me ->
          DataLayer.at_ me 0 = Num p -> DataLayer.at_ me 1 = Num q ->
          (lo <= p <= hi)%Q /\ (lo <= q <= hi)%Q).
Proof.
  apply (getAxisExtent_covers_data (H := plain_engine) dragged_free_layer "x"
           [("position"%string, VNumber (Num 3))] 3);
    [now left | reflexivity | reflexivity | reflexivity | | reflexivity].
  apply list_elem_of_here.
Defined.

(** ** The registry of transformation functions *)

Section TransformationFacts.
Import TransformationFunctions.
Local Open Scope string_scope.




Lemma append_cons (c : ascii) (s t : string) : String c s ++ t = String c (s ++ t).
Proof. reflexivity. Qed.

Lemma append_nil_l (s : string) : "" ++ s = s.
Proof. reflexivity. Qed.

Lemma append_nil_r (s : string) : s ++ "" = s.
Proof. induction s as [|c s IH]; [reflexivity|]. rewrite append_cons. now f_equal. Qed.

Lemma append_assoc (s t u : string) : (s ++ t) ++ u = s ++ (t ++ u).
Proof. induction s as [|c s IH]; [reflexivity|]. rewrite !append_cons. now f_equal. Qed.

(** The names found in a run without pipes that follows the run [cur]. *)
Lemma pipe_names_run (n rest cur : string) :
  Requester.all_chars (fun c => negb (Requester.is_pipe c)) n = true ->
  pipe_names (n ++ rest) (Some cur) = pipe_names rest (Some (cur ++ n)).
Proof.
  revert cur. induction n as [|c n IH]; intros cur Hall.
  - now rewrite append_nil_l, append_nil_r.
  - cbn in Hall. apply andb_true_iff in Hall as [Hc Hall].
    unfold Requester.is_pipe in Hc. apply negb_true_iff in Hc.
    rewrite append_cons. cbn [pipe_names]. rewrite Hc. cbn [option_map].
    rewrite (IH _ Hall). do 2 f_equal. now rewrite append_assoc.
Qed.

Lemma pipe_join_cons (n : string) (names : list string) :
  pipe_join (n :: names) = String "|" (n ++ pipe_join names).
Proof.
  unfold pipe_join. cbn [map]. destruct names as [|n' names].
  - cbn. now rewrite append_nil_r.
  - cbn [map String.concat]. cbn. reflexivity.
Qed.

Lemma pipe_names_join_from (names : list string) (cur : string) :
  Forall plain_name names ->
  pipe_names (pipe_join names) (Some cur)
  = ((if String.eqb cur "" then [] else [cur]) ++ names)%list.
Proof.
  intros Hall. revert cur. induction Hall as [|n names Hn Hall IH]; intros cur.
  - cbn. now rewrite app_nil_r.
  - rewrite pipe_join_cons. cbn [pipe_names]. cbn [Ascii.eqb Bool.eqb andb].
    f_equal. rewrite pipe_names_run by apply Hn. rewrite append_nil_l.
    rewrite IH. destruct Hn as [Hne _].
    apply String.eqb_neq in Hne. now rewrite Hne.
Qed.

(** The expression of [parseTransString] finds in [|n1|n2|...] the
    names [n1], [n2], ... in order. *)
Lemma pipe_names_join (names : list string) :
  Forall plain_name names -> pipe_names (pipe_join names) None = names.
Proof.
  intros Hall. destruct Hall as [|n names Hn Hall]; [reflexivity|].
  rewrite pipe_join_cons. cbn [pipe_names]. cbn [Ascii.eqb Bool.eqb andb app].
  rewrite pipe_names_run by apply Hn. rewrite append_nil_l.
  rewrite pipe_names_join_from by exact Hall.
  destruct Hn as [Hne _]. apply String.eqb_neq in Hne. now rewrite Hne.
Qed.


Lemma get_piped (transformations : gmap string transform) (names : list string) :
  names <> [] ->
  get transformations (Some (pipe_join names))
  = parseTransString transformations (pipe_join names).
Proof.
  destruct names as [|n names]; [congruence|]. intros _.
  rewrite pipe_join_cons. reflexivity.
Qed.



Lemma compose_apply_all (transformations : gmap string transform) (names : list string)
    (fs : list transform) (v : value) :
  Forall plain_name names ->
  Forall2 (fun n f => transformations !! n = Some f) names fs ->
  compose transformations names v = apply_all fs v.
Proof.
  intros Hplain Hfs. revert v. induction Hfs as [|n f names fs Hn Hfs IH]; intros v.
  - reflexivity.
  - apply Forall_cons in Hplain as [Hp Hplain].
    cbn [compose apply_all]. unfold parseTrans, getTrans, registry.
    assert (String.eqb n "" = false) as -> by (apply String.eqb_neq, Hp).
    rewrite Hn. cbn [then_]. destruct (f v) as [v'|e]; [|reflexivity].
    cbn [then_]. apply IH, Hplain.
Qed.

(** [get("|n1|n2|...")] with two or more registered names returns the
    function that applies [n1], then [n2], and so on, each to the result
    of the one before; the first that throws ends the call. *)
Lemma get_composes_in_order (transformations : gmap string transform) (names : list string)
    (fs : list transform) :
  Forall plain_name names ->
  Forall2 (fun n f => transformations !! n = Some f) names fs ->
  (2 <= length names)%nat ->
  exists t, get transformations (Some (pipe_join names)) = Return (Some t)
    /\ forall v, t v = apply_all fs v.
Proof.
  intros Hplain Hfs Hlen.
  exists (compose transformations names). split.
  - rewrite get_piped by (intros ->; cbn in Hlen; lia).
    unfold parseTransString. rewrite pipe_names_join by exact Hplain.
    destruct names as [|n1 [|n2 names]]; cbn in Hlen; try lia. reflexivity.
  - intros v. now apply compose_apply_all.
Qed.


End TransformationFacts.

(** ** The Requester and a namespace without a source *)

Section RequesterMissing.
Import Requester.
Context {State W : Type}.




End RequesterMissing.



Lemma get_composes_in_order_witness :
  exists t,
    TransformationFunctions.get example_registry
      (Some (pipe_join ["identity"%string; "scinotation"%string])) = Return (Some t)
    /\ forall v, t v = apply_all [(fun v => Return v); @scinotation plain_engine] v.
Proof.
  apply (get_composes_in_order example_registry ["identity"%string; "scinotation"%string]
           [(fun v => Return v); @scinotation plain_engine]).
  - repeat constructor; discriminate.
  - repeat constructor.
  - cbn. lia.
Defined.



(** ** Merging layouts *)

Section MergeFacts.
Import Layouts.

Lemma layout_nested_ind (P : layout -> Prop) :
  P LNull -> (forall b, P (LBool b)) -> (forall n, P (LNumber n)) ->
  (forall s, P (LString s)) ->
  (forall items, Forall P items -> P (LArray items)) ->
  (forall props, Forall (fun kv => P (snd kv)) props -> P (LObject props)) ->
  P LFunction ->
  forall v, P v.
Proof.
  intros Hnull Hbool Hnum Hstr Harr Hobj Hfun. fix IH 1. intros [| b | n | s | items | props |].
  - exact Hnull.
  - apply Hbool.
  - apply Hnum.
  - apply Hstr.
  - apply Harr. induction items as [|i items IHi]; constructor; [apply IH|exact IHi].
  - apply Hobj. induction props as [|[k v] props IHp]; constructor; [apply IH|exact IHp].
  - exact Hfun.
Qed.

Lemma assoc_set_same {A : Type} (o : list (string * A)) (k : string) (v : A) :
  assoc_get o k = Some v -> assoc_set o k v = o.
Proof.
  induction o as [|[k' v'] o IH]; cbn; [discriminate|].
  destruct (String.eqb k' k) eqn:E.
  - intros [= ->]. reflexivity.
  - intros Hg. now rewrite IH.
Qed.

Lemma assoc_set_fresh {A : Type} (o : list (string * A)) (k : string) (v : A) :
  k ∉ o.*1 -> assoc_set o k v = o ++ [(k, v)].
Proof.
  induction o as [|[k' v'] o IH]; cbn; [reflexivity|].
  rewrite not_elem_of_cons. intros [Hne Hnot].
  destruct (String.eqb k' k) eqn:E; [apply String.eqb_eq in E; congruence|].
  now rewrite IH.
Qed.

Lemma merge_into_cons (c : list (string * layout)) (k : string) (dv : layout)
    (ps : list (string * layout)) :
  merge_into c (LObject ((k, dv) :: ps))
  = let cv := assoc_get c k in
    if is_function (custom_type cv) || is_function (default_type dv) then
      Throw (Msg "LocusZoom.Layouts.merge encountered an unsupported property type")
    else
      match custom_type cv, cv, default_type dv with
      | TUndefined, _, _ =>
          merge_into (assoc_set c k (default LNull (copy dv))) (LObject ps)
      | TObject, Some (LObject cprops), TObject =>
          then_ (merge_into cprops dv) (fun merged =>
          merge_into (assoc_set c k (LObject merged)) (LObject ps))
      | _, _, _ => merge_into c (LObject ps)
      end.
Proof. reflexivity. Qed.

(** What one property of the default does to the custom layout, when
    the merge returns. *)
Lemma merge_into_cons_inv (c c' : list (string * layout)) (k : string) (dv : layout)
    (ps : list (string * layout)) :
  merge_into c (LObject ((k, dv) :: ps)) = Return c' ->
  default_type dv <> TFunction /\
  exists cm, merge_into cm (LObject ps) = Return c' /\
    ((custom_type (assoc_get c k) = TUndefined /\
      cm = assoc_set c k (default LNull (copy dv)))
     \/ (exists cp merged, assoc_get c k = Some (LObject cp) /\ default_type dv = TObject
           /\ merge_into cp dv = Return merged /\ cm = assoc_set c k (LObject merged))
     \/ (exists v, assoc_get c k = Some v /\ cm = c
           /\ (kept_value v \/ (exists cp, v = LObject cp) /\ default_type dv <> TObject))).
Proof.
  rewrite merge_into_cons. cbv zeta.
  destruct (is_function (default_type dv)) eqn:Hdf;
    [now rewrite orb_true_r|].
  assert (Hnf : default_type dv <> TFunction) by (intros E; rewrite E in Hdf; discriminate).
  rewrite orb_false_r. intros Hm0. split; [exact Hnf|]. revert Hm0.
  destruct (assoc_get c k) as [[| b | n | s | items | cp |]|] eqn:Hcv; cbn [custom_type is_function].
  - intros Hm. eexists. split; [exact Hm|]. left. now split.
  - intros Hm. exists c. split.
    + revert Hm. now destruct (default_type dv).
    + right; right. exists (LBool b). repeat split; try reflexivity. now left.
  - intros Hm. exists c. split.
    + revert Hm. now destruct (default_type dv).
    + right; right. exists (LNumber n). repeat split; try reflexivity. now left.
  - intros Hm. exists c. split.
    + revert Hm. now destruct (default_type dv).
    + right; right. exists (LString s). repeat split; try reflexivity. now left.
  - intros Hm. exists c. split.
    + revert Hm. now destruct (default_type dv).
    + right; right. exists (LArray items). repeat split; try reflexivity. now left.
  - assert (default_type dv = TObject \/ default_type dv <> TObject) as [Hdt|Hdt]
      by (destruct (default_type dv); (now left) || (right; discriminate)).
    + rewrite Hdt. destruct (merge_into cp dv) as [merged|e] eqn:Hsub;
        [|cbn [then_]; discriminate].
      cbn [then_]. intros Hm. eexists. split; [exact Hm|]. right; left.
      exists cp, merged. repeat split; try reflexivity; assumption.
    + intros Hm. exists c. split.
      * revert Hm. destruct (default_type dv) eqn:E; try congruence; auto.
      * right; right. exists (LObject cp). repeat split. right. split; [eauto|exact Hdt].
  - discriminate.
  - intros Hm. eexists. split; [exact Hm|]. left. now split.
Qed.

(** A returning merge leaves alone the properties the default does not
    have. *)
Lemma merge_into_frame (ps : list (string * layout)) (c c' : list (string * layout))
    (k : string) :
  merge_into c (LObject ps) = Return c' -> k ∉ ps.*1 ->
  assoc_get c' k = assoc_get c k.
Proof.
  revert c. induction ps as [|[k0 dv] ps IH]; intros c Hm Hk.
  - cbn in Hm. now injection Hm as <-.
  - cbn in Hk. apply not_elem_of_cons in Hk as [Hne Hk].
    apply merge_into_cons_inv in Hm as (_ & cm & Hm & Hcase).
    rewrite (IH cm Hm Hk).
    destruct Hcase as [(_ & ->) | [(cp & merged & _ & _ & _ & ->) | (v & _ & -> & _)]];
      try reflexivity; apply assoc_get_set_ne; congruence.
Qed.

Lemma merge_into_kept (ps : list (string * layout)) (c c' : list (string * layout))
    (k : string) (v : layout) :
  merge_into c (LObject ps) = Return c' ->
  assoc_get c k = Some v -> kept_value v ->
  assoc_get c' k = Some v.
Proof.
  revert c. induction ps as [|[k0 dv] ps IH]; intros c Hm Hv Hkept.
  - cbn in Hm. now injection Hm as <-.
  - apply merge_into_cons_inv in Hm as (_ & cm & Hm & Hcase).
    apply (IH cm Hm); [|exact Hkept].
    destruct (decide (k0 = k)) as [-> | Hne].
    + destruct Hcase as [(Hu & _) | [(cp & merged & Hc & _) | (v' & _ & -> & _)]].
      * rewrite Hv in Hu. destruct v; cbn in Hkept, Hu; (contradiction || discriminate).
      * rewrite Hv in Hc. injection Hc as ->. contradiction.
      * exact Hv.
    + destruct Hcase as [(_ & ->) | [(cp & merged & _ & _ & _ & ->) | (v' & _ & -> & _)]];
        try exact Hv; rewrite assoc_get_set_ne by exact Hne; exact Hv.
Qed.

Lemma merge_into_present (ps : list (string * layout)) (c c' : list (string * layout))
    (k : string) :
  merge_into c (LObject ps) = Return c' ->
  is_Some (assoc_get c k) \/ k ∈ ps.*1 -> is_Some (assoc_get c' k).
Proof.
  revert c. induction ps as [|[k0 dv] ps IH]; intros c Hm Hk.
  - cbn in Hm. injection Hm as <-. destruct Hk as [Hk|Hk]; [exact Hk|].
    now apply elem_of_nil in Hk.
  - apply merge_into_cons_inv in Hm as (_ & cm & Hm & Hcase).
    apply (IH cm Hm).
    assert (Hstep : forall v, is_Some (assoc_get c k) \/ k = k0 ->
              is_Some (assoc_get (assoc_set c k0 v) k)).
    { intros v Hc. destruct (decide (k0 = k)) as [-> | Hne].
      - rewrite assoc_get_set_eq. eauto.
      - rewrite assoc_get_set_ne by exact Hne. destruct Hc; [assumption|congruence]. }
    cbn in Hk. rewrite elem_of_cons in Hk.
    destruct Hcase as [(_ & ->) | [(cp & merged & _ & _ & _ & ->) | (v' & Hv' & -> & _)]].
    + destruct Hk as [Hk | [Hk | Hk]]; [left; apply Hstep; auto .. | now right].
    + destruct Hk as [Hk | [Hk | Hk]]; [left; apply Hstep; auto .. | now right].
    + destruct Hk as [Hk | [-> | Hk]]; [now left | left; rewrite Hv'; eauto | now right].
Qed.

(** A returning merge never changes a boolean, a number, a text or an
    array that the custom layout holds, never changes a property the
    default does not have, and leaves every property of the default
    present. *)
Lemma merge_custom_wins (custom_layout default_layout merged : list (string * layout)) :
  merge custom_layout default_layout = Return merged ->
  (forall k v, assoc_get custom_layout k = Some v -> kept_value v ->
     assoc_get merged k = Some v)
  /\ (forall k, k ∉ default_layout.*1 -> assoc_get merged k = assoc_get custom_layout k)
  /\ (forall k, k ∈ default_layout.*1 -> is_Some (assoc_get merged k)).
Proof.
  intros Hm. split; [|split].
  - intros k v. now apply merge_into_kept with (ps := default_layout).
  - intros k. now apply merge_into_frame.
  - intros k Hk. apply (merge_into_present default_layout custom_layout merged k Hm). now right.
Qed.

(** *** Merging into an empty layout *)

Lemma merge_into_fresh (ps : list (string * layout)) (acc : list (string * layout)) :
  NoDup ps.*1 -> (forall k, k ∈ ps.*1 -> k ∉ acc.*1) ->
  Forall (fun kv => default_type (snd kv) <> TFunction) ps ->
  merge_into acc (LObject ps)
  = Return (acc ++ map (fun kv => (fst kv, default LNull (copy (snd kv)))) ps).
Proof.
  revert acc. induction ps as [|[k dv] ps IH]; intros acc Hnd Hfresh Hnf.
  - cbn. now rewrite app_nil_r.
  - cbn in Hnd. apply NoDup_cons in Hnd as [Hk Hnd].
    apply Forall_cons in Hnf as [Hdv Hnf]. cbn in Hdv.
    assert (Hacc : k ∉ acc.*1) by (apply Hfresh; cbn; apply list_elem_of_here).
    rewrite merge_into_cons. cbv zeta.
    assert (assoc_get acc k = None) as -> by now apply assoc_get_None.
    cbn [custom_type is_function orb].
    assert (is_function (default_type dv) = false) as ->
      by (destruct (default_type dv); cbn; congruence).
    rewrite assoc_set_fresh by exact Hacc.
    rewrite IH; [now rewrite <- app_assoc | exact Hnd | | exact Hnf].
    intros k' Hk'. rewrite fmap_app. cbn. rewrite elem_of_app, list_elem_of_singleton.
    intros [Hin | ->]; [|contradiction].
    revert Hin. apply Hfresh. cbn. now apply list_elem_of_further.
Qed.



(** *** Merging twice *)

Lemma copy_props_map (ps : list (string * layout)) :
  Forall (fun kv => default_type (snd kv) <> TFunction) ps ->
  omap (fun kv => match copy (snd kv) with
                  | Some c => Some (fst kv, c)
                  | None => None
                  end) ps
  = map (fun kv => (fst kv, default LNull (copy (snd kv)))) ps.
Proof.
  induction 1 as [|[k v] ps Hv _ IH]; [reflexivity|].
  cbn [omap list_omap map fst snd]. cbn in Hv.
  destruct v; cbn in Hv |- *; try congruence; try (now rewrite <- IH);
    destruct n; cbn; now rewrite <- IH.
Qed.

Lemma function_free_props (ps : list (string * layout)) :
  function_free (LObject ps) = true ->
  Forall (fun kv => default_type (snd kv) <> TFunction) ps
  /\ Forall (fun kv => function_free (snd kv) = true) ps.
Proof.
  cbn. rewrite forallb_forall. intros Hf. split; apply List.Forall_forall; intros kv Hin.
  - specialize (Hf kv Hin). destruct (snd kv); cbn in Hf |- *; congruence.
  - now apply Hf.
Qed.

Lemma merge_into_settled (d : layout) :
  function_free d = true -> distinct_keys d = true ->
  forall c0 c1, merge_into c0 d = Return c1 -> merge_into c1 d = Return c1.
Proof.
  induction d as [| b | n | s | items _ | props IH |] using layout_nested_ind;
    intros Hff Hdk c0 c1 Hm; try reflexivity.
  destruct (function_free_props props Hff) as [Hnf Hffs].
  cbn [distinct_keys] in Hdk. apply andb_true_iff in Hdk as [Hnd Hdks].
  apply bool_decide_eq_true in Hnd. rewrite forallb_forall in Hdks.
  clear Hff. revert c0 c1 Hm.
  induction props as [|[k dv] ps IHps]; intros c0 c1 Hm.
  - reflexivity.
  - apply Forall_cons in IH as [IHdv IH]. cbn in IHdv.
    apply Forall_cons in Hnf as [Hnfdv Hnf]. apply Forall_cons in Hffs as [Hffdv Hffs].
    cbn in Hnfdv, Hffdv, Hnd. apply NoDup_cons in Hnd as [Hk Hnd].
    assert (Hdkdv : distinct_keys dv = true) by (apply (Hdks (k, dv)); now left).
    specialize (IHps IH Hnd (fun kv Hin => Hdks kv (or_intror Hin)) Hnf Hffs).
    specialize (IHdv Hffdv Hdkdv).
    pose proof Hm as Hm0.
    apply merge_into_cons_inv in Hm as (_ & cm & Hm & Hcase).
    pose proof (IHps cm c1 Hm) as Hrest.
    pose proof (merge_into_frame ps cm c1 k Hm Hk) as Hframe.
    rewrite merge_into_cons. cbv zeta. rewrite Hframe.
    assert (is_function (default_type dv) = false) as ->
      by (destruct (default_type dv); cbn; congruence).
    rewrite orb_false_r.
    destruct Hcase as [(_ & ->) | [(cp & merged & Hcp & Hdt & Hsub & ->) | (v & Hv & -> & Hkind)]].
    + rewrite assoc_get_set_eq in Hframe |- *.
      destruct dv as [| b | n | s | items | dp |];
        cbn [copy from_option id custom_type default_type is_function] in Hframe |- *;
        try exact Hrest; try (cbn in Hffdv; congruence).
      * now rewrite assoc_set_same.
      * destruct n; cbn [from_option id custom_type is_function]; [|exact Hrest].
        now rewrite assoc_set_same.
      * destruct (function_free_props dp Hffdv) as [Hnfdp _].
        cbn [distinct_keys] in Hdkdv. apply andb_true_iff in Hdkdv as [Hnddp _].
        apply bool_decide_eq_true in Hnddp.
        rewrite copy_props_map in Hframe |- * by exact Hnfdp.
        assert (Hempty : merge_into [] (LObject dp)
                         = Return (map (fun kv => (fst kv, default LNull (copy (snd kv)))) dp)).
        { rewrite merge_into_fresh; [reflexivity | exact Hnddp | | exact Hnfdp].
          intros k' _. apply not_elem_of_nil. }
        cbn [from_option id custom_type is_function] in Hframe |- *.
        rewrite (IHdv _ _ Hempty). cbn [then_]. now rewrite assoc_set_same.
    + rewrite assoc_get_set_eq in Hframe |- *. cbn [custom_type is_function].
      rewrite Hdt. rewrite (IHdv _ _ Hsub). cbn [then_]. now rewrite assoc_set_same.
    + rewrite Hv. destruct Hkind as [Hkept | [[cp ->] Hdt]].
      * destruct v; cbn in Hkept; try contradiction; cbn [custom_type is_function];
          destruct (default_type dv); exact Hrest.
      * cbn [custom_type is_function]. destruct (default_type dv); try exact Hrest; congruence.
Qed.

(** Merging is idempotent: when the default holds no function under its
    objects and has each key once, merging it again into the layout a
    merge returned changes nothing. *)
Lemma merge_idempotent (custom_layout default_layout merged : list (string * layout)) :
  function_free (LObject default_layout) = true ->
  distinct_keys (LObject default_layout) = true ->
  merge custom_layout default_layout = Return merged ->
  merge merged default_layout = Return merged.
Proof. intros Hff Hdk. unfold merge. now apply merge_into_settled. Qed.

End MergeFacts.

Lemma merge_custom_wins_witness :
  (forall k v, assoc_get example_custom k = Some v -> kept_value v ->
     assoc_get example_merged k = Some v)
  /\ (forall k, k ∉ example_default.*1 -> assoc_get example_merged k = assoc_get example_custom k)
  /\ (forall k, k ∈ example_default.*1 -> is_Some (assoc_get example_merged k)).
Proof. exact (merge_custom_wins example_custom example_default example_merged eq_refl). Defined.


Lemma merge_idempotent_witness :
  Layouts.merge example_merged example_default = Return example_merged.
Proof.
  exact (merge_idempotent example_custom example_default example_merged
           eq_refl eq_refl eq_refl).
Defined.

(** ** Scale functions *)

Section ScaleFacts.
Context `{Engine}.
Import ScaleFunctions.
Local Open Scope Q_scope.

Lemma bin_step_stay (x prev curr : Q) :
  x < prev \/ x < curr -> bin_step x (Num prev) (Num curr) = Num prev.
Proof.
  intros Hx. unfold bin_step. cbn [js_lt js_ge].
  destruct (Qltb x prev) eqn:E1; [reflexivity|]. apply Qltb_ge in E1.
  destruct Hx as [Hx|Hx]; [lra|].
  assert (Qle_bool prev x = true) as -> by now apply Qle_bool_iff.
  assert (Qltb x curr = true) as -> by now apply Qltb_lt.
  reflexivity.
Qed.

Lemma bin_step_advance (x prev curr : Q) :
  prev <= x -> curr <= x -> bin_step x (Num prev) (Num curr) = Num curr.
Proof.
  intros Hp Hc. unfold bin_step. cbn [js_lt js_ge].
  assert (Qltb x prev = false) as -> by now apply Qltb_ge.
  assert (Qltb x curr = false) as -> by now apply Qltb_ge.
  now rewrite andb_false_r.
Qed.

Lemma fold_bin_step_stay (x prev : Q) (rest : list Q) :
  (x < prev \/ Forall (fun b => x < b) rest) ->
  Forall (fun b => prev < b) rest ->
  fold_left (bin_step x) (map Num rest) (Num prev) = Num prev.
Proof.
  intros Hx Hs. induction Hs as [|c rest Hc Hs IH]; [reflexivity|].
  cbn [map fold_left]. rewrite bin_step_stay.
  - apply IH. destruct Hx as [Hx|Hx]; [now left|right]. now apply Forall_cons in Hx.
  - destruct Hx as [Hx|Hx]; [now left|right]. now apply Forall_cons in Hx.
Qed.

Lemma filter_above (x : Q) (rest : list Q) :
  Forall (fun b => x < b) rest -> filter (fun b => Qle_bool b x = true) rest = [].
Proof.
  induction 1 as [|c rest Hc _ IH]; [reflexivity|].
  rewrite filter_cons_False; [exact IH|].
  intros E. apply Qle_bool_iff in E. lra.
Qed.

Lemma sorted_above (x c : Q) (rest : list Q) :
  x < c -> Forall (fun b => c < b) rest -> Forall (fun b => x < b) rest.
Proof.
  intros Hx Hall. eapply Forall_impl; [exact Hall|]. intros b Hb. cbn in Hb |- *. lra.
Qed.

(** The fold from a break that is at most [x] ends at the last break
    that is at most [x]. *)
Lemma fold_bin_step_sorted (x : Q) (rest : list Q) (prev : Q) :
  StronglySorted Qlt (prev :: rest) -> prev <= x ->
  exists t,
    (prev :: rest) !! length (filter (fun b => Qle_bool b x = true) rest) = Some t
    /\ fold_left (bin_step x) (map Num rest) (Num prev) = Num t.
Proof.
  revert prev. induction rest as [|c rest IH]; intros prev Hs Hp.
  - exists prev. split; reflexivity.
  - apply StronglySorted_inv in Hs as [Hs Hall].
    apply Forall_cons in Hall as [Hc Hall].
    destruct (Qlt_le_dec x c) as [Hx|Hx].
    + exists prev. pose proof (StronglySorted_inv Hs) as [_ Hrest].
      rewrite filter_cons_False by (intros E; apply Qle_bool_iff in E; lra).
      rewrite filter_above by (now apply sorted_above with c).
      split; [reflexivity|].
      apply fold_bin_step_stay; [|now constructor].
      right. constructor; [exact Hx|now apply sorted_above with c].
    + destruct (IH c Hs Hx) as (t & Ht & Hfold). exists t.
      rewrite filter_cons_True by now apply Qle_bool_iff.
      cbn [length map fold_left]. rewrite bin_step_advance by assumption.
      split; [exact Ht|exact Hfold].
Qed.

Lemma indexOf_sorted (bs : list Q) (i : nat) (t : Q) :
  StronglySorted Qlt bs -> bs !! i = Some t ->
  indexOf num_eq (map Num bs) (Num t) = Some i.
Proof.
  intros Hs. revert i. induction Hs as [|b bs Hs IH Hall]; intros i Hi; [discriminate|].
  destruct i as [|i]; cbn in Hi |- *.
  - injection Hi as ->. now rewrite Qeq_bool_refl.
  - assert (Hlt : b < t).
    { rewrite List.Forall_forall in Hall. apply Hall.
      apply list_elem_of_In. eapply list_elem_of_lookup_2. exact Hi. }
    assert (Qeq_bool b t = false) as ->.
    { apply not_true_is_false. intros E. apply Qeq_bool_iff in E. lra. }
    now rewrite (IH i Hi).
Qed.

(** With ascending breaks and a value that is a number [x],
    [numerical_bin] returns the entry of [values] at the index of the last
    break that is at most [x], and the first entry when [x] is below every
    break. *)
Lemma numerical_bin_sorted (parameters : Parameters) (v : value) (x : Q)
    (bs : list Q) (vals : list value) :
  breaks parameters = Some (map Num bs) ->
  values parameters = Some vals ->
  bs <> [] -> StronglySorted Qlt bs ->
  nullish v = false -> ToNumber v = Num x ->
  numerical_bin parameters v = Return (default VUndefined (vals !! bin_index bs x)).
Proof.
  intros Hb Hv Hne Hs Hnull Hx. unfold numerical_bin.
  assert (is_undefined v = false) as -> by (destruct v; cbn in Hnull |- *; congruence).
  rewrite Hnull, Hx, Hb, Hv. cbn [isNaN orb].
  destruct bs as [|first rest]; [congruence|]. cbn [map]. fold (bin_step x).
  assert (Hth : exists t, (first :: rest) !! bin_index (first :: rest) x = Some t
                 /\ fold_left (bin_step x) (map Num rest) (Num first) = Num t).
  { unfold bin_index. destruct (Qlt_le_dec x first) as [Hlt|Hle].
    - exists first. pose proof (StronglySorted_inv Hs) as [_ Hall].
      rewrite filter_cons_False by (intros E; apply Qle_bool_iff in E; lra).
      rewrite filter_above by (now apply sorted_above with first).
      split; [reflexivity|]. apply fold_bin_step_stay; [now left|exact Hall].
    - rewrite filter_cons_True by now apply Qle_bool_iff.
      cbn [length pred]. now apply fold_bin_step_sorted. }
  destruct Hth as (t & Ht & ->).
  change (Num first :: map Num rest) with (map Num (first :: rest)).
  now rewrite (indexOf_sorted (first :: rest) _ t Hs Ht).
Qed.

End ScaleFacts.

(** ** Scalable parameters *)

Section ScalableFacts.
Import ScalableParameter.
Context (functions : gmap string ScaleFunctions.scale_function) (data : row).

Lemma resolve_array_cons (item : scalable) (items : list scalable) :
  resolveScalableParameter functions (SArray (item :: items)) data
  = then_ (resolveScalableParameter functions item data) (fun r =>
      if ScaleFunctions.nullish r
      then match items with
           | [] => Return r
           | _ => resolveScalableParameter functions (SArray items) data
           end
      else Return r).
Proof.
  cbn [resolveScalableParameter ScaleFunctions.nullish].
  destruct (resolveScalableParameter functions item data) as [r|e]; [|reflexivity].
  cbn [then_]. destruct items as [|item' items].
  - now destruct (ScaleFunctions.nullish r).
  - now destruct (ScaleFunctions.nullish r).
Qed.

(** An array layout resolves to the first value, other than [null] and
    [undefined], that one of its items resolves to; the items after it
    are not looked at.  When every item resolves to [null] or
    [undefined], so does the array. *)
Lemma resolveScalableParameter_first_value (before after : list scalable)
    (item : scalable) (v : value) :
  Forall (resolves_null functions data) before ->
  (resolveScalableParameter functions item data = Return v ->
   ScaleFunctions.nullish v = false ->
   resolveScalableParameter functions (SArray (before ++ item :: after)) data = Return v)
  /\ resolves_null functions data (SArray before).
Proof.
  intros Hbefore. split.
  - intros Hitem Hv. induction Hbefore as [|b before (r & Hr & Hn) _ IH].
    + cbn [app]. rewrite resolve_array_cons, Hitem. cbn [then_]. now rewrite Hv.
    + cbn [app]. rewrite resolve_array_cons, Hr. cbn [then_]. rewrite Hn.
      destruct (before ++ item :: after) eqn:E; [now destruct before|]. exact IH.
  - induction Hbefore as [|b before (r & Hr & Hn) _ IH].
    + exists VNull. split; reflexivity.
    + unfold resolves_null in IH |- *. rewrite resolve_array_cons, Hr. cbn [then_].
      rewrite Hn. destruct before; [eauto|exact IH].
Qed.

End ScalableFacts.

Lemma numerical_bin_sorted_witness :
  ScaleFunctions.numerical_bin (H := plain_engine)
    (ScaleFunctions.mkParameters VUndefined VUndefined VUndefined
       (Some (map Num [0; 2 # 10; 4 # 10]%Q))
       (Some [VString "#357ebd"; VString "#46b8da"; VString "#5cb85c"])
       VUndefined None)
    (VNumber (Num (3 # 10)))
  = Return (default VUndefined
              ([VString "#357ebd"; VString "#46b8da"; VString "#5cb85c"]
                 !! bin_index [0; 2 # 10; 4 # 10]%Q (3 # 10))).
Proof.
  apply (numerical_bin_sorted (H := plain_engine) _ (VNumber (Num (3 # 10))) (3 # 10)
           [0; 2 # 10; 4 # 10]%Q
           [VString "#357ebd"; VString "#46b8da"; VString "#5cb85c"]);
    try reflexivity; [discriminate|].
  repeat (constructor; try reflexivity).
Defined.

Lemma resolveScalableParameter_first_value_witness :
  let functions := ScaleFunctions.functions (H := plain_engine) in
  let data := [("ld:state"%string, VNumber (Num (3 # 10)))] in
  let before :=
    [ScalableParameter.SObject (Some "if"%string) (Some "ld:isrefvar"%string)
       (Some (ScaleFunctions.mkParameters (VNumber (Num 1)) (VString "#9632b8") VUndefined
                None None VUndefined None))] in
  (ScalableParameter.resolveScalableParameter functions
     (ScalableParameter.SString "#B8B8B8") data = Return (VString "#B8B8B8") ->
   ScaleFunctions.nullish (VString "#B8B8B8") = false ->
   ScalableParameter.resolveScalableParameter functions
     (ScalableParameter.SArray (before ++ ScalableParameter.SString "#B8B8B8" :: [])) data
   = Return (VString "#B8B8B8"))
  /\ resolves_null functions data (ScalableParameter.SArray before).
Proof.
  cbv zeta.
  apply (resolveScalableParameter_first_value (ScaleFunctions.functions (H := plain_engine))
           [("ld:state"%string, VNumber (Num (3 # 10)))] _ []
           (ScalableParameter.SString "#B8B8B8") (VString "#B8B8B8")).
  constructor; [|constructor]. exists VNull. split; reflexivity.
Defined.

(** ** The reference variant the LD source asks for *)

Section RefVarFacts.
Context `{Engine}.
Import LDSource.
Local Open Scope Q_scope.

Lemma column_value_numeric (f : string) (r : row) :
  ToNumber (row_get r f) <> NaN -> ToNumber (row_get r f) = Num (column_value f r).
Proof. unfold column_value. now destruct (ToNumber (row_get r f)). Qed.

(** The loop keeps the first row with the greatest value so far. *)
Lemma extreme_loop_first_greatest (f : string) (x pre : list row) (ev : value)
    (ei : nat) (re : row) (m : Q) :
  (forall r, r ∈ x -> ToNumber (row_get r f) <> NaN) ->
  ToNumber ev = Num m -> m == column_value f re ->
  first_greatest f pre ei re ->
  exists r, first_greatest f (pre ++ x)
              (extreme_loop x f (Num 1) (length pre) ev ei) r.
Proof.
  revert pre ev ei re m. induction x as [|xi x IH]; intros pre ev ei re m Hnum Hev Hm Hfg.
  - exists re. now rewrite app_nil_r.
  - cbn [extreme_loop].
    assert (Hxi : ToNumber (row_get xi f) = Num (column_value f xi)).
    { apply column_value_numeric, Hnum, list_elem_of_here. }
    assert (Hless : js_less ev (VNumber (js_mul (ToNumber (row_get xi f)) (Num 1)))
                    = Qltb m (column_value f xi * 1)).
    { rewrite Hxi. destruct ev; cbn in Hev |- *; try rewrite Hev; try reflexivity;
        try discriminate. now injection Hev as ->. }
    rewrite Hless.
    replace (S (length pre)) with (length (pre ++ [xi])) by (rewrite length_app; cbn; lia).
    rewrite (cons_middle xi pre x), app_assoc.
    destruct Hfg as [Hre Hall].
    destruct (Qltb m (column_value f xi * 1)) eqn:E.
    + apply Qltb_lt in E.
      apply (IH (pre ++ [xi]) _ (length pre) xi (column_value f xi * 1)).
      * intros r Hr. apply Hnum. now apply list_elem_of_further.
      * now rewrite Hxi.
      * ring.
      * split; [now rewrite lookup_app_r, Nat.sub_diag by lia|].
        intros j rj Hj. apply lookup_app_Some in Hj as [Hj | [Hlen Hj]].
        -- destruct (Hall j rj Hj) as [Hle _]. split; [lra|]. intros _. lra.
        -- apply list_lookup_singleton_Some in Hj as [Hj0 <-].
           split; [lra|]. intros Hlt. lia.
    + apply Qltb_ge in E.
      apply (IH (pre ++ [xi]) ev ei re m).
      * intros r Hr. apply Hnum. now apply list_elem_of_further.
      * exact Hev.
      * exact Hm.
      * split; [now apply lookup_app_l_Some|].
        intros j rj Hj. apply lookup_app_Some in Hj as [Hj | [Hlen Hj]].
        -- now apply Hall.
        -- apply list_lookup_singleton_Some in Hj as [Hj0 <-].
           split; [lra|]. intros Hlt. apply lookup_lt_Some in Hre. lia.
Qed.

Lemma findExtremeValue_first_greatest (f : string) (rows : list row) :
  f <> ""%string -> rows <> [] ->
  (forall r, r ∈ rows -> ToNumber (row_get r f) <> NaN) ->
  exists k r, findExtremeValue (BodyRows rows) (Some f) None = Return k
    /\ first_greatest f rows k r.
Proof.
  intros Hf Hne Hnum. destruct rows as [|x0 rest]; [congruence|].
  unfold findExtremeValue, str_or, str_truthy.
  assert (String.eqb f "" = false) as -> by now apply String.eqb_neq.
  cbn [negb prop_name default from_option id js_or truthy].
  destruct (extreme_loop_first_greatest f rest [x0] (row_get x0 f) 0 x0 (column_value f x0))
    as [r Hr].
  - intros r Hr. apply Hnum. now apply list_elem_of_further.
  - apply column_value_numeric, Hnum, list_elem_of_here.
  - reflexivity.
  - split; [reflexivity|]. intros [|j] rj Hj; [|destruct j; discriminate].
    injection Hj as <-. split; [lra|lia].
  - eexists _, r. split; [reflexivity|exact Hr].
Qed.

(** When the request names no reference variant (the field is [state],
    and neither the state nor the header of the chain holds one), the
    source is given its id and pvalue columns, and every row of the chain
    holds a number in the pvalue column: [getURL] writes to the header the
    id of the first row with the greatest value in that column, and leaves
    the body as it is. *)
Lemma getURL_best_variant (ToString : value -> string) (url : string) (params : Params)
    (state : State) (chain : Chain) (fields : list string) (idf pf : string)
    (rows : list row) :
  ldin (findRequestedFields fields []) = Some "state"%string ->
  value_truthy (ldrefvar state) = false ->
  header chain !! "ldrefvar"%string = None ->
  id_field params = Some idf -> idf <> ""%string ->
  pvalue_field params = Some pf -> pf <> ""%string ->
  body chain = BodyRows rows -> rows <> [] ->
  (forall r, r ∈ rows -> ToNumber (row_get r pf) <> NaN) ->
  exists k r address,
    getURL ToString url params state chain fields
    = Return (address,
              mkChain (<["ldrefvar"%string := row_get r idf]> (header chain)) (body chain))
    /\ first_greatest pf rows k r.
Proof.
  intros Hld Hstate Hheader Hid Hidne Hpf Hpfne Hbody Hne Hnum.
  destruct (findExtremeValue_first_greatest pf rows Hpfne Hne Hnum) as (k & r & Hk & Hfg).
  exists k, r. unfold getURL. rewrite Hld, Hheader. cbn [str_value js_loose_eq].
  rewrite String.eqb_refl. cbn [default from_option id].
  assert (Hbest : value_or (ldrefvar state) (value_or VUndefined (VString "best"))
                  = VString "best")
    by (unfold value_or; rewrite Hstate; reflexivity).
  rewrite Hbest. cbn [js_loose_eq]. change (String.eqb "best" "best") with true. cbv iota.
  assert (Hkeys : pvalue (findMergeFields params chain) = Some pf
                  /\ LDSource.id (findMergeFields params chain) = Some idf).
  { unfold findMergeFields. rewrite Hbody, Hid, Hpf. destruct rows; [congruence|].
    cbn [pvalue LDSource.id]. unfold str_or, str_truthy.
    assert (String.eqb pf "" = false) as -> by now apply String.eqb_neq.
    assert (String.eqb idf "" = false) as -> by now apply String.eqb_neq.
    cbn [negb]. assert (String.eqb idf "" = false) as -> by now apply String.eqb_neq.
    assert (String.eqb pf "" = false) as -> by now apply String.eqb_neq.
    now split. }
  destruct Hkeys as [-> ->]. unfold str_truthy.
  assert (String.eqb pf "" = false) as -> by now apply String.eqb_neq.
  assert (String.eqb idf "" = false) as -> by now apply String.eqb_neq.
  cbn [negb orb]. rewrite Hbody, Hk. cbn [then_].
  destruct Hfg as [Hr Hall]. rewrite Hr. cbn [then_ prop_name default from_option id].
  eexists. split; [reflexivity|]. now split.
Qed.

End RefVarFacts.

Lemma getURL_best_variant_witness :
  exists k r address,
    LDSource.getURL (H := plain_engine) (fun _ => ""%string) "/ld/"
      (LDSource.mkParams (Some "variant"%string) None (Some "log_pvalue"%string))
      example_ld_state (mkChain ∅ (BodyRows example_assoc_rows))
      ["isrefvar"%string; "state"%string]
    = Return (address,
              mkChain (<["ldrefvar"%string := row_get r "variant"]> ∅)
                      (BodyRows example_assoc_rows))
    /\ first_greatest (H := plain_engine) "log_pvalue" example_assoc_rows k r.
Proof.
  apply (getURL_best_variant (H := plain_engine) (fun _ => ""%string) "/ld/"
           (LDSource.mkParams (Some "variant"%string) None (Some "log_pvalue"%string))
           example_ld_state (mkChain ∅ (BodyRows example_assoc_rows))
           ["isrefvar"%string; "state"%string] "variant" "log_pvalue" example_assoc_rows);
    try reflexivity; try discriminate.
  intros r Hr. repeat (apply elem_of_cons in Hr as [-> | Hr]; [discriminate|]).
  now apply elem_of_nil in Hr.
Defined.

(** ** The fields the association source adds to a request *)

Section PreGetDataFacts.
Import AssociationSource.

(** [preGetData] puts the id field and [position] in front of the
    requested fields when they are not among them, each under its own
    name and without a transformation: the three arrays grow by the same
    entries, the requested fields keep their output names and
    transformations, and a second call adds nothing. *)
Lemma preGetData_aligned (id_field : option string) (fields outnames : list string)
    (trans : list (option transform)) :
  let idf := prop_name (str_or id_field (Some "id"%string)) in
  exists added,
    preGetData id_field fields outnames trans
    = (added ++ fields, added ++ outnames, replicate (length added) None ++ trans)
    /\ (forall x, x ∈ added <-> (x = idf \/ x = "position"%string) /\ x ∉ fields)
    /\ idf ∈ added ++ fields /\ "position"%string ∈ added ++ fields
    /\ preGetData id_field (added ++ fields) (added ++ outnames)
         (replicate (length added) None ++ trans)
       = (added ++ fields, added ++ outnames, replicate (length added) None ++ trans).
Proof.
  intros idf. unfold preGetData. fold idf. cbn [fold_left].
  destruct (decide (idf ∈ fields)) as [Hi|Hi];
    [rewrite (bool_decide_eq_true_2 _ Hi) | rewrite (bool_decide_eq_false_2 _ Hi)].
  - destruct (decide ("position"%string ∈ fields)) as [Hp|Hp];
      [rewrite (bool_decide_eq_true_2 _ Hp) | rewrite (bool_decide_eq_false_2 _ Hp)].
    + exists []. cbn [app length replicate].
      rewrite (bool_decide_eq_true_2 _ Hi), (bool_decide_eq_true_2 _ Hp).
      split; [reflexivity|]. split; [|auto].
      intros x. split; [intros Hx; now apply elem_of_nil in Hx|].
      intros [[-> | ->] Hn]; contradiction.
    + exists ["position"%string]. cbn [app length replicate].
      rewrite bool_decide_eq_true_2 by now apply list_elem_of_further.
      rewrite bool_decide_eq_true_2 by apply list_elem_of_here.
      split; [reflexivity|]. split; [|split; [now apply list_elem_of_further|]].
      * intros x. rewrite list_elem_of_singleton. split; [intros ->; auto|].
        intros [[-> | ->] Hn]; [contradiction|reflexivity].
      * split; [apply list_elem_of_here|reflexivity].
  - destruct (decide ("position"%string ∈ idf :: fields)) as [Hp|Hp];
      [rewrite (bool_decide_eq_true_2 _ Hp) | rewrite (bool_decide_eq_false_2 _ Hp)].
    + exists [idf]. cbn [app length replicate].
      rewrite bool_decide_eq_true_2 by apply list_elem_of_here.
      rewrite (bool_decide_eq_true_2 _ Hp).
      split; [reflexivity|]. split; [|split; [apply list_elem_of_here|]].
      * intros x. rewrite list_elem_of_singleton. split; [intros ->; auto|].
        intros [[-> | ->] Hn]; [reflexivity|].
        apply elem_of_cons in Hp as [Hp | Hp]; [exact Hp|contradiction].
      * split; [exact Hp|reflexivity].
    + exists ["position"%string; idf]. cbn [app length replicate].
      rewrite bool_decide_eq_true_2
        by (apply list_elem_of_further, list_elem_of_here).
      rewrite bool_decide_eq_true_2 by apply list_elem_of_here.
      apply not_elem_of_cons in Hp as [Hne Hp].
      split; [reflexivity|].
      split; [|split; [apply list_elem_of_further, list_elem_of_here|]].
      * intros x. rewrite elem_of_cons, list_elem_of_singleton. split.
        -- intros [-> | ->]; auto.
        -- intros [[-> | ->] Hn]; auto.
      * split; [apply list_elem_of_here|reflexivity].
Qed.

End PreGetDataFacts.

(** ** The identifiers of elements *)

Section ElementIdFacts.
Import ElementId.
Local Open Scope string_scope.

Lemma all_chars_append (p : ascii -> bool) (s t : string) :
  Requester.all_chars p (s ++ t) = Requester.all_chars p s && Requester.all_chars p t.
Proof.
  induction s as [|c s IH]; [reflexivity|].
  rewrite append_cons. cbn [Requester.all_chars]. now rewrite IH, andb_assoc.
Qed.

Lemma replace_chars_append (p : ascii -> bool) (b s t : string) :
  replace_chars p b (s ++ t) = replace_chars p b s ++ replace_chars p b t.
Proof.
  induction s as [|c s IH]; [reflexivity|].
  rewrite append_cons. cbn [replace_chars]. rewrite IH.
  destruct (p c); [|reflexivity]. now rewrite append_assoc.
Qed.

Lemma replace_separators_clean (s : string) :
  Requester.all_chars (fun c => negb (is_separator c)) (replace_chars is_separator "_" s)
  = true.
Proof.
  induction s as [|c s IH]; [reflexivity|]. cbn [replace_chars].
  destruct (is_separator c) eqn:E.
  - change ("_" ++ replace_chars is_separator "_" s)
      with (String "_" (replace_chars is_separator "_" s)).
    cbn [Requester.all_chars]. now rewrite IH.
  - cbn [Requester.all_chars]. now rewrite E, IH.
Qed.

Lemma remove_non_word_chars (s : string) :
  Requester.all_chars LDSource.is_word_char
    (replace_chars (fun c => negb (LDSource.is_word_char c)) "" s) = true.
Proof.
  induction s as [|c s IH]; [reflexivity|]. cbn [replace_chars].
  destruct (LDSource.is_word_char c) eqn:E; cbn [negb].
  - cbn [Requester.all_chars]. now rewrite E, IH.
  - exact IH.
Qed.

Lemma word_char_not_separator (c : ascii) :
  LDSource.is_word_char c = true -> is_separator c = false.
Proof. destruct c as [[] [] [] [] [] [] [] []]; vm_compute; congruence. Qed.

Lemma replace_separators_word (s : string) :
  Requester.all_chars LDSource.is_word_char s = true ->
  replace_chars is_separator "_" s = s.
Proof.
  induction s as [|c s IH]; [reflexivity|]. cbn [Requester.all_chars replace_chars].
  intros Hs. apply andb_true_iff in Hs as [Hc Hs].
  now rewrite (word_char_not_separator c Hc), (IH Hs).
Qed.

(** An identifier [getElementId] returns holds no colon, dot, bracket or
    comma.  For an element that is an object whose id is the text [v], it
    is the base id of the layer with each of these characters replaced by
    an underscore, a hyphen, and the word characters of [v]. *)
Lemma getElementId_clean (this : DataLayer) (element : element) (s : string) :
  getElementId this element = Return s ->
  Requester.all_chars (fun c => negb (is_separator c)) s = true
  /\ forall o v, element = EObject o ->
       row_get o (prop_name (str_or (id_field this) (Some "id"))) = VString v ->
       s = replace_chars is_separator "_" (getBaseId this) ++ "-"
           ++ replace_chars (fun c => negb (LDSource.is_word_char c)) "" v
       /\ Requester.all_chars LDSource.is_word_char
            (replace_chars (fun c => negb (LDSource.is_word_char c)) "" v) = true.
Proof.
  unfold getElementId. intros Hs. split.
  - destruct (match element with EString _ => _ | _ => _ end) as [eid|e]; [|discriminate].
    cbn [then_] in Hs. injection Hs as <-. apply replace_separators_clean.
  - intros o v -> Hv. rewrite Hv in Hs. cbn [then_] in Hs. injection Hs as <-.
    rewrite !replace_chars_append. cbn [replace_chars is_separator].
    rewrite (replace_separators_word _ (remove_non_word_chars v)).
    split; [reflexivity|apply remove_non_word_chars].
Qed.

End ElementIdFacts.

Lemma preGetData_aligned_witness :
  let idf := prop_name (str_or None (Some "id"%string)) in
  exists added,
    AssociationSource.preGetData None ["pvalue"%string] ["assoc:pvalue"%string] [None]
    = (added ++ ["pvalue"%string], added ++ ["assoc:pvalue"%string],
       replicate (length added) None ++ [None])
    /\ (forall x, x ∈ added <-> (x = idf \/ x = "position"%string) /\ x ∉ ["pvalue"%string])
    /\ idf ∈ added ++ ["pvalue"%string] /\ "position"%string ∈ added ++ ["pvalue"%string]
    /\ AssociationSource.preGetData None (added ++ ["pvalue"%string])
         (added ++ ["assoc:pvalue"%string]) (replicate (length added) None ++ [None])
       = (added ++ ["pvalue"%string], added ++ ["assoc:pvalue"%string],
          replicate (length added) None ++ [None]).
Proof.
  exact (preGetData_aligned None ["pvalue"%string] ["assoc:pvalue"%string] [None]).
Defined.

Lemma getElementId_clean_witness :
  let this := ElementId.mkDataLayer "plot" "panel.1" "layer" (Some "variant"%string) in
  let s := "plot_panel_1_layer-1100_AC"%string in
  Requester.all_chars (fun c => negb (ElementId.is_separator c)) s = true
  /\ forall o v, ElementId.EObject [("variant"%string, VString "1:100_A/C")] = ElementId.EObject o ->
       row_get o (prop_name (str_or (ElementId.id_field this) (Some "id"%string))) = VString v ->
       s = (ElementId.replace_chars ElementId.is_separator "_" (ElementId.getBaseId this) ++ "-"
            ++ ElementId.replace_chars (fun c => negb (LDSource.is_word_char c)) "" v)%string
       /\ Requester.all_chars LDSource.is_word_char
            (ElementId.replace_chars (fun c => negb (LDSource.is_word_char c)) "" v) = true.
Proof.
  exact (getElementId_clean
           (ElementId.mkDataLayer "plot" "panel.1" "layer" (Some "variant"%string))
           (ElementId.EObject [("variant"%string, VString "1:100_A/C")])
           "plot_panel_1_layer-1100_AC" eq_refl).
Defined.

(** ** The order of the panels *)

Section PanelOrderFacts.
Import PanelOrder.

Lemma ltb_nat_neg (n : nat) : (Z.of_nat n <? 0)%Z = false.
Proof. apply Z.ltb_ge. lia. Qed.

Lemma array_get_middle (l1 l2 : list string) (x : string) :
  array_get ((Some <$> (l1 ++ x :: l2))) (Z.of_nat (length l1)) = Some x.
Proof.
  unfold array_get. rewrite ltb_nat_neg.
  rewrite Nat2Z.id, list_lookup_fmap, list_lookup_middle by reflexivity. reflexivity.
Qed.

Lemma array_get_outside (l : list string) (i : Z) :
  (i < 0 \/ Z.of_nat (length l) <= i)%Z -> array_get ((Some <$> l)) i = None.
Proof.
  intros Hi. unfold array_get. destruct (Z.ltb_spec i 0) as [|Hge]; [reflexivity|].
  rewrite list_lookup_fmap, lookup_ge_None_2 by lia. reflexivity.
Qed.

Lemma array_set_middle (l1 l2 : list string) (x v : string) :
  array_set ((Some <$> (l1 ++ x :: l2))) (Z.of_nat (length l1)) v
  = (Some <$> (l1 ++ v :: l2)).
Proof.
  unfold array_set. rewrite ltb_nat_neg.
  rewrite Nat2Z.id, length_fmap, length_app. cbn [length].
  assert ((length l1 <? length l1 + S (length l2))%nat = true) as ->
    by (apply Nat.ltb_lt; lia).
  rewrite <- list_fmap_insert. f_equal.
  rewrite insert_app_r_alt by lia. rewrite Nat.sub_diag. reflexivity.
Qed.

(** [applyPanelYIndexesToPanelLayouts] on an array without a gap or a
    repetition, whose ids are all ids of panels. *)
Lemma apply_from_ordered (ids : list string) (idx : nat) (ps : gmap string (option Z)) :
  NoDup ids -> (forall id, id ∈ ids -> is_Some (ps !! id)) ->
  exists ps',
    apply_from ((Some <$> ids)) idx ps = Return ps'
    /\ (forall i id, ids !! i = Some id -> ps' !! id = Some (Some (Z.of_nat (idx + i))))
    /\ (forall id, id ∉ ids -> ps' !! id = ps !! id).
Proof.
  revert idx ps. induction ids as [|pid ids IH]; intros idx ps Hnd Hdom.
  - exists ps. split; [reflexivity|]. split; [discriminate|reflexivity].
  - apply NoDup_cons in Hnd as [Hpid Hnd]. rewrite fmap_cons. cbn [apply_from].
    destruct (Hdom pid (list_elem_of_here _ _)) as [y ->].
    destruct (IH (S idx) (<[pid := Some (Z.of_nat idx)]> ps) Hnd) as (ps' & -> & Ha & Hb).
    { intros id Hid. destruct (decide (id = pid)) as [-> | Hne].
      - rewrite lookup_insert_eq. eauto.
      - rewrite lookup_insert_ne by congruence. apply Hdom. now apply list_elem_of_further. }
    exists ps'. split; [reflexivity|]. split.
    + intros [|i] id Hi.
      * injection Hi as <-. rewrite (Hb pid Hpid), lookup_insert_eq. do 3 f_equal. lia.
      * rewrite (Ha i id Hi). do 3 f_equal. lia.
    + intros id Hid. apply not_elem_of_cons in Hid as [Hne Hid].
      rewrite (Hb id Hid). now rewrite lookup_insert_ne by congruence.
Qed.

(** The plot after the indexes are applied to an array that lists the
    panels of the plot, each once. *)
Lemma apply_indexes_ordered (ps : gmap string (option Z)) (ids : list string) :
  NoDup ids -> Forall (fun id => id <> ""%string) ids ->
  (forall id, is_Some (ps !! id) <-> id ∈ ids) ->
  exists p', applyPanelYIndexesToPanelLayouts (mkPlot ps ((Some <$> ids))) = Return p'
    /\ ordered p' ids
    /\ (forall id, id ∉ ids -> panels p' !! id = ps !! id).
Proof.
  intros Hnd Hne Hdom. unfold applyPanelYIndexesToPanelLayouts. cbn [panels panel_ids_by_y_index].
  destruct (apply_from_ordered ids 0 ps Hnd) as (ps' & -> & Ha & Hb);
    [intros id Hid; now apply Hdom|].
  eexists. split; [reflexivity|]. cbn [then_ panels]. split; [|exact Hb].
  unfold ordered. cbn [panels panel_ids_by_y_index].
  split; [reflexivity|]. split; [exact Hnd|]. split; [exact Hne|]. split.
  - intros id. destruct (decide (id ∈ ids)) as [Hin|Hout].
    + apply list_elem_of_lookup in Hin as [i Hi]. rewrite (Ha i id Hi). split; [|eauto].
      intros _. eapply list_elem_of_lookup_2. exact Hi.
    + rewrite (Hb id Hout). apply Hdom.
  - intros i id Hi. now rewrite (Ha i id Hi).
Qed.

Lemma ordered_eq (p : Plot) (ids : list string) (ps : gmap string (option Z)) :
  ordered p ids ->
  (forall i id, ids !! i = Some id -> ps !! id = Some (Some (Z.of_nat i))) ->
  (forall id, id ∉ ids -> ps !! id = None) ->
  mkPlot ps ((Some <$> ids)) = p.
Proof.
  intros (Harr & _ & _ & Hdom & Hidx) Ha Hb. destruct p as [ps0 arr]. cbn in *.
  subst arr. f_equal. apply map_eq. intros id.
  destruct (decide (id ∈ ids)) as [Hin|Hout].
  - apply list_elem_of_lookup in Hin as [i Hi]. now rewrite (Ha i id Hi), (Hidx i id Hi).
  - rewrite (Hb id Hout). symmetry. apply eq_None_not_Some. now rewrite Hdom.
Qed.

Lemma swap_NoDup (above below : list string) (a b : string) :
  NoDup (above ++ a :: b :: below) -> NoDup (above ++ b :: a :: below).
Proof. intros Hnd. eapply NoDup_Permutation_proper; [|exact Hnd]. now rewrite Permutation_swap. Qed.

Lemma swap_elem (above below : list string) (a b x : string) :
  x ∈ above ++ a :: b :: below <-> x ∈ above ++ b :: a :: below.
Proof. rewrite !elem_of_app, !elem_of_cons. tauto. Qed.

Lemma swap_Forall (P : string -> Prop) (above below : list string) (a b : string) :
  Forall P (above ++ a :: b :: below) -> Forall P (above ++ b :: a :: below).
Proof.
  rewrite !Forall_app, !Forall_cons. tauto.
Qed.

(** The array after a panel at the place [length above + 1] moves up, or
    a panel at the place [length above] moves down. *)
Lemma moved_array (above below : list string) (a b v w : string) :
  array_set
    (array_set ((Some <$> (above ++ a :: b :: below))) (Z.of_nat (S (length above))) v)
    (Z.of_nat (length above)) w
  = (Some <$> (above ++ w :: v :: below))
  /\ array_set
       (array_set ((Some <$> (above ++ a :: b :: below))) (Z.of_nat (length above)) v)
       (Z.of_nat (S (length above))) w
     = (Some <$> (above ++ v :: w :: below)).
Proof.
  split.
  - replace (above ++ a :: b :: below) with ((above ++ [a]) ++ b :: below)
      by now rewrite <- app_assoc.
    replace (S (length above)) with (length (above ++ [a]))
      by (rewrite length_app; cbn; lia).
    rewrite array_set_middle, <- app_assoc. cbn [app]. now rewrite array_set_middle.
  - rewrite array_set_middle.
    replace (above ++ v :: b :: below) with ((above ++ [v]) ++ b :: below)
      by now rewrite <- app_assoc.
    replace (S (length above)) with (length (above ++ [v]))
      by (rewrite length_app; cbn; lia).
    rewrite array_set_middle, <- app_assoc. reflexivity.
Qed.

Lemma move_up_down (p : Plot) (above below : list string) (other id : string) :
  ordered p (above ++ other :: id :: below) ->
  exists p',
    moveUp p id (Some (Z.of_nat (S (length above)))) = Return p'
    /\ ordered p' (above ++ id :: other :: below)
    /\ moveDown p' id (Some (Z.of_nat (length above))) = Return p.
Proof.
  intros Hord. pose proof Hord as (Harr & Hnd & Hne & Hdom & Hidx).
  assert (Hother : other <> ""%string).
  { apply Forall_app in Hne as [_ Hne]. now apply Forall_cons in Hne as [? _]. }
  assert (Hid : id <> ""%string).
  { apply Forall_app in Hne as [_ Hne]. apply Forall_cons in Hne as [_ Hne].
    now apply Forall_cons in Hne as [? _]. }
  destruct (apply_indexes_ordered (panels p) (above ++ id :: other :: below))
    as (p' & Hp' & Hord' & Hrest).
  { now apply swap_NoDup. }
  { now apply swap_Forall. }
  { intros x. rewrite Hdom. apply swap_elem. }
  exists p'. split; [|split; [exact Hord'|]].
  - unfold moveUp. cbn [default from_option Datatypes.id]. rewrite Harr.
    replace (Z.of_nat (S (length above)) - 1)%Z with (Z.of_nat (length above)) by lia.
    rewrite array_get_middle. cbn [str_truthy prop_name default from_option Datatypes.id set_at].
    apply String.eqb_neq in Hother. rewrite Hother. cbn [negb].
    destruct (moved_array above below other id other id) as [-> _]. exact Hp'.
  - pose proof Hord' as (Harr' & Hnd' & Hne' & Hdom' & Hidx').
    unfold moveDown. cbn [default from_option Datatypes.id]. rewrite Harr'.
    replace (above ++ id :: other :: below) with ((above ++ [id]) ++ other :: below)
      by now rewrite <- app_assoc.
    replace (Z.of_nat (length above) + 1)%Z with (Z.of_nat (length (above ++ [id])))
      by (rewrite length_app; cbn; lia).
    rewrite array_get_middle. cbn [str_truthy prop_name default from_option Datatypes.id set_at].
    apply String.eqb_neq in Hother. rewrite Hother. cbn [negb].
    rewrite <- app_assoc. cbn [app].
    replace (Z.of_nat (length (above ++ [id]))) with (Z.of_nat (S (length above)))
      by (rewrite length_app; cbn; lia).
    destruct (moved_array above below id other other id) as [_ ->].
    destruct (apply_indexes_ordered (panels p') (above ++ other :: id :: below))
      as (p'' & -> & Hord'' & Hrest''); [exact Hnd | exact Hne | |].
    { intros x. rewrite Hdom'. apply swap_elem. }
    f_equal. pose proof Hord'' as (Harr'' & _ & _ & Hdom'' & Hidx'').
    destruct p'' as [ps'' arr'']. cbn in Harr''. subst arr''.
    apply (ordered_eq p _ ps'' Hord).
    + exact Hidx''.
    + intros x Hx. apply eq_None_not_Some. cbn in Hdom''. now rewrite Hdom''.
Qed.

(** A panel below another moves up past it, the array and the
    [y_index] of every panel follow, and moving it down again restores the
    plot. *)
Lemma moveUp_then_moveDown (p : Plot) (above below : list string) (other id : string) :
  ordered p (above ++ other :: id :: below) ->
  exists p',
    moveUp p id (Some (Z.of_nat (S (length above)))) = Return p'
    /\ ordered p' (above ++ id :: other :: below)
    /\ moveDown p' id (Some (Z.of_nat (length above))) = Return p.
Proof. exact (move_up_down p above below other id). Qed.

(** The first panel does not move up and the last does not move
    down. *)
Lemma move_at_the_ends (p : Plot) (ids : list string) (id : string) :
  (ordered p (id :: ids) -> moveUp p id (Some 0%Z) = Return p)
  /\ (ordered p (ids ++ [id]) ->
      moveDown p id (Some (Z.of_nat (length ids))) = Return p).
Proof.
  split; intros (Harr & _); unfold moveUp, moveDown; cbn [default from_option Datatypes.id];
    rewrite Harr, array_get_outside; try reflexivity.
  - left. lia.
  - right. rewrite length_app. cbn. lia.
Qed.

(** *** Adding and removing a panel *)

Lemma indexOf_middle (above below : list string) (id : string) :
  id ∉ above -> indexOf ((Some <$> (above ++ id :: below))) id = Some (length above).
Proof.
  induction above as [|a above IH]; intros Hid; cbn [app length]; rewrite ?fmap_cons; cbn [indexOf].
  - now rewrite bool_decide_eq_true_2.
  - apply not_elem_of_cons in Hid as [Hne Hid].
    rewrite bool_decide_eq_false_2 by congruence. now rewrite (IH Hid).
Qed.

(** [removePanel] takes the panel out of the array and out of the
    panels, and leaves the [y_index] of the others as it was: the panels
    below the one removed keep an index that is one more than their place,
    so the order is the one [ordered] describes only when the panel
    removed was the last. *)
Lemma removePanel_keeps_indexes (p : Plot) (above below : list string) (id : string) :
  ordered p (above ++ id :: below) ->
  exists p',
    removePanel p id = Return p'
    /\ panel_ids_by_y_index p' = (Some <$> (above ++ below))
    /\ panels p' !! id = None
    /\ (forall j x, above !! j = Some x -> panels p' !! x = Some (Some (Z.of_nat j)))
    /\ (forall j x, below !! j = Some x ->
          panels p' !! x = Some (Some (Z.of_nat (length above + 1 + j))))
    /\ (ordered p' (above ++ below) <-> below = []).
Proof.
  intros (Harr & Hnd & Hne & Hdom & Hidx).
  assert (Hnotin : (id ∉ above) /\ (id ∉ below)).
  { apply NoDup_app in Hnd as (_ & Hdisj & Hnd'). apply NoDup_cons in Hnd' as [Hb _].
    split; [|exact Hb]. intros Ha. apply (Hdisj id Ha), list_elem_of_here. }
  destruct Hnotin as [Hna Hnb].
  unfold removePanel. destruct (proj2 (Hdom id)) as [y ->];
    [apply elem_of_app; right; apply list_elem_of_here|].
  rewrite Harr, (indexOf_middle above below id Hna).
  eexists. split; [reflexivity|]. cbn [panels panel_ids_by_y_index].
  assert (Habove : forall j x, above !! j = Some x ->
            delete id (panels p) !! x = Some (Some (Z.of_nat j))).
  { intros j x Hj. rewrite lookup_delete_ne.
    - apply Hidx. now apply lookup_app_l_Some.
    - intros ->. apply Hna. eapply list_elem_of_lookup_2. exact Hj. }
  assert (Hbelow : forall j x, below !! j = Some x ->
            delete id (panels p) !! x = Some (Some (Z.of_nat (length above + 1 + j)))).
  { intros j x Hj. rewrite lookup_delete_ne.
    - apply Hidx. rewrite lookup_app_r by lia.
      replace (length above + 1 + j - length above)%nat with (S j) by lia. exact Hj.
    - intros ->. apply Hnb. eapply list_elem_of_lookup_2. exact Hj. }
  assert (Hids : delete (length above) (Some <$> (above ++ id :: below))
                 = Some <$> (above ++ below))
    by (rewrite <- list_fmap_delete; now rewrite delete_middle).
  split; [exact Hids|].
  split; [apply lookup_delete_eq|]. split; [exact Habove|]. split; [exact Hbelow|].
  split.
  - intros (_ & _ & _ & _ & Hidx'). destruct below as [|b below]; [reflexivity|].
    exfalso. specialize (Hidx' (length above) b). cbn [panels] in Hidx'.
    rewrite list_lookup_middle in Hidx' by reflexivity.
    rewrite (Hbelow 0%nat b eq_refl) in Hidx'. specialize (Hidx' eq_refl).
    injection Hidx'. lia.
  - intros ->. rewrite app_nil_r in *. split; [exact Hids|].
    cbn [panels]. apply NoDup_app in Hnd as (Hnda & _ & _).
    apply Forall_app in Hne as [Hnea _].
    split; [exact Hnda|]. split; [exact Hnea|]. split; [|exact Habove].
    intros x. destruct (decide (x = id)) as [-> | Hx].
    + rewrite lookup_delete_eq. split; [intros [? ?]; discriminate|contradiction].
    + rewrite lookup_delete_ne by congruence. rewrite Hdom, elem_of_app, list_elem_of_singleton.
      tauto.
Qed.




Lemma three_panels_ordered :
  ordered three_panels ["association"; "genes"; "intervals"]%string.
Proof.
  split; [reflexivity|]. split; [apply (bool_decide_unpack _); vm_compute; exact I|].
  split; [repeat constructor; discriminate|]. split.
  - intros x. unfold three_panels. cbn [panels].
    rewrite !lookup_insert_is_Some', lookup_empty, !elem_of_cons, elem_of_nil.
    split.
    + intros [<- | [<- | [<- | H]]]; auto. now destruct H.
    + intros [-> | [-> | [-> | []]]]; auto.
  - intros [|[|[|i]]] x Hx; try discriminate; injection Hx as <-; reflexivity.
Qed.

End PanelOrderFacts.

Lemma moveUp_then_moveDown_witness :
  exists p',
    PanelOrder.moveUp three_panels "intervals" (Some (Z.of_nat (S (length ["association"%string]))))
    = Return p'
    /\ ordered p' (["association"%string] ++ "intervals"%string :: "genes"%string :: [])
    /\ PanelOrder.moveDown p' "intervals" (Some (Z.of_nat (length ["association"%string])))
       = Return three_panels.
Proof.
  exact (moveUp_then_moveDown three_panels ["association"%string] [] "genes" "intervals"
           three_panels_ordered).
Defined.

Lemma removePanel_keeps_indexes_witness :
  exists p',
    PanelOrder.removePanel three_panels "association" = Return p'
    /\ PanelOrder.panel_ids_by_y_index p' = (Some <$> ([] ++ ["genes"; "intervals"]%string))
    /\ PanelOrder.panels p' !! "association"%string = None
    /\ (forall j x, ([] : list string) !! j = Some x ->
          PanelOrder.panels p' !! x = Some (Some (Z.of_nat j)))
    /\ (forall j x, ["genes"; "intervals"]%string !! j = Some x ->
          PanelOrder.panels p' !! x
          = Some (Some (Z.of_nat (length ([] : list string) + 1 + j))))
    /\ (ordered p' ([] ++ ["genes"; "intervals"]%string)
        <-> ["genes"; "intervals"]%string = []).
Proof.
  exact (removePanel_keeps_indexes three_panels [] ["genes"; "intervals"]%string
           "association" three_panels_ordered).
Defined.


(** ** The two default parsers on the two shapes of one table *)

Section ParsersAgree.
Import Source.

Lemma assoc_get_fmap {A B : Type} (g : A -> B) (o : list (string * A)) (k : string) :
  assoc_get ((fun kv => (fst kv, g (snd kv))) <$> o) k = g <$> assoc_get o k.
Proof.
  induction o as [|[k' v] o IH]; [reflexivity|].
  rewrite fmap_cons. cbn [assoc_get fst snd]. now destruct (String.eqb k' k).
Qed.

Lemma table_row_get (cols : list (string * list value)) (i : nat) (f : string) :
  row_get (table_row cols i) f
  = default VUndefined (default [] (assoc_get cols f) !! i).
Proof.
  unfold row_get, table_row.
  rewrite (assoc_get_fmap (fun arr => default VUndefined (arr !! i))).
  destruct (assoc_get cols f); reflexivity.
Qed.

Lemma build_record_ext (cell cell' : nat -> string -> value) (fields outnames : list string)
    (trans : list (option transform)) (j : nat) (record : row) :
  (forall j f, cell j f = cell' j f) ->
  build_record cell fields outnames trans j record
  = build_record cell' fields outnames trans j record.
Proof.
  intros Hext. revert j record. induction fields as [|f fields IH]; intros j record;
    [reflexivity|].
  cbn [build_record]. rewrite Hext.
  destruct (apply_trans (trans_at trans j) (cell' j f)); [|reflexivity].
  cbn [then_]. apply IH.
Qed.

(** A row of [parseObjectsToObjects] builds the record the column loop
    builds, and marks the fields it defines. *)
Lemma objects_record_build (xi : row) (fields outnames : list string)
    (trans : list (option transform)) (j : nat) (record : row) (ff : list bool) :
  objects_record xi fields outnames trans j record ff
  = then_ (build_record (fun _ f => row_get xi f) fields outnames trans j record)
          (fun record' => Return (record', row_marks xi fields j ff)).
Proof.
  revert j record ff. induction fields as [|f fields IH]; intros j record ff; [reflexivity|].
  cbn [objects_record build_record row_marks].
  destruct (apply_trans (trans_at trans j) (row_get xi f)); [|reflexivity].
  cbn [then_]. apply IH.
Qed.

Lemma objects_rows_table (cols : list (string * list value)) (fields outnames : list string)
    (trans : list (option transform)) (i n : nat) (ff : list bool) :
  objects_rows (table_rows cols i n) fields outnames trans ff
  = then_ (arrays_rows cols fields outnames trans i n) (fun records =>
      Return (records, rows_marks (table_rows cols i n) fields ff)).
Proof.
  revert i ff. induction n as [|n IH]; intros i ff; [reflexivity|].
  unfold table_rows. cbn [seq]. rewrite fmap_cons. fold (table_rows cols (S i) n).
  cbn [objects_rows arrays_rows]. rewrite objects_record_build.
  rewrite (build_record_ext _ (fun _ f => default VUndefined (default [] (assoc_get cols f) !! i)))
    by (intros; apply table_row_get).
  destruct (build_record _ fields outnames trans 0 []) as [record|e]; [|reflexivity].
  cbn [then_]. rewrite IH.
  destruct (arrays_rows cols fields outnames trans (S i) n) as [records|e]; reflexivity.
Qed.

Lemma check_fields_in_present (x : list (string * list value)) (fields outnames : list string)
    (i : nat) :
  Forall (fun f => is_Some (assoc_get x f)) fields ->
  check_fields_in x fields outnames i = Return tt.
Proof.
  intros Hall. revert i. induction Hall as [|f fields [arr Hf] _ IH]; intros i; [reflexivity|].
  cbn [check_fields_in]. rewrite Hf. apply IH.
Qed.

Lemma check_found_all (ff : list bool) (fields outnames : list string) (i : nat) :
  Forall (fun b => b = true) ff -> check_found ff fields outnames i = Return tt.
Proof.
  intros Hall. revert i. induction Hall as [|b ff -> _ IH]; intros i; [reflexivity|].
  cbn [check_found]. apply IH.
Qed.

(** The two parsers agree on the two shapes of one table: for an object
    of arrays with at least two columns and [n >= 1] rows ([n] the length
    of the second column), in which every requested field is a column that
    holds a value in its first row, [parseArraysToObjects] returns, or
    throws, what [parseObjectsToObjects] does on the array of the [n] rows
    of the table, whatever the transformations are.  With no row the two
    differ: the first returns no record, the second reports the first
    requested field as not found. *)
Lemma parsers_agree (k1 k2 : string) (c1 c2 : list value)
    (more : list (string * list value)) (fields outnames : list string)
    (trans : list (option transform)) :
  let cols := (k1, c1) :: (k2, c2) :: more in
  Forall (fun f => exists arr v, assoc_get cols f = Some arr /\ arr !! 0%nat = Some v
                                 /\ v <> VUndefined) fields ->
  ((1 <= length c2)%nat ->
   parseArraysToObjects cols fields outnames trans
   = parseObjectsToObjects (table_rows cols 0 (length c2)) fields outnames trans)
  /\ (length c2 = 0%nat -> parseArraysToObjects cols fields outnames trans = Return []
      /\ forall f, fields !! 0%nat = Some f ->
           parseObjectsToObjects (table_rows cols 0 (length c2)) fields outnames trans
           = Throw (not_found f (outnames !! 0%nat))).
Proof.
  intros cols Hfields.
  assert (Hcheck : check_fields_in cols fields outnames 0 = Return tt).
  { apply check_fields_in_present. eapply Forall_impl; [exact Hfields|].
    intros f (arr & _ & -> & _). eauto. }
  split.
  - intros Hn. unfold parseArraysToObjects, parseObjectsToObjects.
    rewrite Hcheck. cbn [then_ second_length cols].
    rewrite objects_rows_table.
    destruct (arrays_rows cols fields outnames trans 0 (length c2)) as [records|e];
      [|reflexivity].
    cbn [then_]. rewrite check_found_all; [reflexivity|].
    apply Forall_lookup. intros j b Hj.
    assert (Hlt : (j < length fields)%nat).
    { apply lookup_lt_Some in Hj. now rewrite rows_marks_length, length_replicate in Hj. }
    apply lookup_lt_is_Some in Hlt as [f Hf].
    rewrite List.Forall_forall in Hfields.
    destruct (Hfields f) as (arr & v & Harr & Hv & Hdef);
      [apply list_elem_of_In; eapply list_elem_of_lookup_2; exact Hf|].
    assert (Htrue : rows_marks (table_rows cols 0 (length c2)) fields
                      (replicate (length fields) false) !! j = Some true).
    { apply (rows_marks_lookup_true _ fields _ j f Hf).
      - rewrite length_replicate. eapply lookup_lt_Some. exact Hf.
      - right. exists (table_row cols 0). split.
        + unfold table_rows. apply list_elem_of_fmap. exists 0%nat. split; [reflexivity|].
          apply elem_of_seq. lia.
        + rewrite table_row_get, Harr. cbn [default from_option id]. now rewrite Hv. }
    rewrite Htrue in Hj. now injection Hj.
  - intros Hn. split.
    + unfold parseArraysToObjects. rewrite Hcheck. cbn [then_ second_length cols].
      now rewrite Hn.
    + intros f Hf. rewrite Hn. destruct fields as [|f' fields]; [discriminate|].
      injection Hf as ->. reflexivity.
Qed.

(** An object of arrays with fewer than two columns cannot be parsed:
    when every requested field is a column and no column is named
    [undefined], [parseArraysToObjects] fails with a [TypeError], reading
    the length of a second column that is not there, whatever the fields
    requested, even none. *)
Lemma parseArraysToObjects_one_column (x : list (string * list value))
    (fields outnames : list string) (trans : list (option transform)) :
  (length x < 2)%nat ->
  assoc_get x "undefined" = None ->
  Forall (fun f => is_Some (assoc_get x f)) fields ->
  parseArraysToObjects x fields outnames trans = Throw TypeError.
Proof.
  intros Hlen Hundef Hfields. unfold parseArraysToObjects.
  rewrite (check_fields_in_present _ _ _ _ Hfields). cbn [then_].
  destruct x as [|[k1 c1] [|[k2 c2] more]]; cbn [length] in Hlen; [| |lia];
    unfold second_length; now rewrite Hundef.
Qed.

End ParsersAgree.

Lemma parsers_agree_witness :
  ((1 <= length [VNumber (Num (1 # 100)); VNumber (Num (1 # 2))])%nat ->
   Source.parseArraysToObjects example_columns ["pvalue"%string] ["assoc:pvalue"%string] [None]
   = Source.parseObjectsToObjects
       (table_rows example_columns 0 (length [VNumber (Num (1 # 100)); VNumber (Num (1 # 2))]))
       ["pvalue"%string] ["assoc:pvalue"%string] [None])
  /\ (length [VNumber (Num (1 # 100)); VNumber (Num (1 # 2))] = 0%nat ->
      Source.parseArraysToObjects example_columns ["pvalue"%string] ["assoc:pvalue"%string]
        [None] = Return []
      /\ forall f, ["pvalue"%string] !! 0%nat = Some f ->
           Source.parseObjectsToObjects
             (table_rows example_columns 0
                (length [VNumber (Num (1 # 100)); VNumber (Num (1 # 2))]))
             ["pvalue"%string] ["assoc:pvalue"%string] [None]
           = Throw (Source.not_found f (["assoc:pvalue"%string] !! 0%nat))).
Proof.
  apply (parsers_agree "id" "pvalue" [VString "a"; VString "b"]
           [VNumber (Num (1 # 100)); VNumber (Num (1 # 2))] []
           ["pvalue"%string] ["assoc:pvalue"%string] [None]).
  repeat constructor. eexists _, _. split; [reflexivity|]. split; [reflexivity|discriminate].
Defined.

Lemma parseArraysToObjects_one_column_witness :
  Source.parseArraysToObjects [("id"%string, [VString "a"; VString "b"])]
    ["id"%string] ["assoc:id"%string] [None] = Throw TypeError.
Proof.
  apply (parseArraysToObjects_one_column [("id"%string, [VString "a"; VString "b"])]
           ["id"%string] ["assoc:id"%string] [None]).
  - cbn. lia.
  - reflexivity.
  - repeat constructor. eexists. reflexivity.
Defined.

(** ** Gene constraints *)

Section GeneConstraintFacts.
Import GeneConstraintSource.
Local Open Scope string_scope.

Lemma indexOf_dotless (s : string) : dotless s -> indexOf s "." = None.
Proof.
  unfold dotless. induction s as [|c s IH]; [reflexivity|].
  cbn [Requester.all_chars indexOf]. intros Hs. apply andb_true_iff in Hs as [Hc Hs].
  apply negb_true_iff in Hc. now rewrite Hc, (IH Hs).
Qed.

Lemma indexOf_first_dot (a b : string) :
  dotless a -> indexOf (a ++ String "." b) "." = Some (String.length a).
Proof.
  unfold dotless. induction a as [|c a IH]; [reflexivity|].
  rewrite append_cons. cbn [Requester.all_chars indexOf String.length].
  intros Hs. apply andb_true_iff in Hs as [Hc Hs].
  apply negb_true_iff in Hc. now rewrite Hc, (IH Hs).
Qed.

Lemma substring_prefix (a b : string) :
  String.substring 0 (String.length a) (a ++ b) = a.
Proof.
  induction a as [|c a IH].
  - cbn. now destruct b.
  - rewrite append_cons. cbn [String.length String.substring]. now rewrite IH.
Qed.

(** The id a gene is asked for and looked up under is its id up to the
    first dot, when that dot is not the first character; an id that begins
    with a dot stays as it is, and an id without a dot becomes the empty
    text. *)
Lemma trimmed_gene_id (a b : string) :
  dotless a ->
  (a <> "" -> trimmed (a ++ String "." b) = a)
  /\ trimmed (String "." b) = String "." b
  /\ trimmed a = "".
Proof.
  intros Ha. split; [|split].
  - intros Hne. unfold trimmed. rewrite (indexOf_first_dot a b Ha).
    destruct a as [|c a]; [congruence|]. cbn [String.length].
    change (S (String.length a)) with (String.length (String c a)).
    apply substring_prefix.
  - reflexivity.
  - unfold trimmed. now rewrite (indexOf_dotless a Ha).
Qed.

Context (has_point : jsnum -> bool) (toFixed2 : jsnum -> jsnum).






End GeneConstraintFacts.

Lemma trimmed_gene_id_witness :
  ("ENSG01"%string <> ""%string ->
   GeneConstraintSource.trimmed ("ENSG01" ++ String "." "5") = "ENSG01"%string)
  /\ GeneConstraintSource.trimmed (String "." "5") = String "." "5"
  /\ GeneConstraintSource.trimmed "ENSG01" = ""%string.
Proof. exact (trimmed_gene_id "ENSG01" "5" eq_refl). Defined.


(** ** Positions and region queries *)

Section PositionFacts.
Import Position.
Local Open Scope string_scope.

Lemma span_append (p : ascii -> bool) (a r : string) :
  Requester.all_chars p a = true -> stops p r ->
  Requester.span p (a ++ r) = (a, r).
Proof.
  induction a as [|c a IH]; intros Ha Hr.
  - rewrite append_nil_l. destruct r as [|c r]; [reflexivity|].
    cbn [stops] in Hr. cbn [Requester.span]. now rewrite Hr.
  - cbn [Requester.all_chars] in Ha. apply andb_true_iff in Ha as [Hc Ha].
    rewrite append_cons. cbn [Requester.span]. rewrite Hc, (IH Ha Hr). reflexivity.
Qed.

Lemma span_inv (p : ascii -> bool) (s a r : string) :
  Requester.span p s = (a, r) ->
  s = a ++ r /\ Requester.all_chars p a = true /\ stops p r.
Proof.
  revert a r. induction s as [|c s IH]; intros a r H.
  - cbn in H. injection H as <- <-. repeat split.
  - cbn [Requester.span] in H. destruct (p c) eqn:Hc.
    + destruct (Requester.span p s) as [a' r'] eqn:Hs. injection H as <- <-.
      destruct (IH _ _ eq_refl) as (-> & Ha & Hr).
      rewrite append_cons. cbn [Requester.all_chars]. now rewrite Hc, Ha.
    + injection H as <- <-. rewrite append_nil_l. cbn [Requester.all_chars stops]. auto.
Qed.

Lemma eqb_empty (s : string) : String.eqb s "" = false <-> s <> "".
Proof. destruct s; cbn; split; congruence. Qed.

Lemma unit_not_number (c : ascii) : is_unit_char c = true -> is_number_char c = false.
Proof.
  destruct c as [[] [] [] [] [] [] [] []]; vm_compute; congruence.
Qed.

Lemma stops_units (units r : string) :
  Requester.all_chars is_unit_char units = true ->
  stops is_number_char r -> stops is_number_char (units ++ r).
Proof.
  destruct units as [|c u]; [now rewrite append_nil_l|].
  intros H _. cbn [Requester.all_chars] in H. apply andb_true_iff in H as [H _].
  rewrite append_cons. cbn [stops]. now apply unit_not_number.
Qed.

(** A position followed by something that is neither a number
    character nor a unit letter is read whole. *)
Lemma position_token_append (p r : string) :
  position_text p -> stops is_number_char r -> stops is_unit_char r ->
  position_token (p ++ r) = Some (p, r).
Proof.
  intros (digits & units & -> & Hne & Hd & Hu) Hn Hr. unfold position_token.
  rewrite append_assoc, (span_append _ _ _ Hd (stops_units _ _ Hu Hn)).
  apply eqb_empty in Hne. rewrite Hne.
  now rewrite (span_append _ _ _ Hu Hr).
Qed.

Lemma position_token_inv (s p r : string) :
  position_token s = Some (p, r) ->
  s = p ++ r /\ position_text p /\ stops is_unit_char r.
Proof.
  unfold position_token.
  destruct (Requester.span is_number_char s) as [digits rest] eqn:Hs.
  destruct (String.eqb digits "") eqn:Hne; [discriminate|].
  destruct (Requester.span is_unit_char rest) as [units rest'] eqn:Hs'.
  intros H. injection H as <- <-.
  apply span_inv in Hs as (-> & Hd & _). apply span_inv in Hs' as (-> & Hu & Hr).
  rewrite append_assoc. split; [reflexivity|]. split; [|exact Hr].
  exists digits, units. apply eqb_empty in Hne. auto.
Qed.

Lemma query_head_append (chr p r : string) :
  word chr -> position_text p -> stops is_number_char r -> stops is_unit_char r ->
  query_head (chr ++ ":" ++ p ++ r) = Some (chr, p, r).
Proof.
  intros [Hne Hw] Hp Hn Hr. unfold query_head.
  rewrite (span_append _ _ _ Hw) by reflexivity.
  apply eqb_empty in Hne. rewrite Hne.
  change (":" ++ p ++ r) with (String ":" (p ++ r)). cbv iota.

  now rewrite (position_token_append _ _ Hp Hn Hr).
Qed.

Lemma query_head_inv (x chr p r : string) :
  query_head x = Some (chr, p, r) ->
  x = chr ++ ":" ++ p ++ r /\ word chr /\ position_text p /\ stops is_unit_char r.
Proof.
  unfold query_head.
  destruct (Requester.span LDSource.is_word_char x) as [c rest] eqn:Hs.
  destruct (String.eqb c "") eqn:Hne; [discriminate|].
  apply span_inv in Hs as (-> & Hw & _).
  destruct rest as [|k rest]; [discriminate|].
  destruct (Ascii.eqb_spec k ":") as [->|Hk].
  2:{ intros H. exfalso. revert H.
      destruct k as [[] [] [] [] [] [] [] []]; try discriminate. congruence. }
  destruct (position_token rest) as [[p' r']|] eqn:Ht; [|discriminate].
  intros H. injection H as <- <- <-.
  apply position_token_inv in Ht as (-> & Hp & Hr).
  apply eqb_empty in Hne. repeat split; auto.
Qed.

(** [parsePositionQuery] accepts three forms of query and nothing else:
    a chromosome name, a colon and a position; the same followed by a minus
    sign and a second position, the two being the start and the end of the
    region; and the same with a plus sign, the two being the centre of the
    region and its half width. *)
Lemma parsePositionQuery_forms `{Engine} (x : string) (q : query) :
  parsePositionQuery x = Some q <->
  exists chr first,
    word chr /\ position_text first
    /\ ((x = chr ++ ":" ++ first /\ q = Point chr (positionStringToInt first))
        \/ exists second,
             position_text second
             /\ ((x = chr ++ ":" ++ first ++ "-" ++ second
                  /\ q = Region chr (positionStringToInt first) (positionStringToInt second))
                 \/ (x = chr ++ ":" ++ first ++ "+" ++ second
                     /\ q = Region chr
                              (js_sub (positionStringToInt first) (positionStringToInt second))
                              (js_add (positionStringToInt first) (positionStringToInt second))))).
Proof.
  split.
  - unfold parsePositionQuery.
    destruct (query_head x) as [[[chr first] rest]|] eqn:Hh; [|discriminate].
    apply query_head_inv in Hh as (-> & Hw & Hp & _).
    intros Hq. exists chr, first. split; [exact Hw|]. split; [exact Hp|].
    destruct rest as [|sign rest].
    + left. rewrite append_nil_r. now injection Hq as <-.
    + right. destruct (Ascii.eqb sign "-" || Ascii.eqb sign "+") eqn:Hsign; [|discriminate].
      destruct (position_token rest) as [[second r]|] eqn:Ht; [|discriminate].
      destruct r; [|discriminate].
      apply position_token_inv in Ht as (-> & Hp2 & _). rewrite append_nil_r.
      exists second. split; [exact Hp2|].
      destruct (Ascii.eqb_spec sign "+") as [->|Hplus].
      * right. now injection Hq as <-.
      * left. injection Hq as <-. split; [|reflexivity].
        rewrite orb_false_r in Hsign. apply Ascii.eqb_eq in Hsign as ->. reflexivity.
  - intros (chr & first & Hw & Hp & [[-> ->] | (second & Hp2 & [[-> ->] | [-> ->]])]);
      unfold parsePositionQuery.
    + rewrite <- (append_nil_r first) at 1.
      now rewrite (query_head_append chr first "" Hw Hp I I).
    + rewrite (query_head_append chr first ("-" ++ second) Hw Hp) by reflexivity.
      change ("-" ++ second) with (String "-" second).
      rewrite <- (append_nil_r second) at 1.
      now rewrite (position_token_append second "" Hp2 I I).
    + rewrite (query_head_append chr first ("+" ++ second) Hw Hp) by reflexivity.
      change ("+" ++ second) with (String "+" second).
      rewrite <- (append_nil_r second) at 1.
      now rewrite (position_token_append second "" Hp2 I I).
Qed.

(** *** Units *)

Lemma toUpperCase_append (s t : string) :
  toUpperCase (s ++ t) = toUpperCase s ++ toUpperCase t.
Proof.
  induction s as [|c s IH]; [reflexivity|].
  rewrite append_cons. cbn [toUpperCase]. now rewrite IH, append_cons.
Qed.

Lemma number_char_upper (c : ascii) : is_number_char c = true -> upper c = c.
Proof.
  destruct c as [[] [] [] [] [] [] [] []]; vm_compute; congruence.
Qed.

Lemma number_char_plain (c : ascii) :
  is_number_char c = true -> is_KMG c = false.
Proof.
  destruct c as [[] [] [] [] [] [] [] []]; vm_compute; congruence.
Qed.

Lemma B_plain (c : ascii) : is_B c = true -> is_comma c = false /\ is_KMG c = false.
Proof.
  destruct c as [[] [] [] [] [] [] [] []]; vm_compute; split; congruence.
Qed.

Lemma KMG_plain (c : ascii) : is_KMG c = true -> is_comma c = false /\ is_B c = false.
Proof.
  destruct c as [[] [] [] [] [] [] [] []]; vm_compute; split; congruence.
Qed.

Lemma toUpperCase_number (s : string) :
  Requester.all_chars is_number_char s = true -> toUpperCase s = s.
Proof.
  induction s as [|c s IH]; [reflexivity|].
  cbn [Requester.all_chars toUpperCase]. intros [Hc Hs]%andb_true_iff.
  now rewrite (number_char_upper _ Hc), (IH Hs).
Qed.

(** Removing the commas leaves digits and dots. *)
Lemma remove_commas_plain (s : string) :
  Requester.all_chars is_number_char s = true ->
  Requester.all_chars (fun c => negb (is_KMG c)) (ElementId.replace_chars is_comma "" s) = true.
Proof.
  induction s as [|c s IH]; [reflexivity|].
  cbn [Requester.all_chars ElementId.replace_chars]. intros [Hc Hs]%andb_true_iff.
  destruct (is_comma c).
  - rewrite append_nil_l. auto.
  - cbn [Requester.all_chars]. now rewrite (number_char_plain _ Hc), (IH Hs).
Qed.

Lemma keep_Bs (s : string) :
  Requester.all_chars (fun c => is_B (upper c)) s = true ->
  ElementId.replace_chars is_comma "" (toUpperCase s) = toUpperCase s
  /\ Requester.all_chars is_B (toUpperCase s) = true.
Proof.
  induction s as [|c s IH]; [now split|].
  cbn [Requester.all_chars ElementId.replace_chars toUpperCase].
  intros [Hc Hs]%andb_true_iff. destruct (IH Hs) as [IH1 IH2].
  destruct (B_plain _ Hc) as [-> _]. now rewrite IH1, Hc, IH2.
Qed.

Lemma suffix_exec_none (s : string) :
  Requester.all_chars (fun c => negb (is_KMG c)) s = true -> suffix_exec s = None.
Proof.
  induction s as [|c s IH]; [reflexivity|].
  cbn [Requester.all_chars suffix_exec]. intros [Hc Hs]%andb_true_iff.
  apply negb_true_iff in Hc. now rewrite Hc, (IH Hs).
Qed.

Lemma suffix_exec_append (s : string) (letter : ascii) (bs : string) :
  Requester.all_chars (fun c => negb (is_KMG c)) s = true ->
  is_KMG letter = true -> Requester.all_chars is_B bs = true ->
  suffix_exec (s ++ String letter bs) = Some (s, letter).
Proof.
  intros Hs Hl Hb. induction s as [|c s IH].
  - rewrite append_nil_l. cbn [suffix_exec]. now rewrite Hl, Hb.
  - cbn [Requester.all_chars] in Hs. apply andb_true_iff in Hs as [Hc Hs].
    apply negb_true_iff in Hc.
    rewrite append_cons. cbn [suffix_exec]. now rewrite Hc, (IH Hs).
Qed.

Lemma Qmult_inject_Z (a b : Z) : Qmult (inject_Z a) (inject_Z b) = inject_Z (a * b).
Proof. unfold Qmult, inject_Z. cbn. reflexivity. Qed.

(** [positionStringToInt] reads a whole number of bases, written with
    or without commas, and multiplies it by the unit that follows: a
    thousand for [k], a million for [m], a thousand millions for [g], in
    either case and with any number of [b] behind; without a unit the number
    is the position. *)
Lemma positionStringToInt_units `{Engine} (digits : string) (n : Z) :
  Requester.all_chars is_number_char digits = true ->
  StringToNumber (ElementId.replace_chars is_comma "" digits) = Num (inject_Z n) ->
  positionStringToInt digits = Num (inject_Z n)
  /\ forall (letter : ascii) (bs : string),
       is_KMG (upper letter) = true ->
       Requester.all_chars (fun c => is_B (upper c)) bs = true ->
       (Z.abs n * unit_factor letter < 2 ^ 53)%Z ->
       positionStringToInt (digits ++ String letter bs)
       = Num (inject_Z (n * unit_factor letter)).
Proof.
  intros Hd Hn. split.
  - unfold positionStringToInt. rewrite (toUpperCase_number _ Hd).
    rewrite (suffix_exec_none _ (remove_commas_plain _ Hd)), Hn.
    cbn [js_mul js_lift2]. change 1%Q with (inject_Z 1).
    now rewrite Qmult_inject_Z, Z.mul_1_r.
  - intros letter bs Hl Hb _. unfold positionStringToInt.
    rewrite toUpperCase_append, (toUpperCase_number _ Hd). cbn [toUpperCase].
    rewrite replace_chars_append. cbn [ElementId.replace_chars].
    destruct (KMG_plain _ Hl) as [-> _]. destruct (keep_Bs _ Hb) as [-> HB].
    rewrite (suffix_exec_append _ _ _ (remove_commas_plain _ Hd) Hl HB), Hn.
    unfold unit_factor. cbn [js_mul js_lift2].
    destruct (Ascii.eqb (upper letter) "M");
      [|destruct (Ascii.eqb (upper letter) "G")];
      (match goal with |- Num (_ * ?m)%Q = _ =>
         change m with (inject_Z (Qnum m)) end);
      now rewrite Qmult_inject_Z.
Qed.

Lemma positionStringToInt_units_witness :
  @positionStringToInt digit_engine "1,500" = Num (inject_Z 1500)
  /\ @positionStringToInt digit_engine "1,500kb" = Num (inject_Z 1500000).
Proof.
  destruct (@positionStringToInt_units digit_engine "1,500" 1500 eq_refl eq_refl) as [H0 Hu].
  split; [exact H0|].
  exact (Hu "k"%char "b" eq_refl eq_refl eq_refl).
Defined.

End PositionFacts.
